(** * VLP2SS: the content transformation pipeline of [golang/main.go]

    A shallow embedding of the converter (structure flattener, HTML
    rewriter) and of the uploader's content-block segmenter, together with
    the properties stated for them.

    Conventions.
    - A Go [string] is modelled by the list of its code points
      ([gostring]); the converter only ever sees text decoded by
      [encoding/xml] and [encoding/json], which is valid UTF-8, and every
      offset the program computes falls on a rune boundary.
    - Go's [int] is modelled by [Z]; the only arithmetic on it is counting
      list elements from 1.
    - [regexp] is modelled by a backtracking matcher with Go's
      leftmost-first (Perl-like) preference order.  Every pattern of the
      program matches at least one rune, so the empty-match clauses of
      [regexp] are never exercised. *)

From Stdlib Require Import List NArith ZArith Lia Bool String Ascii Permutation.
From Stdlib Require Import DecimalString.
Import ListNotations.


Definition rune := N.
Definition gostring := list rune.

(** [str "abc"] is the Go string literal ["abc"] (ASCII literals only). *)
Definition str (s : string) : gostring :=
  map N_of_ascii (list_ascii_of_string s).

Fixpoint gostring_eqb (a b : gostring) : bool :=
  match a, b with
  | [], [] => true
  | x :: a', y :: b' => N.eqb x y && gostring_eqb a' b'
  | _, _ => false
  end.

(** [s[i:j]] for in-range offsets. *)
Definition slice (s : gostring) (i j : nat) : gostring :=
  firstn (j - i) (skipn i s).

(** ** Package [strings] and [unicode] *)

Module Strings.

(** [unicode.IsSpace]. *)
Definition IsSpace (c : rune) : bool :=
  ((9 <=? c) && (c <=? 13) || (c =? 32) || (c =? 133) || (c =? 160)
   || (c =? 5760) || ((8192 <=? c) && (c <=? 8202)) || (c =? 8232)
   || (c =? 8233) || (c =? 8239) || (c =? 8287) || (c =? 12288))%N.

Fixpoint TrimLeft (s : gostring) : gostring :=
  match s with
  | c :: s' => if IsSpace c then TrimLeft s' else s
  | [] => []
  end.

Definition TrimSpace (s : gostring) : gostring :=
  rev (TrimLeft (rev (TrimLeft s))).

Fixpoint HasPrefix (s p : gostring) {struct p} : bool :=
  match p with
  | [] => true
  | x :: p' =>
      match s with
      | y :: s' => N.eqb x y && HasPrefix s' p'
      | [] => false
      end
  end.

(** [strings.Index]: offset of the first occurrence of [sub], if any. *)
Fixpoint Index (s sub : gostring) : option nat :=
  if HasPrefix s sub then Some 0
  else match s with
       | [] => None
       | _ :: s' => option_map S (Index s' sub)
       end.

Definition Contains (s sub : gostring) : bool :=
  match Index s sub with Some _ => true | None => false end.

(** [strings.Replace(s, old, new, 1)]. *)
Definition Replace1 (s old new : gostring) : gostring :=
  match Index s old with
  | Some i => firstn i s ++ new ++ skipn (i + List.length old) s
  | None => s
  end.

(** [strings.Fields]: the maximal runs of non-space runes. *)
Fixpoint fields_aux (cur : gostring) (s : gostring) : list gostring :=
  match s with
  | [] => match cur with [] => [] | _ => [rev cur] end
  | c :: s' =>
      if IsSpace c
      then match cur with
           | [] => fields_aux [] s'
           | _ => rev cur :: fields_aux [] s'
           end
      else fields_aux (c :: cur) s'
  end.

Definition Fields (s : gostring) : list gostring := fields_aux [] s.

End Strings.

(** ** Package [regexp] *)

Module Regexp.

Inductive regex : Type :=
| Eps
| Chr (c : rune)
| Cls (p : rune -> bool)
| Cat (r1 r2 : regex)
| Alt (r1 r2 : regex)
| Star (greedy : bool) (r : regex)
| Group (i : nat) (r : regex)
| WordB.

(** Derived forms. *)
Definition Plus (greedy : bool) (r : regex) : regex := Cat r (Star greedy r).
Definition Seq (rs : list regex) : regex := fold_right Cat Eps rs.
Definition Lit (l : gostring) : regex := fold_right (fun c r => Cat (Chr c) r) Eps l.

(** Character classes used by the program's patterns. *)
Definition not_rune (c : rune) : rune -> bool := fun x => negb (N.eqb x c).
(** [\s] is [[\t\n\f\r ]]. *)
Definition perl_space (x : rune) : bool :=
  ((x =? 9) || (x =? 10) || (x =? 12) || (x =? 13) || (x =? 32))%N.
(** [\w] is [[0-9A-Za-z_]]. *)
Definition word_rune (x : rune) : bool :=
  ((48 <=? x) && (x <=? 57) || (65 <=? x) && (x <=? 90) || (x =? 95)
   || (97 <=? x) && (x <=? 122))%N.
(** [.] without the [s] flag, and with it. *)
Definition dot : rune -> bool := not_rune 10%N.
Definition dot_s : rune -> bool := fun _ => true.

Definition captures := list (nat * (nat * nat)).

Record mstate : Type := MState
  { pos : nat; prev : option rune; rest : gostring; caps : captures }.

Definition result := option (nat * captures).
Definition kont := mstate -> result.

Definition advance (st : mstate) (c : rune) (t : gostring) : mstate :=
  MState (S (pos st)) (Some c) t (caps st).

Definition is_word (o : option rune) : bool :=
  match o with Some c => word_rune c | None => false end.

(** The loop of a repetition: [fuel] bounds the number of iterations, each
    of which must consume input. *)
Fixpoint star_loop (body : kont -> kont) (greedy : bool) (k : kont)
         (fuel : nat) (st : mstate) {struct fuel} : result :=
  match fuel with
  | O => k st
  | S f =>
      let again := fun st' : mstate =>
        if Nat.ltb (pos st) (pos st') then star_loop body greedy k f st' else None in
      if greedy
      then match body again st with
           | Some x => Some x
           | None => k st
           end
      else match k st with
           | Some x => Some x
           | None => body again st
           end
  end.

(** [m r k st]: match [r] at [st], then continue with [k]; alternatives
    are tried in preference order and the first success is returned. *)
Fixpoint m (r : regex) (k : kont) (st : mstate) {struct r} : result :=
  match r with
  | Eps => k st
  | Chr c =>
      match rest st with
      | x :: t => if N.eqb x c then k (advance st x t) else None
      | [] => None
      end
  | Cls p =>
      match rest st with
      | x :: t => if p x then k (advance st x t) else None
      | [] => None
      end
  | Cat r1 r2 => m r1 (m r2 k) st
  | Alt r1 r2 =>
      match m r1 k st with
      | Some x => Some x
      | None => m r2 k st
      end
  | Star g r1 => star_loop (m r1) g k (S (List.length (rest st))) st
  | Group i r1 =>
      m r1 (fun st' => k (MState (pos st') (prev st') (rest st')
                                 ((i, (pos st, pos st')) :: caps st'))) st
  | WordB =>
      if xorb (is_word (prev st)) (is_word (hd_error (rest st)))
      then k st else None
  end.

Definition accept : kont := fun st => Some (pos st, caps st).

(** A match: start offset, end offset, capture groups. *)
Record found : Type := Found { m_start : nat; m_end : nat; m_caps : captures }.

(** Leftmost match starting at this offset. *)
Definition match_here (r : regex) (p : nat) (pv : option rune) (s : gostring)
  : option found :=
  match m r accept (MState p pv s []) with
  | Some (e, cs) => Some (Found p e cs)
  | None => None
  end.

(** The successive non-overlapping matches ([allMatches]).  [resume] is the
    offset where the next search may start, [prevEnd] the end of the
    previous match. *)
Fixpoint find_all_from (r : regex) (p : nat) (pv : option rune) (s : gostring)
         (resume : nat) (prevEnd : option nat) {struct s} : list found :=
  let here := if Nat.leb resume p then match_here r p pv s else None in
  match here with
  | Some f =>
      let empty := Nat.eqb (m_end f) p in
      let ignored := empty && match prevEnd with
                              | Some e => Nat.eqb e p
                              | None => false
                              end in
      let resume' := if empty then S p else m_end f in
      (if ignored then [] else [f]) ++
      match s with
      | [] => []
      | c :: s' => find_all_from r (S p) (Some c) s' resume' (Some (m_end f))
      end
  | None =>
      match s with
      | [] => []
      | c :: s' => find_all_from r (S p) (Some c) s' resume prevEnd
      end
  end.

Definition find_all (r : regex) (s : gostring) : list found :=
  find_all_from r 0 None s 0 None.

(** Text of capture group [i] ([""] when the group did not take part). *)
Definition group_text (s : gostring) (f : found) (i : nat) : gostring :=
  match find (fun c => Nat.eqb (fst c) i) (m_caps f) with
  | Some (_, (a, b)) => slice s a b
  | None => []
  end.

Definition match_text (s : gostring) (f : found) : gostring :=
  slice s (m_start f) (m_end f).

(** [FindAllString(s, -1)]. *)
Definition FindAllString (r : regex) (s : gostring) : list gostring :=
  map (match_text s) (find_all r s).

(** [FindStringSubmatch]: [nil] or the texts of groups [0..n]. *)
Definition FindStringSubmatch (r : regex) (n : nat) (s : gostring)
  : option (list gostring) :=
  match find_all r s with
  | f :: _ => Some (match_text s f :: map (group_text s f) (seq 1 n))
  | [] => None
  end.

(** [FindAllStringSubmatch(s, -1)]. *)
Definition FindAllStringSubmatch (r : regex) (n : nat) (s : gostring)
  : list (list gostring) :=
  map (fun f => match_text s f :: map (group_text s f) (seq 1 n)) (find_all r s).

(** [FindAllStringSubmatchIndex(s, -1)], keeping the offsets of group 0. *)
Definition FindAllStringIndex (r : regex) (s : gostring) : list (nat * nat) :=
  map (fun f => (m_start f, m_end f)) (find_all r s).

(** The shared loop of [ReplaceAllString] and [ReplaceAllStringFunc]: the
    text between matches is copied, each match is replaced by [repl]. *)
Fixpoint replace_matches (s : gostring) (last : nat) (ms : list found)
         (repl : found -> gostring) : gostring :=
  match ms with
  | [] => skipn last s
  | f :: ms' =>
      slice s last (m_start f) ++ repl f ++ replace_matches s (m_end f) ms' repl
  end.

Definition ReplaceAllStringFunc (r : regex) (s : gostring)
           (f : gostring -> gostring) : gostring :=
  replace_matches s 0 (find_all r s) (fun x => f (match_text s x)).

(** [ReplaceAllString] with a template free of [$]. *)
Definition ReplaceAllLiteral (r : regex) (s : gostring) (new : gostring)
  : gostring :=
  replace_matches s 0 (find_all r s) (fun _ => new).

(** [ReplaceAllString] with the template ["$1"]. *)
Definition ReplaceAllGroup1 (r : regex) (s : gostring) : gostring :=
  replace_matches s 0 (find_all r s) (fun x => group_text s x 1).

End Regexp.

(** ** Package [html]: [UnescapeString]

    The algorithm of [html.UnescapeString] ([unescapeEntity] with
    [attribute = false]).  The tables of named character references,
    [entity] and [entity2], are those of the Go library and are taken as
    parameters. *)

Module Html.

Definition amp : rune := 38%N.
Definition semi : rune := 59%N.
Definition hash : rune := 35%N.

Definition is_digit (c : rune) : bool := ((48 <=? c) && (c <=? 57))%N.
Definition is_lower_hex (c : rune) : bool := ((97 <=? c) && (c <=? 102))%N.
Definition is_upper_hex (c : rune) : bool := ((65 <=? c) && (c <=? 70))%N.
Definition is_alnum (c : rune) : bool :=
  ((97 <=? c) && (c <=? 122) || (65 <=? c) && (c <=? 90)
   || (48 <=? c) && (c <=? 57))%N.

(** Arithmetic on [rune], a 32-bit signed integer. *)
Definition wrap32 (z : Z) : Z := ((z + 2147483648) mod 4294967296 - 2147483648)%Z.

(** Windows-1252 replacements for the code points 0x80 to 0x9F. *)
Definition replacementTable : list Z :=
  [8364; 129; 8218; 402; 8222; 8230; 8224; 8225; 710; 8240; 352; 8249; 338;
   141; 381; 143; 144; 8216; 8217; 8220; 8221; 8226; 8211; 8212; 732; 8482;
   353; 8250; 339; 157; 382; 376]%Z.

Definition runeError : rune := 65533%N.

(** The digits of a numeric reference: the accumulated value, the number
    of runes read (a closing [;] included), starting from [x]. *)
Fixpoint scan_number (hex : bool) (x : Z) (s : gostring) : Z * nat :=
  match s with
  | [] => (x, 0)
  | c :: t =>
      if is_digit c then
        let r := scan_number hex (wrap32 ((if hex then 16 else 10) * x + Z.of_N c - 48)) t in
        (fst r, S (snd r))
      else if hex && is_lower_hex c then
        let r := scan_number hex (wrap32 (16 * x + Z.of_N c - 97 + 10)) t in
        (fst r, S (snd r))
      else if hex && is_upper_hex c then
        let r := scan_number hex (wrap32 (16 * x + Z.of_N c - 65 + 10)) t in
        (fst r, S (snd r))
      else if N.eqb c semi then (x, 1)
      else (x, 0)
  end.

(** The code point written for the value of a numeric reference
    ([utf8.EncodeRune] writes U+FFFD for an invalid rune). *)
Definition numeric_rune (x : Z) : rune :=
  if ((128 <=? x) && (x <=? 159))%Z
  then Z.to_N (nth (Z.to_nat (x - 128)) replacementTable 0%Z)
  else if ((x <=? 0) || (55296 <=? x) && (x <=? 57343) || (1114111 <? x))%Z
       then runeError
       else Z.to_N x.

(** The name of a named reference: letters and digits, then an optional
    [;]; the number of runes read. *)
Fixpoint scan_name (s : gostring) : nat :=
  match s with
  | [] => 0
  | c :: t =>
      if is_alnum c then S (scan_name t)
      else if N.eqb c semi then 1
      else 0
  end.

Definition longestEntityWithoutSemicolon : nat := 6.

Section Entities.

Variable entity : gostring -> option rune.
Variable entity2 : gostring -> option (rune * rune).

(** The loop [for j := maxLen; j > 1; j--] over the prefixes of the
    name; [j] counts down from [S j']. *)
Fixpoint longest_prefix (name : gostring) (j : nat) : option (rune * nat) :=
  match j with
  | O => None
  | S j' =>
      if Nat.ltb 1 j then
        match entity (firstn j name) with
        | Some x => Some (x, j)
        | None => longest_prefix name j'
        end
      else None
  end.

(** [unescapeEntity] on the text [t] that follows an ampersand: the runes
    written, and the number of runes read (the ampersand included). *)
Definition unescapeEntity (t : gostring) : gostring * nat :=
  match t with
  | [] => ([amp], 1)
  | c :: t1 =>
      if N.eqb c hash then
        if Nat.leb (List.length t) 2 then ([amp], 1)
        else
          let hex := match t1 with
                     | d :: _ => N.eqb d 120 || N.eqb d 88
                     | [] => false
                     end in
          let i0 := if hex then 3 else 2 in
          let r := scan_number hex 0%Z (skipn (i0 - 1) t) in
          let i := i0 + snd r in
          if Nat.leb i 3 then ([amp], 1)
          else ([numeric_rune (fst r)], i)
      else
        let i := S (scan_name t) in
        let entityName := firstn (i - 1) t in
        match entityName with
        | [] => ([amp], 1)
        | _ =>
            match entity entityName with
            | Some x => ([x], i)
            | None =>
                match entity2 entityName with
                | Some (x, y) => ([x; y], i)
                | None =>
                    let maxLen := Nat.min (List.length entityName - 1)
                                          longestEntityWithoutSemicolon in
                    match longest_prefix entityName maxLen with
                    | Some (x, j) => ([x], j + 1)
                    | None => (amp :: entityName, i)
                    end
                end
            end
        end
  end.

(** The copying loop of [unescape]; [skip] runes are still part of the
    reference read last. *)
Fixpoint unescape_from (skip : nat) (s : gostring) : gostring :=
  match s with
  | [] => []
  | c :: t =>
      match skip with
      | S n => unescape_from n t
      | O =>
          if N.eqb c amp
          then let r := unescapeEntity t in fst r ++ unescape_from (snd r - 1) t
          else c :: unescape_from 0 t
      end
  end.

Definition UnescapeString (s : gostring) : gostring := unescape_from 0 s.

End Entities.

End Html.

(** ** The HTML rewriter *)

Import Regexp.

Definition dq : rune := 34%N.
Definition lt : rune := 60%N.
Definition gt : rune := 62%N.

(** A literal of the source written with ['] in place of the double
    quote.  The patterns quoted in the comments below follow the same
    convention, and have a blank before a closing parenthesis that
    follows a star. *)
Definition qstr (s : string) : gostring :=
  map (fun c => if N.eqb c 39 then dq else c) (str s).

Definition ws_plus : regex := Plus true (Cls perl_space).
Definition ws_star : regex := Star true (Cls perl_space).
Definition notq_star : regex := Star true (Cls (not_rune dq)).
Definition notq_plus : regex := Plus true (Cls (not_rune dq)).
Definition notgt_star : regex := Star true (Cls (not_rune gt)).
Definition notgt_plus : regex := Plus true (Cls (not_rune gt)).

(** [<[^>]+>] *)
Definition tagPattern : regex := Seq [Chr lt; notgt_plus; Chr gt].

Definition stripTags (s : gostring) : gostring :=
  ReplaceAllLiteral tagPattern s [].

(** *** [convertYouTubeEmbeds] *)

(** [<div[^>]*class='[^']*mediatag-thumb youtube-thumb[^']*'[^>]*data-media-id='([^']+)'[^>]*>.*?</div>] *)
Definition youtubePattern : regex :=
  Seq [Lit (str "<div"); notgt_star; Lit (qstr "class='"); notq_star;
       Lit (str "mediatag-thumb youtube-thumb"); notq_star; Chr dq;
       notgt_star; Lit (qstr "data-media-id='"); Group 1 notq_plus; Chr dq;
       notgt_star; Chr gt; Star false (Cls dot); Lit (str "</div>")].

(** [<div[^>]*class='[^']*mediatag-thumb youtube-thumb[^']*'[^>]*data-thumb-url='[^']*youtube\.com/vi/([^/]+)/[^']*'[^>]*>.*?</div>] *)
Definition thumbUrlPattern : regex :=
  Seq [Lit (str "<div"); notgt_star; Lit (qstr "class='"); notq_star;
       Lit (str "mediatag-thumb youtube-thumb"); notq_star; Chr dq;
       notgt_star; Lit (qstr "data-thumb-url='"); notq_star;
       Lit (str "youtube.com/vi/"); Group 1 (Plus true (Cls (not_rune 47%N)));
       Chr 47%N; notq_star; Chr dq;
       notgt_star; Chr gt; Star false (Cls dot); Lit (str "</div>")].

Definition screenStepsEmbed (videoID : gostring) : gostring :=
  qstr "<div class='html-embed'>"
  ++ qstr "<iframe width='560' height='315' src='https://www.youtube.com/embed/"
  ++ videoID
  ++ qstr "' title='YouTube video player' frameborder='0' "
  ++ qstr "allow='accelerometer; autoplay; clipboard-write; encrypted-media; gyroscope; picture-in-picture; web-share' "
  ++ qstr "referrerpolicy='strict-origin-when-cross-origin' allowfullscreen></iframe></div>".

(** One iteration of the loops over [matches]: [match[0]] is the text of
    the block, [match[1]] the video identifier. *)
Definition replaceEmbed (htmlContent : gostring) (mt : list gostring) : gostring :=
  match mt with
  | fullMatch :: videoID :: _ =>
      Strings.Replace1 htmlContent fullMatch (screenStepsEmbed videoID)
  | _ => htmlContent
  end.

Definition replaceThumbEmbed (htmlContent : gostring) (mt : list gostring) : gostring :=
  match mt with
  | fullMatch :: videoID :: _ =>
      if Strings.Contains fullMatch (str "mediatag-thumb")
      then Strings.Replace1 htmlContent fullMatch (screenStepsEmbed videoID)
      else htmlContent
  | _ => htmlContent
  end.

Definition convertYouTubeEmbeds (htmlContent : gostring) : gostring :=
  let matches := FindAllStringSubmatch youtubePattern 1 htmlContent in
  let htmlContent := fold_left replaceEmbed matches htmlContent in
  let thumbMatches := FindAllStringSubmatch thumbUrlPattern 1 htmlContent in
  fold_left replaceThumbEmbed thumbMatches htmlContent.

(** *** [convertVLPParagraphStyles] *)

(** [pClassToStyleMap]. *)
Definition pClassToStyleMap : list (gostring * gostring) :=
  [(str "c10", str "introduction");
   (str "c44", str "introduction");
   (str "c48", str "info")].

(** [<p\s+class='[^']*\bPCLASS\b[^']*'.*?</p>] with the [s] flag. *)
Definition pTagPattern (pClass : gostring) : regex :=
  Seq [Lit (str "<p"); ws_plus; Lit (qstr "class='"); notq_star; WordB;
       Lit pClass; WordB; notq_star; Chr dq; Star false (Cls dot_s);
       Lit (str "</p>")].

(** [((?:<p\s+class='[^']*\bPCLASS\b[^']*'.*?</p>\s* )+)] with the [s] flag. *)
Definition groupPattern (pClass : gostring) : regex :=
  Group 1 (Plus true (Cat (pTagPattern pClass) ws_star)).

(** [<p[^>]*>(.* )</p>] with the [s] flag. *)
Definition tagContentRegex : regex :=
  Seq [Lit (str "<p"); notgt_star; Chr gt; Group 1 (Star true (Cls dot_s));
       Lit (str "</p>")].

(** The two builders after one paragraph of the group. *)
Definition sortParagraph (acc : gostring * gostring * bool) (pTag : gostring)
  : gostring * gostring * bool :=
  let '(contentBuilder, imageOnlyBuilder, hasContent) := acc in
  match FindStringSubmatch tagContentRegex 1 pTag with
  | Some (_ :: inner :: _) =>
      let content := Strings.TrimSpace (stripTags inner) in
      if negb (gostring_eqb content [])
      then (contentBuilder ++ pTag, imageOnlyBuilder, true)
      else if Strings.Contains pTag (str "<img")
           then (contentBuilder, imageOnlyBuilder ++ pTag, hasContent)
           else acc
  | _ => acc
  end.

Definition styledBlock (style content : gostring) : gostring :=
  qstr "<div class='screensteps-styled-block' data-style='" ++ style
  ++ qstr "'>" ++ content ++ str "</div>".

(** The replacement function applied to each matched group. *)
Definition replaceGroup (pClass style : gostring) (mtch : gostring) : gostring :=
  let pTags := FindAllString (pTagPattern pClass) mtch in
  let '(contentBuilder, imageOnlyBuilder, hasContent) :=
    fold_left sortParagraph pTags ([], [], false) in
  let result := if hasContent then styledBlock style contentBuilder else [] in
  let result := match imageOnlyBuilder with
                | [] => result
                | _ => result ++ imageOnlyBuilder
                end in
  if negb hasContent && Nat.eqb (List.length imageOnlyBuilder) 0
  then []
  else result.

(** The body of the loop over [pClassToStyleMap] for one entry. *)
Definition convertParagraphClass (htmlContent : gostring)
           (entry : gostring * gostring) : gostring :=
  ReplaceAllStringFunc (groupPattern (fst entry)) htmlContent
                       (replaceGroup (fst entry) (snd entry)).

(** Go leaves the iteration order of [range] over a map unspecified and
    randomises it; [order] is the order in which this execution of the
    loop visits the entries of [pClassToStyleMap]. *)
Definition convertVLPParagraphStyles (order : list (gostring * gostring))
           (htmlContent : gostring) : gostring :=
  fold_left convertParagraphClass order htmlContent.

(** *** [convertVLPFormatting] *)

(** [<span\s+class='([^']+)'[^>]*>(.*?)</span>] *)
Definition spanRegex : regex :=
  Seq [Lit (str "<span"); ws_plus; Lit (qstr "class='"); Group 1 notq_plus;
       Chr dq; notgt_star; Chr gt; Group 2 (Star false (Cls dot));
       Lit (str "</span>")].

Definition classToTagMap : list (gostring * gostring) :=
  [(str "c0", str "strong");
   (str "c3", str "strong");
   (str "c5", str "strong");
   (str "c6", str "code");
   (str "c7", str "strong")].

Definition lookupTag (class : gostring) : option gostring :=
  option_map snd (find (fun e => gostring_eqb (fst e) class) classToTagMap).

(** First loop: [c5] anywhere in the class list. *)
Definition hasC5 (classes : list gostring) : bool :=
  existsb (fun class => gostring_eqb class (str "c5")) classes.

(** Second loop: the first class with an entry in the map. *)
Fixpoint firstMapped (classes : list gostring) : option gostring :=
  match classes with
  | [] => None
  | class :: rest =>
      match lookupTag class with
      | Some tag => Some tag
      | None => firstMapped rest
      end
  end.

(** [replacementTag]; [None] stands for the empty string. *)
Definition replacementTag (classes : list gostring) : option gostring :=
  if hasC5 classes then Some (str "strong") else firstMapped classes.

Definition wrapTag (tag content : gostring) : gostring :=
  [lt] ++ tag ++ [gt] ++ content ++ str "</" ++ tag ++ [gt].

(** The replacement function applied to each matched span. *)
Definition replaceSpan (mtch : gostring) : gostring :=
  match FindStringSubmatch spanRegex 2 mtch with
  | Some (_ :: classAttr :: content :: _) =>
      match replacementTag (Strings.Fields classAttr) with
      | Some tag => wrapTag tag content
      | None => content
      end
  | _ => mtch
  end.

Definition convertSpans (htmlContent : gostring) : gostring :=
  ReplaceAllStringFunc spanRegex htmlContent replaceSpan.

(** [<span[^>]*>\s*</span>] *)
Definition emptySpanPattern : regex :=
  Seq [Lit (str "<span"); notgt_star; Chr gt; ws_star; Lit (str "</span>")].

Definition stripEmptySpans (htmlContent : gostring) : gostring :=
  ReplaceAllLiteral emptySpanPattern htmlContent [].

(** [(<ol[^>]* ) start='[^']*'] *)
Definition olStartPattern : regex :=
  Seq [Group 1 (Seq [Lit (str "<ol"); notgt_star]); Lit (qstr " start='");
       notq_star; Chr dq].

Definition convertVLPFormatting (order : list (gostring * gostring))
           (htmlContent : gostring) : gostring :=
  match htmlContent with
  | [] => []
  | _ =>
      let htmlContent := convertYouTubeEmbeds htmlContent in
      let htmlContent := convertVLPParagraphStyles order htmlContent in
      let htmlContent := convertSpans htmlContent in
      let htmlContent := stripEmptySpans htmlContent in
      ReplaceAllGroup1 olStartPattern htmlContent
  end.

(** *** [cleanHTML] *)

(** [src=] followed by a double or a single quote, then [\.\/]. *)
Definition srcPrefixPattern : regex :=
  Seq [Lit (str "src="); Cls (fun c => N.eqb c dq || N.eqb c 39);
       Chr 46%N; Chr 47%N].

Section CleanHTML.

Variable entity : gostring -> option rune.
Variable entity2 : gostring -> option (rune * rune).

(** The two passes of entity decoding at the head of [cleanHTML]. *)
Definition decodeEntities (htmlContent : gostring) : gostring :=
  Html.UnescapeString entity entity2 (Html.UnescapeString entity entity2 htmlContent).

Definition cleanHTML (order : list (gostring * gostring))
           (htmlContent : gostring) : gostring :=
  match htmlContent with
  | [] => []
  | _ =>
      let htmlContent := decodeEntities htmlContent in
      let htmlContent := convertVLPFormatting order htmlContent in
      let htmlContent := ReplaceAllLiteral srcPrefixPattern htmlContent (qstr "src='") in
      Strings.TrimSpace htmlContent
  end.

End CleanHTML.

(** ** The source model (VLP XML) and the target model (ScreenSteps JSON)

    Each Go struct is a record in a module of its name, so that fields
    keep their names; a pointer field that may be [nil] is an [option]. *)

Module Image.
Record t : Type := mk
  { Src : gostring; Filename : gostring; Width : gostring; Height : gostring }.
End Image.

Module LocaleContent.
Record t : Type := mk
  { ID : gostring; Title : gostring; LanguageCode : gostring;
    Content : gostring;
    Images : option (list Image.t) }.
End LocaleContent.

Module ContentNode.
#[local] Unset Elimination Schemes.
Inductive t : Type := mk
  { ID : gostring; Title : gostring; OrderIndex : Z;
    Children : option (list t);
    Localizations : option LocaleContent.t }.
End ContentNode.

Module Manual.
Record t : Type := mk
  { ID : gostring; Name : gostring; DefaultLanguageCode : gostring;
    DataFormat : gostring;
    ContentNodes : list ContentNode.t }.
End Manual.

Module SSStep.
Record t : Type := mk
  { ID : gostring; Title : gostring; Order : Z; Content : gostring;
    Images : list Image.t }.
End SSStep.

Module SSArticle.
Record t : Type := mk
  { ID : gostring; Title : gostring; Position : Z; VLPOrder : Z;
    Steps : list SSStep.t }.
End SSArticle.

Module SSChapter.
Record t : Type := mk
  { ID : gostring; Title : gostring; Order : Z; Description : gostring;
    Articles : list SSArticle.t }.
End SSChapter.

(** The progress counters of [Logger].  The messages it prints are not
    part of the model of the converter. *)
Module Logger.
Record t : Type := mk
  { totalManuals : Z; totalChapters : Z; totalArticles : Z; totalImages : Z;
    currentManual : Z; currentChapter : Z; currentArticle : Z;
    processedArticles : Z; processedImages : Z }.

Definition SetTotals (l : t) (manuals chapters articles images : Z) : t :=
  mk manuals chapters articles images (currentManual l) (currentChapter l)
     (currentArticle l) (processedArticles l) (processedImages l).
Definition set_currentManual (l : t) (v : Z) : t :=
  mk (totalManuals l) (totalChapters l) (totalArticles l) (totalImages l)
     v (currentChapter l) (currentArticle l) (processedArticles l)
     (processedImages l).
Definition set_currentChapter (l : t) (v : Z) : t :=
  mk (totalManuals l) (totalChapters l) (totalArticles l) (totalImages l)
     (currentManual l) v (currentArticle l) (processedArticles l)
     (processedImages l).
Definition set_currentArticle (l : t) (v : Z) : t :=
  mk (totalManuals l) (totalChapters l) (totalArticles l) (totalImages l)
     (currentManual l) (currentChapter l) v (processedArticles l)
     (processedImages l).
Definition set_processedArticles (l : t) (v : Z) : t :=
  mk (totalManuals l) (totalChapters l) (totalArticles l) (totalImages l)
     (currentManual l) (currentChapter l) (currentArticle l) v
     (processedImages l).
Definition set_processedImages (l : t) (v : Z) : t :=
  mk (totalManuals l) (totalChapters l) (totalArticles l) (totalImages l)
     (currentManual l) (currentChapter l) (currentArticle l)
     (processedArticles l) v.
End Logger.

(** ** The structure flattener *)

Definition getNodeContent (node : ContentNode.t) : gostring :=
  match ContentNode.Localizations node with
  | Some lc => LocaleContent.Content lc
  | None => []
  end.

Definition getNodeImages (node : ContentNode.t) : list Image.t :=
  match ContentNode.Localizations node with
  | Some lc =>
      match LocaleContent.Images lc with
      | Some imgs => imgs
      | None => []
      end
  | None => []
  end.

(** [node.Children == nil || len(node.Children.Nodes) == 0] *)
Definition noChildren (node : ContentNode.t) : bool :=
  match ContentNode.Children node with
  | None => true
  | Some [] => true
  | Some (_ :: _) => false
  end.

Definition childNodes (node : ContentNode.t) : list ContentNode.t :=
  match ContentNode.Children node with
  | Some ns => ns
  | None => []
  end.

Definition zlen {A : Type} (l : list A) : Z := Z.of_nat (List.length l).

Section Flattener.

Variable entity : gostring -> option rune.
Variable entity2 : gostring -> option (rune * rune).

(** [mapOrder n] is the order in which the [n]-th call of [cleanHTML] in
    this run sees the entries of [pClassToStyleMap]. *)
Variable mapOrder : nat -> list (gostring * gostring).

(** The converter: its logger, and the number of calls of [cleanHTML]
    made so far. *)
Record Converter : Type := mkConverter
  { logger : Logger.t; cleanCalls : nat }.

Definition withLogger (c : Converter) (f : Logger.t -> Logger.t) : Converter :=
  mkConverter (f (logger c)) (cleanCalls c).

Definition cleanHTML_c (c : Converter) (htmlContent : gostring)
  : gostring * Converter :=
  (cleanHTML entity entity2 (mapOrder (cleanCalls c)) htmlContent,
   mkConverter (logger c) (S (cleanCalls c))).

(** First pass: the totals for progress tracking. *)
Definition countStepImages (articleNode : ContentNode.t) : Z :=
  fold_left (fun n stepNode => (n + zlen (getNodeImages stepNode))%Z)
            (childNodes articleNode) 0%Z.

Definition countArticleImages (n : Z) (articleNode : ContentNode.t) : Z :=
  (n + zlen (getNodeImages articleNode) + countStepImages articleNode)%Z.

Fixpoint countTotals (idx : nat) (nodes : list ContentNode.t)
         (acc : Z * Z * Z) : Z * Z * Z :=
  match nodes with
  | [] => acc
  | chapterNode :: nodes' =>
      if Nat.eqb idx 0 && noChildren chapterNode
      then countTotals (S idx) nodes' acc
      else
        let '(totalChapters, totalArticles, totalImages) := acc in
        countTotals (S idx) nodes'
          ((totalChapters + 1)%Z,
           (totalArticles + zlen (childNodes chapterNode))%Z,
           fold_left countArticleImages (childNodes chapterNode) totalImages)
  end.

(** Level 3: one step per child node. *)
Definition flattenStep (acc : list SSStep.t * Converter)
           (stepNode : ContentNode.t) : list SSStep.t * Converter :=
  let '(steps, c) := acc in
  let '(content, c) := cleanHTML_c c (getNodeContent stepNode) in
  let step := SSStep.mk (ContentNode.ID stepNode) (ContentNode.Title stepNode)
                        (ContentNode.OrderIndex stepNode) content
                        (getNodeImages stepNode) in
  (steps ++ [step],
   withLogger c (fun l => Logger.set_processedImages l
      (Logger.processedImages l + zlen (getNodeImages stepNode))%Z)).

(** No level 3: the article's own content as a single step. *)
Definition synthesizeStep (c : Converter) (articleNode : ContentNode.t)
  : list SSStep.t * Converter :=
  let '(content, c) := cleanHTML_c c (getNodeContent articleNode) in
  let step := SSStep.mk (ContentNode.ID articleNode)
                        (ContentNode.Title articleNode)
                        0%Z content (getNodeImages articleNode) in
  ([] ++ [step],
   withLogger c (fun l => Logger.set_processedImages l
      (Logger.processedImages l + zlen (getNodeImages articleNode))%Z)).

(** Level 2: the body of the loop over [articleNodes]. *)
Definition flattenArticle (acc : list SSArticle.t * Z * Converter)
           (articleNode : ContentNode.t) : list SSArticle.t * Z * Converter :=
  let '(articles, position, c) := acc in
  let c := withLogger c (fun l => Logger.set_currentArticle l
                                    (Logger.currentArticle l + 1)%Z) in
  let thisPosition := position in
  let position := (position + 1)%Z in
  let '(steps, c) :=
    if negb (noChildren articleNode)
    then fold_left flattenStep (childNodes articleNode) ([], c)
    else synthesizeStep c articleNode in
  let article := SSArticle.mk (ContentNode.ID articleNode)
                              (ContentNode.Title articleNode)
                              thisPosition
                              (ContentNode.OrderIndex articleNode)
                              steps in
  (articles ++ [article], position,
   withLogger c (fun l => Logger.set_processedArticles l
                            (Logger.processedArticles l + 1)%Z)).

(** Level 1: the body of the second loop over the top-level nodes. *)
Definition flattenChapter (c : Converter) (chapterIdx : Z)
           (chapterNode : ContentNode.t) : SSChapter.t * Converter :=
  let c := withLogger c (fun l => Logger.set_currentChapter l chapterIdx) in
  let '(description, c) := cleanHTML_c c (getNodeContent chapterNode) in
  let '(articles, _, c) :=
    match ContentNode.Children chapterNode with
    | Some articleNodes => fold_left flattenArticle articleNodes ([], 1%Z, c)
    | None => ([], 1%Z, c)
    end in
  (SSChapter.mk (ContentNode.ID chapterNode) (ContentNode.Title chapterNode)
                (ContentNode.OrderIndex chapterNode) description articles,
   c).

Fixpoint flattenChapters (idx : nat) (nodes : list ContentNode.t)
         (chapters : list SSChapter.t) (chapterIdx : Z) (c : Converter)
  : list SSChapter.t * Converter :=
  match nodes with
  | [] => (chapters, c)
  | chapterNode :: nodes' =>
      if Nat.eqb idx 0 && noChildren chapterNode
      then flattenChapters (S idx) nodes' chapters chapterIdx c
      else
        let chapterIdx := (chapterIdx + 1)%Z in
        let '(chapter, c) := flattenChapter c chapterIdx chapterNode in
        flattenChapters (S idx) nodes' (chapters ++ [chapter]) chapterIdx c
  end.

Definition flattenStructure (c : Converter) (manual : Manual.t)
  : list SSChapter.t * Converter :=
  let '(totalChapters, totalArticles, totalImages) :=
    countTotals 0 (Manual.ContentNodes manual) (0, 0, 0)%Z in
  let c := withLogger c (fun l =>
    Logger.mk 1 totalChapters totalArticles totalImages 1 0 0 0 0) in
  flattenChapters 0 (Manual.ContentNodes manual) [] 0%Z c.

End Flattener.

(** ** The uploader: content blocks *)

(** A content block is a [map[string]interface{}] in the source; the
    three shapes it takes are the constructors, with the keys of each as
    fields. *)
Module Block.
Inductive t : Type :=
| StepContent (uuid title : gostring) (depth sort_order : Z)
              (content_block_ids : list gostring) (anchor_name : gostring)
              (auto_numbered foldable : bool)
| TextContent (uuid body : gostring) (depth sort_order : Z)
              (style : option gostring) (show_copy_clipboard : bool)
| ImageContentBlock (uuid asset_file_name : gostring)
                    (image_asset_id width height depth sort_order : Z)
                    (alt_tag url : gostring).

Definition uuid (b : t) : gostring :=
  match b with
  | StepContent u _ _ _ _ _ _ _ => u
  | TextContent u _ _ _ _ _ => u
  | ImageContentBlock u _ _ _ _ _ _ _ _ => u
  end.

Definition sort_order (b : t) : Z :=
  match b with
  | StepContent _ _ _ s _ _ _ _ => s
  | TextContent _ _ _ s _ _ => s
  | ImageContentBlock _ _ _ _ _ _ s _ _ => s
  end.

Definition depth (b : t) : Z :=
  match b with
  | StepContent _ _ d _ _ _ _ _ => d
  | TextContent _ _ d _ _ _ => d
  | ImageContentBlock _ _ _ _ _ d _ _ _ => d
  end.

(** The value under ["content_block_ids"]; only a StepContent block has
    the key. *)
Definition content_block_ids (b : t) : list gostring :=
  match b with
  | StepContent _ _ _ _ ids _ _ _ => ids
  | _ => []
  end.

Definition is_step (b : t) : bool :=
  match b with StepContent _ _ _ _ _ _ _ _ => true | _ => false end.

(** [b["content_block_ids"] = append(b["content_block_ids"].([]string), id)] *)
Definition append_id (id : gostring) (b : t) : t :=
  match b with
  | StepContent u ti d s ids a n f => StepContent u ti d s (ids ++ [id]) a n f
  | _ => b
  end.
End Block.

Module SkippedImage.
Record t : Type := mk
  { ImagePath : gostring; ChapterTitle : gostring; ArticleTitle : gostring;
    StepTitle : gostring }.
End SkippedImage.

(** The object under ["file"] in the answer to an image upload; a key
    that is absent or of another type is [None]. *)
Module FileData.
Record t : Type := mk
  { id : option Z; width : option Z; height : option Z; url : option gostring }.
End FileData.

Inductive UploadResult : Type :=
| UploadFailed
| Uploaded (file : option FileData.t).

(** [l[i] = f(l[i])] *)
Fixpoint update_at {A : Type} (i : nat) (f : A -> A) (l : list A) : list A :=
  match l, i with
  | [], _ => []
  | x :: l', O => f x :: l'
  | x :: l', S i' => x :: update_at i' f l'
  end.

(** [(?s)(<div class='html-embed'>.*?</div>|<div class='screensteps-styled-block'[^>]*>.*?</div>|<img[^>]+src='[^']+'[^>]*>)] *)
Definition blockRegex : regex :=
  Group 1 (Alt (Seq [Lit (qstr "<div class='html-embed'>");
                     Star false (Cls dot_s); Lit (str "</div>")])
          (Alt (Seq [Lit (qstr "<div class='screensteps-styled-block'");
                     notgt_star; Chr gt; Star false (Cls dot_s);
                     Lit (str "</div>")])
               (Seq [Lit (str "<img"); notgt_plus; Lit (qstr "src='");
                     notq_plus; Chr dq; notgt_star; Chr gt]))).

(** [<img[^>]+src='([^']+)'[^>]*>] *)
Definition imgTagRegex : regex :=
  Seq [Lit (str "<img"); notgt_plus; Lit (qstr "src='"); Group 1 notq_plus;
       Chr dq; notgt_star; Chr gt].

(** [<div class='screensteps-styled-block'[^>]*data-style='([^']+)'[^>]*>(.*?)</div>] *)
Definition styledBlockRegex : regex :=
  Seq [Lit (qstr "<div class='screensteps-styled-block'"); notgt_star;
       Lit (qstr "data-style='"); Group 1 notq_plus; Chr dq; notgt_star;
       Chr gt; Group 2 (Star false (Cls dot)); Lit (str "</div>")].

(** [[^a-z0-9-]+] *)
Definition slugPattern : regex :=
  Plus true (Cls (fun c => negb (((97 <=? c) && (c <=? 122)
                                  || (48 <=? c) && (c <=? 57)
                                  || (c =? 45))%N))).

Section Uploader.

Variable entity : gostring -> option rune.
Variable entity2 : gostring -> option (rune * rune).

(** Library functions that depend on the platform or on Unicode tables:
    [filepath.Join], [filepath.Base], [unicode.ToLower], [fmt.Sprintf("%d")]. *)
Variable filepath_Join : list gostring -> gostring.
Variable filepath_Base : gostring -> gostring.
Variable unicode_ToLower : rune -> rune.
Variable fmt_d : Z -> gostring.

(** The world the uploader talks to.  Every interaction is numbered; the
    first argument of an oracle is the number of the interaction.
    - [generateUUID]: the identifier drawn;
    - [api.CreateArticle]: the new article's identifier, [None] on error;
    - [os.Stat] on an image path: whether it returned no error;
    - [api.UploadImage]: its outcome, once it returns;
    - [api.UpdateArticleContents]: whether it returned no error. *)
Variable generateUUID : nat -> gostring.
Variable CreateArticle : nat -> gostring -> gostring -> gostring -> Z -> option Z.
Variable Stat : nat -> gostring -> bool.
Variable UploadImage : nat -> gostring -> gostring -> gostring -> UploadResult.
Variable UpdateArticleContents :
  nat -> gostring -> gostring -> gostring -> list Block.t -> bool -> bool.

Definition slugify (text : gostring) : gostring :=
  let text := map unicode_ToLower text in
  let text := map (fun c => if N.eqb c 32 then 45%N else c) text in
  ReplaceAllLiteral slugPattern text [].

(** What the run has accumulated: the variables of [UploadToScreenSteps]
    that outlive an article, the logger, the number of interactions so
    far, and the content submitted with [UpdateArticleContents]. *)
Record Run : Type := mkRun
  { skippedImages : list SkippedImage.t;
    uploadedImagesCount : Z;
    runLogger : Logger.t;
    clock : nat;
    submitted : list (Z * list Block.t) }.

Definition tick (r : Run) : Run :=
  mkRun (skippedImages r) (uploadedImagesCount r) (runLogger r) (S (clock r))
        (submitted r).

Definition skip (r : Run) (s : SkippedImage.t) : Run :=
  mkRun (skippedImages r ++ [s]) (uploadedImagesCount r) (runLogger r)
        (clock r) (submitted r).

Definition countUpload (r : Run) : Run :=
  mkRun (skippedImages r) (uploadedImagesCount r + 1)%Z (runLogger r)
        (clock r) (submitted r).

Definition submit (r : Run) (articleID : Z) (blocks : list Block.t) : Run :=
  mkRun (skippedImages r) (uploadedImagesCount r) (runLogger r) (clock r)
        (submitted r ++ [(articleID, blocks)]).

Definition withRunLogger (r : Run) (f : Logger.t -> Logger.t) : Run :=
  mkRun (skippedImages r) (uploadedImagesCount r) (f (runLogger r)) (clock r)
        (submitted r).

(** The variables of one article: [contentBlocks] and [sortOrder]. *)
Record Blocks : Type := mkBlocks
  { contentBlocks : list Block.t; sortOrder : Z }.

(** [contentBlocks = append(contentBlocks, block)], then the identifier
    is appended to [stepBlock["content_block_ids"]], then [sortOrder++].
    [stepBlock] is the map stored at offset [stepIdx] of [contentBlocks]:
    the update is seen through the slice. *)
Definition emit (stepIdx : nat) (block : Block.t) (bs : Blocks) : Blocks :=
  mkBlocks (update_at stepIdx (Block.append_id (Block.uuid block))
                      (contentBlocks bs ++ [block]))
           (sortOrder bs + 1)%Z.

Definition textBlock (uuid body : gostring) (sortOrder : Z)
           (style : option gostring) : Block.t :=
  Block.TextContent uuid body 1 sortOrder style false.

(** Text between two special blocks, or after the last one. *)
Definition emitPlainText (stepIdx : nat) (text : gostring)
           (bs : Blocks) (r : Run) : Blocks * Run :=
  if negb (gostring_eqb (Strings.TrimSpace (stripTags text)) [])
  then (emit stepIdx (textBlock (generateUUID (clock r)) text (sortOrder bs) None) bs,
        tick r)
  else (bs, r).

(** The image branch of the loop over [indexes].  [None] is a run-time
    panic (a failed type assertion on the upload's answer). *)
Definition processImage (siteID : gostring) (chapter : SSChapter.t)
           (article : SSArticle.t) (step : SSStep.t) (articleID : Z)
           (imagesDir : gostring) (stepIdx : nat) (blockHTML : gostring)
           (bs : Blocks) (r : Run) : option (Blocks * Run) :=
  match FindStringSubmatch imgTagRegex 1 blockHTML with
  | Some (_ :: srcAttr :: _) =>
      let src := Html.UnescapeString entity entity2 srcAttr in
      let srcPath := match Strings.Index src (str "?") with
                     | Some idx => firstn idx src
                     | None => src
                     end in
      let filename := filepath_Base srcPath in
      let imagePath := filepath_Join [imagesDir; filename] in
      let skipped := SkippedImage.mk imagePath (SSChapter.Title chapter)
                                     (SSArticle.Title article)
                                     (SSStep.Title step) in
      let statOK := Stat (clock r) imagePath in
      let r := tick r in
      if statOK then
        let answer := UploadImage (clock r) siteID (fmt_d articleID) imagePath in
        let r := tick r in
        match answer with
        | UploadFailed => Some (bs, skip r skipped)
        | Uploaded (Some fileData) =>
            match FileData.id fileData with
            | Some imageAssetID =>
                let imageUUID := generateUUID (clock r) in
                let r := tick r in
                match FileData.width fileData, FileData.height fileData,
                      FileData.url fileData with
                | Some w, Some h, Some u =>
                    Some (emit stepIdx
                               (Block.ImageContentBlock imageUUID filename
                                  imageAssetID w h 1 (sortOrder bs) [] u) bs,
                          countUpload r)
                | _, _, _ => None
                end
            | None => Some (bs, r)
            end
        | Uploaded None => Some (bs, r)
        end
      else Some (bs, skip r skipped)
  | _ => Some (bs, r)
  end.

(** The body of the loop over [indexes]; [lastIndex] is threaded. *)
Definition processMatch (siteID : gostring) (chapter : SSChapter.t)
           (article : SSArticle.t) (step : SSStep.t) (articleID : Z)
           (imagesDir : gostring) (stepIdx : nat)
           (acc : option (nat * Blocks * Run)) (matchIndexes : nat * nat)
  : option (nat * Blocks * Run) :=
  match acc with
  | None => None
  | Some (lastIndex, bs, r) =>
      let '(start, end_) := matchIndexes in
      let '(bs, r) := emitPlainText stepIdx (slice (SSStep.Content step) lastIndex start) bs r in
      let blockHTML := slice (SSStep.Content step) start end_ in
      let after :=
        if Strings.HasPrefix blockHTML (str "<img") then
          processImage siteID chapter article step articleID imagesDir stepIdx
                       blockHTML bs r
        else if Strings.HasPrefix blockHTML (qstr "<div class='html-embed'") then
          Some (emit stepIdx (textBlock (generateUUID (clock r)) blockHTML
                                        (sortOrder bs) (Some (str "html-embed"))) bs,
                tick r)
        else if Strings.HasPrefix blockHTML (qstr "<div class='screensteps-styled-block'") then
          match FindStringSubmatch styledBlockRegex 2 blockHTML with
          | Some (_ :: style :: innerBody :: _) =>
              Some (emit stepIdx (textBlock (generateUUID (clock r)) innerBody
                                            (sortOrder bs) (Some style)) bs,
                    tick r)
          | _ => Some (bs, r)
          end
        else Some (bs, r) in
      match after with
      | Some (bs, r) => Some (end_, bs, r)
      | None => None
      end
  end.

(** The body of the loop over [article.Steps]. *)
Definition processStep (siteID : gostring) (chapter : SSChapter.t)
           (article : SSArticle.t) (articleID : Z) (imagesDir : gostring)
           (acc : option (Blocks * Run)) (step : SSStep.t)
  : option (Blocks * Run) :=
  match acc with
  | None => None
  | Some (bs, r) =>
      let stepUUID := generateUUID (clock r) in
      let r := tick r in
      let stepBlock :=
        Block.StepContent stepUUID (SSStep.Title step) 0 (sortOrder bs) []
                          (slugify (SSStep.Title step)) false false in
      let stepIdx := List.length (contentBlocks bs) in
      let bs := mkBlocks (contentBlocks bs ++ [stepBlock]) (sortOrder bs + 1)%Z in
      let indexes := FindAllStringIndex blockRegex (SSStep.Content step) in
      match fold_left (processMatch siteID chapter article step articleID
                                    imagesDir stepIdx)
                      indexes (Some (0, bs, r)) with
      | None => None
      | Some (lastIndex, bs, r) =>
          Some (emitPlainText stepIdx
                  (skipn lastIndex (SSStep.Content step)) bs r)
      end
  end.

(** The content blocks generated from the steps of one article. *)
Definition articleBlocks (siteID : gostring) (chapter : SSChapter.t)
           (article : SSArticle.t) (articleID : Z) (imagesDir : gostring)
           (r : Run) : option (Blocks * Run) :=
  fold_left (processStep siteID chapter article articleID imagesDir)
            (SSArticle.Steps article) (Some (mkBlocks [] 1%Z, r)).

(** The body of the loop over [chapter.Articles]. *)
Definition uploadArticle (contentDir siteID : gostring) (chapterID : Z)
           (chapter : SSChapter.t) (acc : option Run) (article : SSArticle.t)
  : option Run :=
  match acc with
  | None => None
  | Some r =>
      let r := withRunLogger r (fun l => Logger.set_currentArticle l
                                           (Logger.currentArticle l + 1)%Z) in
      let created := CreateArticle (clock r) siteID (fmt_d chapterID)
                                   (SSArticle.Title article)
                                   (SSArticle.Position article) in
      let r := tick r in
      match created with
      | None => Some r
      | Some articleID =>
          let imagesDir :=
            filepath_Join [contentDir; str "images"; SSArticle.ID article] in
          match articleBlocks siteID chapter article articleID imagesDir r with
          | None => None
          | Some (bs, r) =>
              let _ := UpdateArticleContents (clock r) siteID (fmt_d articleID)
                         (SSArticle.Title article) (contentBlocks bs) true in
              let r := tick (submit r articleID (contentBlocks bs)) in
              let r := withRunLogger r (fun l => Logger.set_processedArticles l
                                         (Logger.processedArticles l + 1)%Z) in
              Some (fold_left
                      (fun r step => withRunLogger r (fun l =>
                         Logger.set_processedImages l
                           (Logger.processedImages l + zlen (SSStep.Images step))%Z))
                      (SSArticle.Steps article) r)
          end
      end
  end.

(** Step 3 of [UploadToScreenSteps]: the loop over the chapters.
    [chapterMap] is the map built from the answer to the creation of the
    manual; a chapter without an entry reads as 0. *)
Fixpoint uploadChapters (contentDir siteID : gostring)
         (chapterMap : gostring -> Z) (chapterIdx : Z)
         (chapters : list SSChapter.t) (acc : option Run) : option Run :=
  match chapters with
  | [] => acc
  | chapter :: chapters' =>
      let acc := option_map (fun r => withRunLogger r (fun l =>
                    Logger.set_currentChapter l (chapterIdx + 1)%Z)) acc in
      let chapterID := chapterMap (SSChapter.ID chapter) in
      uploadChapters contentDir siteID chapterMap (chapterIdx + 1)%Z chapters'
        (fold_left (uploadArticle contentDir siteID chapterID chapter)
                   (SSChapter.Articles chapter) acc)
  end.

(** *** The summary of skipped images *)

(** [m[key] = append(m[key], v)] on a map kept in insertion order. *)
Fixpoint appendTo {V : Type} (key : gostring) (v : V)
         (m : list (gostring * list V)) : list (gostring * list V) :=
  match m with
  | [] => [(key, [v])]
  | (k, vs) :: m' =>
      if gostring_eqb k key then (k, vs ++ [v]) :: m'
      else (k, vs) :: appendTo key v m'
  end.

Definition groupBy {V : Type} (key : V -> gostring) (l : list V)
  : list (gostring * list V) :=
  fold_left (fun m v => appendTo (key v) v m) l [].

(** [mapRange m] is the order in which a [range] loop visits the entries
    of the map [m]. *)
Variable mapRange : forall V : Type, list (gostring * V) -> list (gostring * V).

Inductive LogLine : Type :=
| LogHeader (message : gostring)
| LogInfo (message : gostring)
| LogWarning (message : gostring)
| LogSubstep (message : gostring)
| Println.

(** The skipped images, grouped by chapter and by article within the
    chapter, in the order in which the loops visit them. *)
Definition visitSkipped (skipped : list SkippedImage.t)
  : list (gostring * list (gostring * list SkippedImage.t)) :=
  map (fun ce => (fst ce,
                  mapRange _ (groupBy SkippedImage.ArticleTitle (snd ce))))
      (mapRange _ (groupBy SkippedImage.ChapterTitle skipped)).

Definition imageLines (img : SkippedImage.t) : list LogLine :=
  [LogSubstep (str "    Step: " ++ SkippedImage.StepTitle img);
   LogSubstep (str "      Image: " ++ filepath_Base (SkippedImage.ImagePath img))].

Definition articleLines (ae : gostring * list SkippedImage.t) : list LogLine :=
  LogSubstep (str "  Article: " ++ fst ae) :: flat_map imageLines (snd ae).

Definition chapterLines (ce : gostring * list (gostring * list SkippedImage.t))
  : list LogLine :=
  LogInfo (str "Chapter: " ++ fst ce) :: flat_map articleLines (snd ce)
  ++ [Println].

(** What the end of [UploadToScreenSteps] prints about skipped images. *)
Definition skippedSummary (skipped : list SkippedImage.t) : list LogLine :=
  match skipped with
  | [] => []
  | _ :: _ =>
      [LogHeader (str "Skipped Images Summary");
       LogWarning (str "Total images skipped: " ++ fmt_d (zlen skipped));
       LogInfo (str "Images were replaced with alert: ERROR IMPORTING IMAGE - PLEASE RE-CREATE SCREENSHOT");
       Println]
      ++ flat_map chapterLines (visitSkipped skipped)
  end.

End Uploader.

(** ** Helper functions of [main.go] *)

(** [strings.Split(s, sep)] for a separator of one rune: the pieces
    between the separators, one more than there are separators. *)
Fixpoint Split (s : gostring) (sep : rune) : list gostring :=
  match s with
  | [] => [[]]
  | c :: t =>
      if N.eqb c sep then [] :: Split t sep
      else match Split t sep with
           | piece :: pieces => (c :: piece) :: pieces
           | [] => [[c]]
           end
  end.

(** The number of bytes of a rune in UTF-8 ([utf8.RuneLen] on the runes
    of a valid string), and [len(s)]. *)
Definition RuneLen (c : rune) : nat :=
  if (c <? 128)%N then 1
  else if (c <? 2048)%N then 2
  else if (c <? 65536)%N then 3
  else 4.

Definition len (s : gostring) : Z :=
  Z.of_nat (fold_right (fun c n => RuneLen c + n) 0 s).

(** [strings.Repeat(" ", n)] for [n >= 0]. *)
Definition spaces (n : Z) : gostring := repeat 32%N (Z.to_nat n).

(** [center]. *)
Definition center (s : gostring) (width : Z) : gostring :=
  if (len s >=? width)%Z then s
  else
    let padding := Z.quot (width - len s) 2 in
    spaces padding ++ s.

(** [\s+] *)
Definition wsRun : regex := Plus true (Cls perl_space).

(** The bytes of a rune in UTF-8. *)
Definition utf8 (c : rune) : list N :=
  if (c <? 128)%N then [c]
  else if (c <? 2048)%N then [192 + c / 64; 128 + c mod 64]%N
  else if (c <? 65536)%N
       then [224 + c / 4096; 128 + (c / 64) mod 64; 128 + c mod 64]%N
       else [240 + c / 262144; 128 + (c / 4096) mod 64;
             128 + (c / 64) mod 64; 128 + c mod 64]%N.

Definition bytes (s : gostring) : list N := flat_map utf8 s.

(** [extractDescription].  The result is a string cut at a byte offset,
    which need not be a rune boundary: it is given by its bytes.  [None]
    is the run-time panic of [text[:maxLength]] for a negative
    [maxLength]. *)
Definition extractDescription (htmlContent : gostring) (maxLength : Z)
  : option (list N) :=
  match htmlContent with
  | [] => Some []
  | _ =>
      let text := ReplaceAllLiteral tagPattern htmlContent [] in
      let text := ReplaceAllLiteral wsRun text (str " ") in
      let text := Strings.TrimSpace text in
      if (Z.of_nat (List.length (bytes text)) >? maxLength)%Z
      then if (maxLength <? 0)%Z then None
           else Some (firstn (Z.to_nat maxLength) (bytes text) ++ str "...")
      else Some (bytes text)
  end.

(** [<img[^>]*>] *)
Definition imgPattern : regex := Seq [Lit (str "<img"); notgt_star; Chr gt].

Definition removeImagesFromHTML (htmlContent : gostring) : gostring :=
  ReplaceAllLiteral imgPattern htmlContent [].

(** [(?s)<div class='html-embed'>.*?</div>] *)
Definition embedPattern : regex :=
  Seq [Lit (qstr "<div class='html-embed'>"); Star false (Cls dot_s);
       Lit (str "</div>")].

Definition extractYouTubeEmbeds (htmlContent : gostring) : list gostring :=
  match htmlContent with
  | [] => []
  | _ => FindAllString embedPattern htmlContent
  end.

Definition removeYouTubeEmbedsFromHTML (htmlContent : gostring) : gostring :=
  match htmlContent with
  | [] => []
  | _ => ReplaceAllLiteral embedPattern htmlContent []
  end.

(** [(?s)<div class='screensteps-styled-block' data-style='([^']+)'>(.*?)</div>] *)
Definition styledExtractPattern : regex :=
  Seq [Lit (qstr "<div class='screensteps-styled-block' data-style='");
       Group 1 notq_plus; Lit (qstr "'>"); Group 2 (Star false (Cls dot_s));
       Lit (str "</div>")].

(** A styled block found in a text: the values under ["style"] and
    ["html"]. *)
Record StyledBlock : Type := mkStyledBlock
  { sb_style : gostring; sb_html : gostring }.

Definition extractStyledBlocksFromHTML (htmlContent : gostring)
  : list StyledBlock :=
  match htmlContent with
  | [] => []
  | _ =>
      flat_map (fun mt => match mt with
                          | [_; style; html] => [mkStyledBlock style html]
                          | _ => []
                          end)
               (FindAllStringSubmatch styledExtractPattern 2 htmlContent)
  end.

(** [(?s)<div class='screensteps-styled-block'[^>]*>.*?</div>] *)
Definition styledRemovePattern : regex :=
  Seq [Lit (qstr "<div class='screensteps-styled-block'"); notgt_star; Chr gt;
       Star false (Cls dot_s); Lit (str "</div>")].

Definition removeStyledBlocksFromHTML (htmlContent : gostring) : gostring :=
  match htmlContent with
  | [] => []
  | _ => ReplaceAllLiteral styledRemovePattern htmlContent []
  end.

Definition detectStyleFromHTML (htmlContent : gostring) : gostring :=
  if Strings.Contains htmlContent (str "block-style-introduction")
  then str "introduction"
  else if Strings.Contains htmlContent (str "block-style-tip") then str "tip"
  else if Strings.Contains htmlContent (str "block-style-note") then str "note"
  else if Strings.Contains htmlContent (str "block-style-warning")
       then str "warning"
       else [].

(** [<div class='block-style-[^']*'>(.*?)</div>] *)
Definition styleDivPattern : regex :=
  Seq [Lit (qstr "<div class='block-style-"); notq_star; Lit (qstr "'>");
       Group 1 (Star false (Cls dot)); Lit (str "</div>")].

Definition removeStyleDivs (htmlContent : gostring) : gostring :=
  ReplaceAllGroup1 styleDivPattern htmlContent.

(** [<h[1-6][^>]*>(.*?)</h[1-6]>] *)
Definition level16 (c : rune) : bool := ((49 <=? c) && (c <=? 54))%N.

Definition headerPattern : regex :=
  Seq [Lit (str "<h"); Cls level16; notgt_star; Chr gt;
       Group 1 (Star false (Cls dot)); Lit (str "</h"); Cls level16; Chr gt].

(** The maps built by [HTMLToContentBlocks]: the keys are [uuid], [type],
    [body] or [title], [depth] and [sort_order]. *)
Module SimpleBlock.
Inductive t : Type :=
| TextContent (uuid body : gostring) (depth sort_order : Z)
| StepContent (uuid title : gostring) (depth sort_order : Z).

Definition uuid (b : t) : gostring :=
  match b with TextContent u _ _ _ | StepContent u _ _ _ => u end.
Definition depth (b : t) : Z :=
  match b with TextContent _ _ d _ | StepContent _ _ d _ => d end.
Definition sort_order (b : t) : Z :=
  match b with TextContent _ _ _ s | StepContent _ _ _ s => s end.
End SimpleBlock.

Section Helpers.

Variable entity : gostring -> option rune.
Variable entity2 : gostring -> option (rune * rune).
Variable filepath_Base : gostring -> gostring.
Variable fmt_d : Z -> gostring.

(** An image found in a text: the values under ["src"], ["filename"] and
    ["alt"]. *)
Record ImageRef : Type := mkImageRef
  { ir_src : gostring; ir_filename : gostring; ir_alt : gostring }.

Definition extractImagesFromHTML (htmlContent : gostring) : list ImageRef :=
  flat_map (fun mt =>
              match mt with
              | _ :: srcAttr :: _ =>
                  let src := Html.UnescapeString entity entity2 srcAttr in
                  let srcPath := match Strings.Index src (str "?") with
                                 | Some idx => firstn idx src
                                 | None => src
                                 end in
                  [mkImageRef src (filepath_Base srcPath) []]
              | _ => []
              end)
           (FindAllStringSubmatch imgTagRegex 1 htmlContent).

(** The variables of [HTMLToContentBlocks]. *)
Record Scan : Type := mkScan
  { scanBlocks : list SimpleBlock.t; scanOrder : Z; currentText : gostring }.

Definition uuidOf (sortOrder : Z) : gostring := str "uuid-" ++ fmt_d sortOrder.

(** The accumulated text, if any, becomes a TextContent block. *)
Definition flushText (st : Scan) : Scan :=
  match currentText st with
  | [] => st
  | _ =>
      mkScan (scanBlocks st
              ++ [SimpleBlock.TextContent (uuidOf (scanOrder st))
                                          (currentText st) 1 (scanOrder st)])
             (scanOrder st + 1)%Z []
  end.

(** The body of the loop over the lines. *)
Definition scanLine (st : Scan) (line : gostring) : Scan :=
  let line := Strings.TrimSpace line in
  match line with
  | [] => st
  | _ =>
      if Strings.HasPrefix line (str "<h") && Strings.Contains line (str ">")
      then
        let st := flushText st in
        match FindStringSubmatch headerPattern 1 line with
        | Some (_ :: title :: _) =>
            mkScan (scanBlocks st
                    ++ [SimpleBlock.StepContent
                          (uuidOf (scanOrder st))
                          (Html.UnescapeString entity entity2 title)
                          0 (scanOrder st)])
                   (scanOrder st + 1)%Z (currentText st)
        | _ => st
        end
      else
        mkScan (scanBlocks st) (scanOrder st)
               ((match currentText st with
                 | [] => []
                 | _ => currentText st ++ [10%N]
                 end) ++ line)
  end.

Definition HTMLToContentBlocks (htmlContent : gostring)
  : list SimpleBlock.t :=
  let st := fold_left scanLine (Split htmlContent 10%N) (mkScan [] 1%Z []) in
  match currentText st with
  | [] => scanBlocks st
  | _ =>
      scanBlocks st
      ++ [SimpleBlock.TextContent (uuidOf (scanOrder st)) (currentText st) 1
                                  (scanOrder st)]
  end.

End Helpers.

(** ** The API client: [request] *)

Module Http.
(** What the program reads of an [http.Response]: the status code and
    the body. *)
Record Response : Type := mkResponse { StatusCode : Z; Body : gostring }.

(** The two results of [client.Do]. *)
Inductive DoResult : Type :=
| DoError (err : gostring)
| DoResponse (resp : Response).
End Http.

(** The arithmetic of [int64] wraps around. *)
Definition wrap64 (z : Z) : Z :=
  ((z + 9223372036854775808) mod 18446744073709551616 - 9223372036854775808)%Z.

(** [time.Second] and [time.Millisecond]: a [time.Duration] counts
    nanoseconds. *)
Definition Second : Z := 1000000000.
Definition Millisecond : Z := 1000000.

Module Api.

(** What [request] changes outside the program: the number of calls of
    [client.Do] made so far, and the durations passed to [time.Sleep], in
    order.  The lines written to the log are left out. *)
Record World : Type := mkWorld { calls : nat; sleeps : list Z }.

Definition sleep (d : Z) (w : World) : World :=
  mkWorld (calls w) (sleeps w ++ [d]).

Definition called (w : World) : World := mkWorld (S (calls w)) (sleeps w).

(** The errors [request] returns: the one of [json.Marshal], the one of
    [http.NewRequest], the one of [client.Do], and the one made of the
    status code and the body of the response. *)
Inductive Error : Type :=
| MarshalError
| NewRequestError
| TransportError (err : gostring)
| StatusError (StatusCode : Z) (body : gostring).

Section Request.

(** The type of the values passed as [body], and the library functions
    and the server the client depends on:
    - [json.Marshal], [None] on error;
    - [http.NewRequest], whether it returned no error;
    - [client.Do]: the first argument is the number of the call;
    - the value of [errResp.RetryIn] after the body of a response has
      been decoded into [errResp], the error of the decoding being
      ignored: [0] when the body gives no value. *)
Variable Body : Type.
Variable json_Marshal : Body -> option gostring.
Variable http_NewRequest : gostring -> gostring -> bool.
Variable Do : nat -> gostring -> gostring -> option gostring -> Http.DoResult.
Variable decodeRetryIn : gostring -> Z.

Variable baseURL : gostring.

(** The [for] loop of [request].  [None]: the loop is still running
    after [fuel] iterations. *)
Fixpoint requestLoop (fuel : nat) (method url : gostring)
         (jsonData : option gostring) (w : World)
  : option ((Http.Response + Error) * World) :=
  match fuel with
  | O => None
  | S fuel' =>
      if negb (http_NewRequest method url) then Some (inr NewRequestError, w)
      else
        match Do (calls w) method url jsonData with
        | Http.DoError err => Some (inr (TransportError err), called w)
        | Http.DoResponse resp =>
            let w := called w in
            if ((Http.StatusCode resp =? 200) || (Http.StatusCode resp =? 201))%Z
            then Some (inl resp, sleep (1250 * Millisecond) w)
            else if (Http.StatusCode resp =? 429)%Z then
              let retryIn := decodeRetryIn (Http.Body resp) in
              let retryIn := if (retryIn =? 0)%Z then 60%Z else retryIn in
              let w := sleep (wrap64 (retryIn * Second)) w in
              let w := sleep (1250 * Millisecond) w in
              requestLoop fuel' method url jsonData w
            else Some (inr (StatusError (Http.StatusCode resp)
                                        (Http.Body resp)),
                       w)
        end
  end.

(** [request]; [body] is [None] for [nil]. *)
Definition request (fuel : nat) (method endpoint : gostring)
           (body : option Body) (w : World)
  : option ((Http.Response + Error) * World) :=
  let url := baseURL ++ str "/" ++ endpoint in
  match body with
  | Some b =>
      match json_Marshal b with
      | None => Some (inr MarshalError, w)
      | Some jsonData => requestLoop fuel method url (Some jsonData) w
      end
  | None => requestLoop fuel method url None w
  end.

End Request.

End Api.
(** * Specifications *)

(** ** The structure flattener *)

Section FlattenerSpec.

Variable entity : gostring -> option rune.
Variable entity2 : gostring -> option (rune * rune).
Variable mapOrder : nat -> list (gostring * gostring).

Definition cleaned (n : nat) (s : gostring) : gostring :=
  cleanHTML entity entity2 (mapOrder n) s.

(** A step made from a level-3 node. *)
Definition step_from (node : ContentNode.t) (s : SSStep.t) : Prop :=
  exists n, s = SSStep.mk (ContentNode.ID node) (ContentNode.Title node)
                          (ContentNode.OrderIndex node)
                          (cleaned n (getNodeContent node))
                          (getNodeImages node).

(** The step made from an article node that has no level-3 node. *)
Definition synthetic_step (node : ContentNode.t) (s : SSStep.t) : Prop :=
  exists n, s = SSStep.mk (ContentNode.ID node) (ContentNode.Title node) 0%Z
                          (cleaned n (getNodeContent node))
                          (getNodeImages node).

Definition steps_from (node : ContentNode.t) (steps : list SSStep.t) : Prop :=
  if noChildren node
  then exists s, steps = [s] /\ synthetic_step node s
  else Forall2 step_from (childNodes node) steps.

Definition article_from (node : ContentNode.t) (position : Z)
           (a : SSArticle.t) : Prop :=
  SSArticle.ID a = ContentNode.ID node
  /\ SSArticle.Title a = ContentNode.Title node
  /\ SSArticle.Position a = position
  /\ SSArticle.VLPOrder a = ContentNode.OrderIndex node
  /\ steps_from node (SSArticle.Steps a).

(** The articles made from consecutive nodes, the first at [position]. *)
Inductive articles_from : Z -> list ContentNode.t -> list SSArticle.t -> Prop :=
| articles_nil : forall p, articles_from p [] []
| articles_cons : forall p node nodes a arts,
    article_from node p a ->
    articles_from (p + 1)%Z nodes arts ->
    articles_from p (node :: nodes) (a :: arts).

Definition chapter_from (node : ContentNode.t) (ch : SSChapter.t) : Prop :=
  SSChapter.ID ch = ContentNode.ID node
  /\ SSChapter.Title ch = ContentNode.Title node
  /\ SSChapter.Order ch = ContentNode.OrderIndex node
  /\ articles_from 1%Z (childNodes node) (SSChapter.Articles ch).

(** The top-level nodes that become chapters. *)
Definition chapterNodes (manual : Manual.t) : list ContentNode.t :=
  match Manual.ContentNodes manual with
  | first :: others => if noChildren first then others
                       else first :: others
  | [] => []
  end.

End FlattenerSpec.

(** The positions, and the preserved source orders, of the articles of
    each chapter. *)
Definition positions (chapters : list SSChapter.t) : list (list Z) :=
  map (fun ch => map SSArticle.Position (SSChapter.Articles ch)) chapters.

Definition vlpOrders (chapters : list SSChapter.t) : list (list Z) :=
  map (fun ch => map SSArticle.VLPOrder (SSChapter.Articles ch)) chapters.

(** A manual whose article nodes carry other order indexes: the order
    index of every level-2 node [n] becomes [f n]. *)
Definition setOrderIndex (f : ContentNode.t -> Z) (node : ContentNode.t)
  : ContentNode.t :=
  ContentNode.mk (ContentNode.ID node) (ContentNode.Title node) (f node)
                 (ContentNode.Children node) (ContentNode.Localizations node).

Definition reorderArticles (f : ContentNode.t -> Z) (chapterNode : ContentNode.t)
  : ContentNode.t :=
  ContentNode.mk (ContentNode.ID chapterNode) (ContentNode.Title chapterNode)
                 (ContentNode.OrderIndex chapterNode)
                 (option_map (map (setOrderIndex f))
                             (ContentNode.Children chapterNode))
                 (ContentNode.Localizations chapterNode).

Definition reorderManual (f : ContentNode.t -> Z) (manual : Manual.t) : Manual.t :=
  Manual.mk (Manual.ID manual) (Manual.Name manual)
            (Manual.DefaultLanguageCode manual) (Manual.DataFormat manual)
            (map (reorderArticles f) (Manual.ContentNodes manual)).

(** ** The content-block segmenter *)

(** Sort orders 1, 2, ..., n in list order. *)
Definition contiguous_from_1 (blocks : list Block.t) : Prop :=
  map Block.sort_order blocks = map Z.of_nat (seq 1 (List.length blocks)).

(** Every identifier in a child-identifier list is the identifier of a
    block at the same offset of the list or before it. *)
Definition refs_not_later (blocks : list Block.t) : Prop :=
  forall i b id,
    nth_error blocks i = Some b -> In id (Block.content_block_ids b) ->
    exists j b', j <= i /\ nth_error blocks j = Some b' /\ Block.uuid b' = id.

(** Every identifier in a child-identifier list is the identifier of a
    block further down the list, which is not a StepContent block. *)
Definition refs_later (blocks : list Block.t) : Prop :=
  forall i b id,
    nth_error blocks i = Some b -> In id (Block.content_block_ids b) ->
    exists j b', i < j /\ nth_error blocks j = Some b'
                 /\ Block.uuid b' = id /\ Block.is_step b' = false.

(** [bs'] is [bs] after some more blocks were emitted under the step
    block at offset [stepIdx], each with the current sort order. *)
Inductive emitted (stepIdx : nat) : Blocks -> Blocks -> Prop :=
| emitted_none : forall bs, emitted stepIdx bs bs
| emitted_more : forall bs block bs',
    Block.sort_order block = sortOrder bs ->
    Block.is_step block = false ->
    emitted stepIdx (emit stepIdx block bs) bs' ->
    emitted stepIdx bs bs'.

(** The invariant of the loop over the steps of an article. *)
Definition blocks_ok (bs : Blocks) : Prop :=
  contiguous_from_1 (contentBlocks bs)
  /\ sortOrder bs = Z.of_nat (S (List.length (contentBlocks bs)))
  /\ refs_later (contentBlocks bs).


(** The path at which the uploader looks for the image of an [img] tag
    whose [src] attribute is [srcAttr]. *)
Definition imagePathOf (entity : gostring -> option rune)
           (entity2 : gostring -> option (rune * rune))
           (filepath_Join : list gostring -> gostring)
           (filepath_Base : gostring -> gostring)
           (imagesDir srcAttr : gostring) : gostring :=
  let src := Html.UnescapeString entity entity2 srcAttr in
  let srcPath := match Strings.Index src (str "?") with
                 | Some idx => firstn idx src
                 | None => src
                 end in
  filepath_Join [imagesDir; filepath_Base srcPath].


(** ** A concrete world, for the examples

    A small table of character references, Unix paths without cleaning,
    ASCII lower-casing, identifiers numbered in the order they are drawn,
    and a server that accepts every article. *)
Module Example.

Definition entity (name : gostring) : option rune :=
  if gostring_eqb name (str "amp;") || gostring_eqb name (str "amp") then Some 38%N
  else if gostring_eqb name (str "lt;") || gostring_eqb name (str "lt") then Some 60%N
  else if gostring_eqb name (str "gt;") || gostring_eqb name (str "gt") then Some 62%N
  else if gostring_eqb name (str "quot;") || gostring_eqb name (str "quot") then Some 34%N
  else if gostring_eqb name (str "nbsp;") || gostring_eqb name (str "nbsp") then Some 160%N
  else None.

Definition entity2 (name : gostring) : option (rune * rune) := None.

Definition slash : rune := 47%N.

Fixpoint join (parts : list gostring) : gostring :=
  match parts with
  | [] => []
  | [p] => p
  | p :: ps => p ++ [slash] ++ join ps
  end.

Fixpoint base_aux (cur : gostring) (s : gostring) : gostring :=
  match s with
  | [] => rev cur
  | c :: s' => if N.eqb c slash then base_aux [] s' else base_aux (c :: cur) s'
  end.

Definition base (path : gostring) : gostring := base_aux [] path.

Definition toLower (c : rune) : rune :=
  if ((65 <=? c) && (c <=? 90))%N then (c + 32)%N else c.

Definition fmt_d (z : Z) : gostring :=
  str (NilZero.string_of_int (Z.to_int z)).

Definition generateUUID (n : nat) : gostring :=
  str "uuid-" ++ fmt_d (Z.of_nat n).

Definition CreateArticle (n : nat) (siteID chapterID title : gostring)
           (position : Z) : option Z := Some 7%Z.

Definition UpdateArticleContents (n : nat) (siteID articleID title : gostring)
           (blocks : list Block.t) (publish : bool) : bool := true.

(** No image is on disk. *)
Definition StatMissing (n : nat) (path : gostring) : bool := false.
(** Every image is on disk; the server refuses every image. *)
Definition StatPresent (n : nat) (path : gostring) : bool := true.
Definition UploadRefused (n : nat) (siteID articleID path : gostring)
  : UploadResult := UploadFailed.
(** The server accepts every image. *)
Definition UploadAccepted (n : nat) (siteID articleID path : gostring)
  : UploadResult :=
  Uploaded (Some (FileData.mk (Some 42%Z) (Some 640%Z) (Some 480%Z)
                              (Some (str "https://cdn.example/img")))).

Definition mapRange (V : Type) (m : list (gostring * V)) : list (gostring * V) :=
  rev m.

Definition chapter : SSChapter.t :=
  SSChapter.mk (str "ch1") (str "Chapter One") 1%Z [] [].

(** One step whose content is a line of text, an image and more text. *)
Definition step : SSStep.t :=
  SSStep.mk (str "s1") (str "First Step") 0%Z
            (qstr "<p>Open the console.</p><img src='shot.png?v=2'><p>Done.</p>")
            [].

Definition article : SSArticle.t :=
  SSArticle.mk (str "a1") (str "Article One") 1%Z 5%Z [step].

Definition run0 : Run :=
  mkRun [] 0%Z (Logger.mk 1 1 1 0 1 0 0 0 0) 0 [].

Definition imagesDir : gostring := str "out/images/a1".

(** A manual with one chapter and one article; the article has no step
    node and its content is one paragraph that carries the two style
    classes [c10] and [c48]. *)
Definition twoClassContent : gostring := qstr "<p class='c10 c48'>Note</p>".

Definition twoClassArticle : ContentNode.t :=
  ContentNode.mk (str "n2") (str "Article") 0%Z None
    (Some (LocaleContent.mk (str "l2") (str "Article") (str "en")
                            twoClassContent None)).

Definition twoClassManual : Manual.t :=
  Manual.mk (str "m1") (str "Manual") (str "en") (str "1")
    [ContentNode.mk (str "n1") (str "Chapter") 0%Z (Some [twoClassArticle]) None].

(** Two orders in which a run may visit [pClassToStyleMap]. *)
Definition orderA : list (gostring * gostring) :=
  [(str "c10", str "introduction"); (str "c44", str "introduction");
   (str "c48", str "info")].

Definition orderB : list (gostring * gostring) :=
  [(str "c48", str "info"); (str "c10", str "introduction");
   (str "c44", str "introduction")].

Definition converter0 : Converter :=
  mkConverter (Logger.mk 0 0 0 0 0 0 0 0 0) 0.

(** The content of the only step of the converted manual. *)
Definition stepContents (chapters : list SSChapter.t) : list gostring :=
  flat_map (fun ch => flat_map (fun a => map SSStep.Content (SSArticle.Steps a))
                               (SSChapter.Articles ch)) chapters.

(** The blocks of the article when every image is uploaded, and when no
    image is on disk. *)
Definition uploadAccepted : option (Blocks * Run) :=
  articleBlocks entity entity2 join base toLower fmt_d generateUUID
                StatPresent UploadAccepted (str "site") chapter article 7%Z
                imagesDir run0.

Definition uploadMissing : option (Blocks * Run) :=
  articleBlocks entity entity2 join base toLower fmt_d generateUUID
                StatMissing UploadRefused (str "site") chapter article 7%Z
                imagesDir run0.

Definition blocksAccepted : Blocks :=
  Eval vm_compute in
    match uploadAccepted with Some (bs, _) => bs | None => mkBlocks [] 0%Z end.

Definition runAccepted : Run :=
  Eval vm_compute in
    match uploadAccepted with Some (_, r) => r | None => run0 end.

Definition blocksMissing : Blocks :=
  Eval vm_compute in
    match uploadMissing with Some (bs, _) => bs | None => mkBlocks [] 0%Z end.

Definition runMissing : Run :=
  Eval vm_compute in
    match uploadMissing with Some (_, r) => r | None => run0 end.

End Example.

(** ** The HTML rewriter: the shapes of input the patterns recognise *)

(** The rune before the current offset, after reading [l]. *)
Fixpoint last_rune (l : gostring) (d : option rune) : option rune :=
  match l with
  | [] => d
  | c :: l' => last_rune l' (Some c)
  end.

(** The first occurrence of [lit] in [pre ++ lit] is the final one:
    [pre] holds no occurrence of [lit], nor the beginning of one that
    [lit] would complete. *)
Definition firstAt (lit pre : gostring) : bool :=
  match Strings.Index (pre ++ lit) lit with
  | Some n => Nat.eqb n (List.length pre)
  | None => false
  end.












(** *** Paragraphs of a style class *)









(** ** Entity decoding: texts that hold single- and double-encoded
    references *)








Section EncodedEntities.

Variable entity : gostring -> option rune.








End EncodedEntities.

(** ** Vocabulary of the properties of the matcher *)

(** Text after which a greedy class repetition cannot go on. *)
Definition stops (P : rune -> bool) (t : gostring) : Prop :=
  match t with
  | [] => True
  | c :: _ => P c = false
  end.

Definition suffix_of (s' s : gostring) : Prop := exists s1, s = s1 ++ s'.

(** [requires l r]: the pattern [r] cannot match in a text that does not
    hold the literal [l]. *)
Definition requires (l : gostring) (r : regex) : Prop :=
  forall k st, Strings.Contains (rest st) l = false -> m r k st = None.


(** ** Vocabulary of the properties of the helper functions *)

(** The text [s] with every maximal run of runes of the class [P]
    replaced by [new]; [inrun] tells that the rune before [s] belongs to
    a run. *)
Fixpoint collapse (P : rune -> bool) (new : gostring) (inrun : bool)
         (s : gostring) : gostring :=
  match s with
  | [] => []
  | c :: t =>
      if P c
      then (if inrun then [] else new) ++ collapse P new true t
      else c :: collapse P new false t
  end.

(** The runes a slug is made of: [a-z0-9-]. *)
Definition slugRune (c : rune) : bool :=
  ((97 <=? c) && (c <=? 122) || (48 <=? c) && (c <=? 57) || (c =? 45))%N.

(** The shape of a block of [HTMLToContentBlocks]: the identifier is made
    from the sort order; a text block lies at depth 1 and has a body; a
    step block lies at depth 0. *)
Definition simpleBlockShape (fmt_d : Z -> gostring) (b : SimpleBlock.t) : Prop :=
  SimpleBlock.uuid b = str "uuid-" ++ fmt_d (SimpleBlock.sort_order b)
  /\ match b with
     | SimpleBlock.TextContent _ body d _ => d = 1%Z /\ body <> []
     | SimpleBlock.StepContent _ _ d _ => d = 0%Z
     end.

(** The invariant of the loop over the lines. *)
Definition scan_ok (fmt_d : Z -> gostring) (st : Scan) : Prop :=
  map SimpleBlock.sort_order (scanBlocks st)
  = map Z.of_nat (seq 1 (List.length (scanBlocks st)))
  /\ scanOrder st = Z.of_nat (S (List.length (scanBlocks st)))
  /\ Forall (simpleBlockShape fmt_d) (scanBlocks st).

(** The lines of a text that hold something, trimmed. *)
Definition textLines (s : gostring) : list gostring :=
  filter (fun l => negb (gostring_eqb l []))
         (map Strings.TrimSpace (Split s 10%N)).

Fixpoint joinLines (ls : list gostring) : gostring :=
  match ls with
  | [] => []
  | [l] => l
  | l :: ls' => l ++ [10%N] ++ joinLines ls'
  end.

(** A line that [HTMLToContentBlocks] takes for a heading. *)
Definition headingCandidate (line : gostring) : bool :=
  Strings.HasPrefix (Strings.TrimSpace line) (str "<h")
  && Strings.Contains (Strings.TrimSpace line) (str ">").

Definition noHeading (s : gostring) : bool :=
  forallb (fun l => negb (headingCandidate l)) (Split s 10%N).

(** The text block that [HTMLToContentBlocks] makes of accumulated text,
    if there is any. *)
Definition textBlockAt (fmt_d : Z -> gostring) (sortOrder : Z)
           (body : gostring) : list SimpleBlock.t :=
  match body with
  | [] => []
  | _ => [SimpleBlock.TextContent (str "uuid-" ++ fmt_d sortOrder) body 1
                                  sortOrder]
  end.

(** A heading on a line of its own: the level [n], the rest of the
    opening tag, the title, the level [m] of the closing tag and what
    follows it on the line. *)
Definition headingLine (n : rune) (attrs title : gostring) (m : rune)
           (rest : gostring) : gostring :=
  str "<h" ++ [n] ++ attrs ++ [gt] ++ title ++ str "</h" ++ [m] ++ [gt] ++ rest.

Definition headingShape (n : rune) (attrs title : gostring) (m : rune)
           (rest : gostring) : bool :=
  level16 n && level16 m && forallb (not_rune gt) attrs
  && firstAt (str "</h") title
  && forallb (not_rune 10%N) (headingLine n attrs title m rest)
  && gostring_eqb (Strings.TrimSpace (headingLine n attrs title m rest))
                  (headingLine n attrs title m rest).

(** ** Vocabulary of the properties of the uploader *)

(** The identifiers drawn at the interactions [lo], ..., [hi - 1] differ
    from one another. *)
Definition fresh_ids (generateUUID : nat -> gostring) (lo hi : nat) : Prop :=
  forall a b, lo <= a -> a < hi -> lo <= b -> b < hi ->
              generateUUID a = generateUUID b -> a = b.

(** The identifiers of the blocks were drawn at distinct interactions,
    none before [lo], all before the current one. *)
Definition uuids_drawn (generateUUID : nat -> gostring) (lo : nat)
           (bs : Blocks) (r : Run) : Prop :=
  lo <= clock r
  /\ exists ns, map Block.uuid (contentBlocks bs) = map generateUUID ns
                /\ NoDup ns /\ Forall (fun n => lo <= n /\ n < clock r) ns.

Definition is_image (b : Block.t) : bool :=
  match b with
  | Block.ImageContentBlock _ _ _ _ _ _ _ _ _ => true
  | _ => false
  end.

Definition imageBlocks (blocks : list Block.t) : Z :=
  Z.of_nat (List.length (filter is_image blocks)).

(** What a piece of the loop over the steps keeps, from the blocks [bs]
    and the run [r] to the blocks [bs'] and the run [r']. *)
Definition carried (generateUUID : nat -> gostring) (lo : nat)
           (bs : Blocks) (r : Run) (bs' : Blocks) (r' : Run) : Prop :=
  clock r <= clock r'
  /\ submitted r' = submitted r
  /\ (uuids_drawn generateUUID lo bs r -> uuids_drawn generateUUID lo bs' r')
  /\ (uploadedImagesCount r' - imageBlocks (contentBlocks bs')
      = uploadedImagesCount r - imageBlocks (contentBlocks bs))%Z.

(** The image blocks among the contents submitted for the articles. *)
Definition submittedImages (subs : list (Z * list Block.t)) : Z :=
  fold_right (fun s n => (imageBlocks (snd s) + n)%Z) 0%Z subs.

(** From the run [r] to the run [r'], contents were submitted for more
    articles, and the count of uploaded images grew by the number of
    their image blocks. *)
Definition counted (r r' : Run) : Prop :=
  exists more,
    submitted r' = submitted r ++ more
    /\ uploadedImagesCount r'
       = (uploadedImagesCount r + submittedImages more)%Z.

(** ** More of the concrete world *)

Module Example2.

(** The chapter of the example with its article, and the whole upload of
    it when every image is accepted. *)
Definition chapter : SSChapter.t :=
  SSChapter.mk (str "ch1") (str "Chapter One") 1%Z [] [Example.article].

Definition uploaded : option Run :=
  uploadChapters Example.entity Example.entity2 Example.join Example.base
                 Example.toLower Example.fmt_d Example.generateUUID
                 Example.CreateArticle Example.StatPresent
                 Example.UploadAccepted Example.UpdateArticleContents
                 (str "out") (str "site") (fun _ => 3%Z) 0%Z [chapter]
                 (Some Example.run0).

Definition runUploaded : Run :=
  Eval vm_compute in
    match uploaded with Some r => r | None => Example.run0 end.

End Example2.

(** The values stored under a key of a map kept as a list of entries. *)
Fixpoint groupOf {V : Type} (k : gostring) (m : list (gostring * list V))
  : list V :=
  match m with
  | [] => []
  | (k0, vs) :: m' => if gostring_eqb k0 k then vs else groupOf k m'
  end.

(** ** Vocabulary of the properties of the flattener's counters *)

Definition zsum {A : Type} (f : A -> Z) (l : list A) : Z :=
  fold_right (fun x n => (f x + n)%Z) 0%Z l.

(** The articles, and the images of the steps, of the chapters that the
    flattener returns. *)
Definition articlesIn (chapters : list SSChapter.t) : Z :=
  zsum (fun ch => zlen (SSChapter.Articles ch)) chapters.

Definition stepImagesOf (a : SSArticle.t) : Z :=
  zsum (fun s => zlen (SSStep.Images s)) (SSArticle.Steps a).

Definition imagesIn (chapters : list SSChapter.t) : Z :=
  zsum (fun ch => zsum stepImagesOf (SSChapter.Articles ch)) chapters.

(** The images attached to the article nodes that have step nodes. *)
Definition parentImages (manual : Manual.t) : Z :=
  zsum (fun ch => zsum (fun a => if noChildren a then 0%Z
                                 else zlen (getNodeImages a))
                       (childNodes ch))
       (chapterNodes manual).

(** The logger after [articles] more articles and [images] more images
    were processed, in chapter [chapter]. *)
Definition advanced (l : Logger.t) (chapter articles images : Z) : Logger.t :=
  Logger.mk (Logger.totalManuals l) (Logger.totalChapters l)
            (Logger.totalArticles l) (Logger.totalImages l)
            (Logger.currentManual l) chapter
            (Logger.currentArticle l + articles)%Z
            (Logger.processedArticles l + articles)%Z
            (Logger.processedImages l + images)%Z.

(** The images that the flattener processes for an article node: those
    of its step nodes, or its own when it has no step node. *)
Definition articleProcessed (node : ContentNode.t) : Z :=
  (zsum (fun n => zlen (getNodeImages n)) (childNodes node)
   + if noChildren node then zlen (getNodeImages node) else 0)%Z.

(** ** Vocabulary of the properties of the special blocks *)

(** What an embed written by [convertYouTubeEmbeds] holds between its
    opening and its closing tag. *)
Definition embedBody (videoID : gostring) : gostring :=
  qstr "<iframe width='560' height='315' src='https://www.youtube.com/embed/"
  ++ videoID
  ++ qstr "' title='YouTube video player' frameborder='0' "
  ++ qstr "allow='accelerometer; autoplay; clipboard-write; encrypted-media; gyroscope; picture-in-picture; web-share' "
  ++ qstr "referrerpolicy='strict-origin-when-cross-origin' allowfullscreen></iframe>".

(** Text before a special block that begins with [<div]: it holds no
    [<div] and no [<img], nor the beginning of one that the block would
    complete. *)
Definition quietBefore (pre : gostring) : bool :=
  firstAt (str "<div") pre
  && negb (Strings.Contains (pre ++ str "<di") (str "<img")).

(** Text after the last special block. *)
Definition quietAfter (post : gostring) : bool :=
  negb (Strings.Contains post (str "<div"))
  && negb (Strings.Contains post (str "<img")).

(** Text that has something left once its tags are stripped: the
    uploader makes a text block of it. *)
Definition hasPlainText (text : gostring) : bool :=
  negb (gostring_eqb (Strings.TrimSpace (stripTags text)) []).

(** A style name as the opening tag of a styled block carries it: not
    empty, without a quote and without a [>]. *)
Definition styleName (style : gostring) : bool :=
  negb (gostring_eqb style []) && forallb (not_rune dq) style
  && forallb (not_rune gt) style.

(** The attribute name [data-style='] occurs once in the opening tag of
    the block: the style does not end with [data-style=]. *)
Definition styleOnce (style : gostring) : bool :=
  negb (Strings.Contains (tl (qstr "data-style='" ++ style ++ [dq]))
                         (qstr "data-style='")).

(** The styled block holds no second opening tag of a styled block. *)
Definition oneStyledBlock (style content : gostring) : bool :=
  negb (Strings.Contains (tl (styledBlock style content))
                         (qstr "<div class='screensteps-styled-block'")).

(** The opening tag of a styled block, up to the style name. *)
Definition styledHead : gostring :=
  qstr "<div class='screensteps-styled-block' data-style='".

(** An image tag: [a1] is what stands between the tag name and the
    [src] attribute, [a2] what stands after the attribute. *)
Definition imgTag (a1 src a2 : gostring) : gostring :=
  str "<img" ++ a1 ++ qstr "src='" ++ src ++ [dq] ++ a2 ++ [gt].

(** The conditions under which the patterns for image tags match the
    whole tag and take [src] as the address: something, a space for
    instance, stands before the attribute; the address is not empty and
    holds no quote; the tag holds no [>] but the last one; the attribute
    name [src='] does not occur again after the attribute. *)
Definition imgShape (a1 src a2 : gostring) : bool :=
  negb (gostring_eqb a1 []) && forallb (not_rune gt) a1
  && negb (gostring_eqb src []) && forallb (not_rune dq) src
  && forallb (not_rune gt) src && forallb (not_rune gt) a2
  && negb (Strings.Contains (tl (qstr "src='" ++ src ++ [dq] ++ a2))
                            (qstr "src='")).

(** Text before an image tag: it holds no [<img] and no [<div], nor the
    beginning of one that the tag would complete. *)
Definition quietBeforeImg (pre : gostring) : bool :=
  firstAt (str "<img") pre
  && negb (Strings.Contains (pre ++ str "<im") (str "<div")).

(** The file name the uploader gives to the image of an [img] tag whose
    [src] attribute is [srcAttr]: the entities are decoded, the query is
    cut off, the directories are left out. *)
Definition imageNameOf (entity : gostring -> option rune)
           (entity2 : gostring -> option (rune * rune))
           (filepath_Base : gostring -> gostring)
           (srcAttr : gostring) : gostring :=
  let src := Html.UnescapeString entity entity2 srcAttr in
  filepath_Base (match Strings.Index src (str "?") with
                 | Some idx => firstn idx src
                 | None => src
                 end).

(** Two more servers for the examples: one whose answer to an image
    upload has no ["file"] object, one whose ["file"] object has no
    ["width"]. *)
Module Example3.
Definition UploadNoFile (n : nat) (siteID articleID path : gostring)
  : UploadResult := Uploaded None.
Definition UploadNoWidth (n : nat) (siteID articleID path : gostring)
  : UploadResult :=
  Uploaded (Some (FileData.mk (Some 42%Z) None (Some 480%Z)
                              (Some (str "https://cdn.example/img")))).
End Example3.

(** The opening tag of an ordered list with a [start] attribute: [a1]
    stands before the attribute, [v] is its value, [a2] stands after
    it. *)
Definition olTag (a1 v a2 : gostring) : gostring :=
  str "<ol" ++ a1 ++ qstr " start='" ++ v ++ [dq] ++ a2 ++ [gt].

(** The tag holds no [>] but the last one, the value no quote, and the
    attribute name does not occur again after the attribute. *)
Definition olShape (a1 v a2 : gostring) : bool :=
  forallb (not_rune gt) a1 && forallb (not_rune dq) v
  && forallb (not_rune gt) v && forallb (not_rune gt) a2
  && negb (Strings.Contains (tl (qstr " start='" ++ v ++ [dq] ++ a2))
                            (qstr " start='")).

(** A byte that is not a tab, a line feed, a form feed or a carriage
    return. *)
Definition lineByte (b : N) : bool :=
  negb ((b =? 9) || (b =? 10) || (b =? 12) || (b =? 13))%N.

(** ** Vocabulary of the properties of [request] *)

(** The server answers with the status 429. *)
Definition rateLimited (r : Http.DoResult) : bool :=
  match r with
  | Http.DoResponse resp => (Http.StatusCode resp =? 429)%Z
  | Http.DoError _ => false
  end.

(** The two pauses after an answer with the status 429: the seconds the
    answer asks for, sixty when it asks for none, then a second and a
    quarter. *)
Definition retryPauses (decodeRetryIn : gostring -> Z) (r : Http.DoResult)
  : list Z :=
  match r with
  | Http.DoResponse resp =>
      [wrap64 ((if (decodeRetryIn (Http.Body resp) =? 0)%Z then 60
                else decodeRetryIn (Http.Body resp)) * Second);
       1250 * Millisecond]%Z
  | Http.DoError _ => []
  end.

(** What [request] returns for an answer that is not a 429, and the
    pause it makes before it returns. *)
Definition outcomeOf (r : Http.DoResult) : Http.Response + Api.Error :=
  match r with
  | Http.DoError err => inr (Api.TransportError err)
  | Http.DoResponse resp =>
      if ((Http.StatusCode resp =? 200) || (Http.StatusCode resp =? 201))%Z
      then inl resp
      else inr (Api.StatusError (Http.StatusCode resp) (Http.Body resp))
  end.

Definition lastPause (r : Http.DoResult) : list Z :=
  match outcomeOf r with
  | inl _ => [1250 * Millisecond]%Z
  | inr _ => []
  end.

(** The value of [jsonData] for a [body]: [None] when [json.Marshal]
    fails. *)
Definition marshalled {Body : Type} (json_Marshal : Body -> option gostring)
           (body : option Body) : option (option gostring) :=
  match body with
  | Some b => option_map Some (json_Marshal b)
  | None => Some None
  end.

(** A server for the examples: it answers the first two calls with the
    status 429, asking for 2 seconds the first time and for none the
    second time, and the third call with the status 201.  And one that
    always answers with the status 429. *)
Module Example4.
Definition marshal (b : gostring) : option gostring := Some b.
Definition newRequest (method url : gostring) : bool := true.
Definition retryIn (body : gostring) : Z :=
  match body with [] => 0%Z | _ => 2%Z end.
Definition Do (n : nat) (method url : gostring) (data : option gostring)
  : Http.DoResult :=
  match n with
  | 0 => Http.DoResponse (Http.mkResponse 429 (str "{'retry_in':2}"))
  | 1 => Http.DoResponse (Http.mkResponse 429 [])
  | _ => Http.DoResponse (Http.mkResponse 201 (str "{'article':{'id':7}}"))
  end.
Definition Busy (n : nat) (method url : gostring) (data : option gostring)
  : Http.DoResult :=
  Http.DoResponse (Http.mkResponse 429 []).
End Example4.
(** * Properties *)

(** ** Strings *)

Lemma gostring_eqb_eq : forall a b, gostring_eqb a b = true <-> a = b.
Proof.
  induction a as [|x a IH]; intros [|y b]; simpl; split; intros H;
    try reflexivity; try discriminate.
  - apply andb_true_iff in H. destruct H as [H1 H2].
    apply N.eqb_eq in H1. apply IH in H2. congruence.
  - injection H as -> ->. rewrite N.eqb_refl. apply IH. reflexivity.
Qed.

Lemma gostring_eqb_refl : forall a, gostring_eqb a a = true.
Proof. intros a. apply gostring_eqb_eq. reflexivity. Qed.

Lemma HasPrefix_app_self : forall l t, Strings.HasPrefix (l ++ t) l = true.
Proof.
  induction l as [|c l IH]; intros t; simpl; [reflexivity|].
  rewrite N.eqb_refl. apply IH.
Qed.

(** A prefix test only looks at as many runes as the prefix has. *)
Lemma HasPrefix_app_long : forall l s t,
  List.length l <= List.length s ->
  Strings.HasPrefix (s ++ t) l = Strings.HasPrefix s l.
Proof.
  induction l as [|c l IH]; intros [|x s] t H; simpl in *; try reflexivity.
  - lia.
  - destruct (N.eqb c x); [|reflexivity]. apply IH. lia.
Qed.


Lemma Index_first : forall l s n j,
  Strings.Index s l = Some n -> j < n ->
  Strings.HasPrefix (skipn j s) l = false.
Proof.
  intros l. induction s as [|c s IH]; intros n j H Hj.
  - simpl in H. destruct (Strings.HasPrefix [] l); [|discriminate].
    injection H as <-. lia.
  - simpl in H. destruct (Strings.HasPrefix (c :: s) l) eqn:E.
    + injection H as <-. lia.
    + destruct (Strings.Index s l) as [n'|] eqn:E'; [|discriminate].
      simpl in H. injection H as <-.
      destruct j as [|j]; simpl; [exact E|].
      apply (IH n'); [reflexivity | lia].
Qed.

(** If the first occurrence of [l] in [pre ++ l] is the final one, [l]
    does not occur at any offset inside [pre], whatever follows. *)
Lemma Index_no_earlier : forall l pre1 pre2 t,
  Strings.Index ((pre1 ++ pre2) ++ l) l = Some (List.length (pre1 ++ pre2)) ->
  pre2 <> [] ->
  Strings.HasPrefix (pre2 ++ l ++ t) l = false.
Proof.
  intros l pre1 pre2 t H Hne.
  rewrite app_assoc, HasPrefix_app_long by (rewrite length_app; lia).
  assert (Hj : List.length pre1 < List.length (pre1 ++ pre2)).
  { rewrite length_app. destruct pre2; [contradiction | simpl; lia]. }
  generalize (Index_first _ _ _ _ H Hj).
  rewrite <- app_assoc, skipn_app, skipn_all, Nat.sub_diag. simpl. auto.
Qed.

Lemma Contains_no_occurrence : forall l s1 s2,
  Strings.Contains (s1 ++ s2) l = false -> Strings.HasPrefix s2 l = false.
Proof.
  intros l. unfold Strings.Contains.
  induction s1 as [|c s1 IH]; intros s2 H; simpl in H.
  - destruct s2 as [|x s2]; simpl in H.
    + destruct l; [discriminate | reflexivity].
    + destruct (Strings.HasPrefix (x :: s2) l); [discriminate | reflexivity].
  - apply IH.
    destruct (Strings.HasPrefix (c :: s1 ++ s2) l); [discriminate|].
    destruct (Strings.Index (s1 ++ s2) l); [discriminate | reflexivity].
Qed.

Lemma slice_prefix : forall (a b : gostring),
  slice (a ++ b) 0 (List.length a) = a.
Proof.
  intros a b. unfold slice. simpl. rewrite Nat.sub_0_r.
  rewrite firstn_app, Nat.sub_diag, firstn_all. simpl. apply app_nil_r.
Qed.

Lemma slice_middle : forall (a b c : gostring),
  slice (a ++ b ++ c) (List.length a) (List.length b + List.length a) = b.
Proof.
  intros a b c. unfold slice.
  rewrite skipn_app, skipn_all, Nat.sub_diag. simpl.
  replace (List.length b + List.length a - List.length a) with (List.length b)
    by lia.
  rewrite firstn_app, Nat.sub_diag, firstn_all. simpl. apply app_nil_r.
Qed.

Lemma skipn_past : forall (a b c : gostring),
  skipn (List.length b + List.length a) (a ++ b ++ c) = c.
Proof.
  intros a b c. rewrite app_assoc.
  rewrite skipn_app, skipn_all2 by (rewrite length_app; lia).
  rewrite length_app.
  replace (List.length b + List.length a - (List.length a + List.length b))
    with 0 by lia.
  reflexivity.
Qed.

(** ** The matcher *)


Lemma ltb_succ : forall n, Nat.ltb n (S n) = true.
Proof. intros n. apply Nat.ltb_lt. lia. Qed.

Section MatcherFacts.

Variable k : kont.

Lemma m_Cat : forall r1 r2 st, m (Cat r1 r2) k st = m r1 (m r2 k) st.
Proof. reflexivity. Qed.

Lemma m_Eps : forall st, m Eps k st = k st.
Proof. reflexivity. Qed.

Lemma m_Group : forall i r st,
  m (Group i r) k st
  = m r (fun st' => k (MState (pos st') (prev st') (rest st')
                              ((i, (pos st, pos st')) :: caps st'))) st.
Proof. reflexivity. Qed.


Lemma m_Lit_app : forall l p pv t cs,
  m (Lit l) k (MState p pv (l ++ t) cs)
  = k (MState (List.length l + p) (last_rune l pv) t cs).
Proof.
  induction l as [|c l IH]; intros p pv t cs; simpl; [reflexivity|].
  rewrite N.eqb_refl. unfold advance. simpl. rewrite IH.
  rewrite Nat.add_succ_r. reflexivity.
Qed.

Lemma m_Lit_fail : forall l p pv s cs,
  Strings.HasPrefix s l = false -> m (Lit l) k (MState p pv s cs) = None.
Proof.
  induction l as [|c l IH]; intros p pv [|x s] cs H; simpl in *;
    try discriminate; try reflexivity.
  rewrite N.eqb_sym. destruct (N.eqb c x); [|reflexivity].
  apply IH. assumption.
Qed.

Variable P : rune -> bool.

Lemma star_greedy_step : forall c f p pv s cs,
  P c = true ->
  star_loop (m (Cls P)) true k (S f) (MState p pv (c :: s) cs)
  = match star_loop (m (Cls P)) true k f (MState (S p) (Some c) s cs) with
    | Some x => Some x
    | None => k (MState p pv (c :: s) cs)
    end.
Proof.
  intros c f p pv s cs Hc. simpl. rewrite Hc. unfold advance. simpl.
  rewrite ltb_succ. reflexivity.
Qed.

Lemma star_greedy_stop : forall f p pv s cs,
  stops P s ->
  star_loop (m (Cls P)) true k (S f) (MState p pv s cs) = k (MState p pv s cs).
Proof.
  intros f p pv [|c s] cs Hs; simpl; [reflexivity|].
  simpl in Hs. rewrite Hs. reflexivity.
Qed.

Lemma star_lazy_step : forall c f p pv s cs,
  P c = true ->
  star_loop (m (Cls P)) false k (S f) (MState p pv (c :: s) cs)
  = match k (MState p pv (c :: s) cs) with
    | Some x => Some x
    | None => star_loop (m (Cls P)) false k f (MState (S p) (Some c) s cs)
    end.
Proof.
  intros c f p pv s cs Hc. simpl. rewrite Hc. unfold advance. simpl.
  rewrite ltb_succ. reflexivity.
Qed.

Lemma star_lazy_accept : forall x f p pv s cs,
  k (MState p pv s cs) = Some x ->
  star_loop (m (Cls P)) false k (S f) (MState p pv s cs) = Some x.
Proof. intros x f p pv s cs H. simpl. rewrite H. reflexivity. Qed.

(** A greedy repetition takes the whole run of class runes when the
    continuation accepts what follows. *)
Lemma star_greedy_all : forall x a fuel p pv t cs,
  List.length (a ++ t) < fuel ->
  forallb P a = true -> stops P t ->
  k (MState (List.length a + p) (last_rune a pv) t cs) = Some x ->
  star_loop (m (Cls P)) true k fuel (MState p pv (a ++ t) cs) = Some x.
Proof.
  intros x. induction a as [|c a IH]; intros fuel p pv t cs Hf Ha Ht Hk;
    (destruct fuel as [|f]; [simpl in Hf; lia|]).
  - simpl app. rewrite star_greedy_stop by assumption. exact Hk.
  - simpl in Ha. apply andb_true_iff in Ha. destruct Ha as [Hc Ha].
    simpl app. rewrite star_greedy_step by assumption.
    rewrite (IH f (S p) (Some c) t cs); try assumption; [reflexivity| |].
    + simpl in Hf. lia.
    + rewrite Nat.add_succ_r. exact Hk.
Qed.

(** A greedy repetition gives runes back when the continuation refuses
    every longer choice. *)
Lemma star_greedy_none_later : forall b fuel p pv t cs,
  List.length (b ++ t) < fuel ->
  forallb P b = true -> stops P t ->
  (forall b1 b2, b = b1 ++ b2 -> b1 <> [] ->
     k (MState (List.length b1 + p) (last_rune b1 pv) (b2 ++ t) cs) = None) ->
  star_loop (m (Cls P)) true k fuel (MState p pv (b ++ t) cs)
  = k (MState p pv (b ++ t) cs).
Proof.
  induction b as [|c b IH]; intros fuel p pv t cs Hf Hb Ht Hk;
    (destruct fuel as [|f]; [simpl in Hf; lia|]).
  - simpl app. apply star_greedy_stop. assumption.
  - simpl in Hb. apply andb_true_iff in Hb. destruct Hb as [Hc Hb].
    simpl app. rewrite star_greedy_step by assumption.
    rewrite (IH f (S p) (Some c) t cs); try assumption.
    + assert (H1 := Hk [c] b eq_refl). simpl in H1.
      rewrite H1; [reflexivity | discriminate].
    + simpl in Hf. lia.
    + intros b1 b2 -> Hne. rewrite Nat.add_succ_r.
      apply (Hk (c :: b1) b2 eq_refl). discriminate.
Qed.

Lemma star_greedy_back : forall x a b fuel p pv t cs,
  List.length (a ++ b ++ t) < fuel ->
  forallb P a = true -> forallb P b = true -> stops P t ->
  k (MState (List.length a + p) (last_rune a pv) (b ++ t) cs) = Some x ->
  (forall b1 b2, b = b1 ++ b2 -> b1 <> [] ->
     k (MState (List.length b1 + (List.length a + p))
               (last_rune b1 (last_rune a pv)) (b2 ++ t) cs) = None) ->
  star_loop (m (Cls P)) true k fuel (MState p pv (a ++ b ++ t) cs) = Some x.
Proof.
  intros x. induction a as [|c a IH]; intros b fuel p pv t cs Hf Ha Hb Ht Hk Hn.
  - simpl in *. rewrite star_greedy_none_later; assumption.
  - destruct fuel as [|f]; [simpl in Hf; lia|].
    simpl in Ha. apply andb_true_iff in Ha. destruct Ha as [Hc Ha].
    simpl app. rewrite star_greedy_step by assumption.
    rewrite (IH b f (S p) (Some c) t cs); try assumption; [reflexivity| | |].
    + simpl in Hf. lia.
    + rewrite Nat.add_succ_r. exact Hk.
    + intros b1 b2 Hb12 Hne. rewrite Nat.add_succ_r. apply Hn; assumption.
Qed.

(** A lazy repetition stops at the first offset where the continuation
    accepts. *)
Lemma star_lazy_first : forall x a fuel p pv t cs,
  List.length (a ++ t) < fuel ->
  forallb P a = true ->
  (forall a1 a2, a = a1 ++ a2 -> a2 <> [] ->
     k (MState (List.length a1 + p) (last_rune a1 pv) (a2 ++ t) cs) = None) ->
  k (MState (List.length a + p) (last_rune a pv) t cs) = Some x ->
  star_loop (m (Cls P)) false k fuel (MState p pv (a ++ t) cs) = Some x.
Proof.
  intros x. induction a as [|c a IH]; intros fuel p pv t cs Hf Ha Hn Hk;
    (destruct fuel as [|f]; [simpl in Hf; lia|]).
  - simpl app. apply star_lazy_accept. exact Hk.
  - simpl in Ha. apply andb_true_iff in Ha. destruct Ha as [Hc Ha].
    simpl app. rewrite star_lazy_step by assumption.
    assert (H1 := Hn [] (c :: a) eq_refl). simpl in H1.
    rewrite H1 by discriminate.
    apply IH; try assumption.
    + simpl in Hf. lia.
    + intros a1 a2 -> Hne. rewrite Nat.add_succ_r.
      apply (Hn (c :: a1) a2 eq_refl). assumption.
    + rewrite Nat.add_succ_r. exact Hk.
Qed.

End MatcherFacts.

(** ** Searching and replacing *)

Section SearchFacts.

Variable r : regex.

Lemma find_all_skip : forall pre p pv s resume pe,
  (forall pre1 pre2, pre = pre1 ++ pre2 -> pre2 <> [] ->
     match_here r (List.length pre1 + p) (last_rune pre1 pv) (pre2 ++ s) = None) ->
  find_all_from r p pv (pre ++ s) resume pe
  = find_all_from r (List.length pre + p) (last_rune pre pv) s resume pe.
Proof.
  induction pre as [|c pre IH]; intros p pv s resume pe H; [reflexivity|].
  simpl app. cbn [find_all_from].
  assert (H0 := H [] (c :: pre) eq_refl). simpl in H0.
  rewrite H0 by discriminate.
  destruct (Nat.leb resume p); rewrite IH; simpl; rewrite ?Nat.add_succ_r;
    try reflexivity;
    intros pre1 pre2 -> Hne; rewrite Nat.add_succ_r;
    apply (H (c :: pre1) pre2 eq_refl); assumption.
Qed.

Lemma find_all_resume : forall a p pv s resume pe,
  List.length a + p <= resume ->
  find_all_from r p pv (a ++ s) resume pe
  = find_all_from r (List.length a + p) (last_rune a pv) s resume pe.
Proof.
  induction a as [|c a IH]; intros p pv s resume pe H; [reflexivity|].
  simpl app. cbn [find_all_from].
  assert (E : Nat.leb resume p = false) by (apply Nat.leb_gt; simpl in H; lia).
  rewrite E. rewrite IH by (simpl in H; lia).
  simpl. rewrite Nat.add_succ_r. reflexivity.
Qed.

Lemma find_all_hit : forall c mt p pv s resume pe cs,
  resume <= p ->
  match_here r p pv ((c :: mt) ++ s)
  = Some (Found p (List.length (c :: mt) + p) cs) ->
  find_all_from r p pv ((c :: mt) ++ s) resume pe
  = Found p (List.length (c :: mt) + p) cs
    :: find_all_from r (List.length (c :: mt) + p) (last_rune (c :: mt) pv) s
                     (List.length (c :: mt) + p)
                     (Some (List.length (c :: mt) + p)).
Proof.
  intros c mt p pv s resume pe cs Hr Hm.
  simpl app in *. cbn [find_all_from].
  apply Nat.leb_le in Hr. rewrite Hr, Hm. cbn [m_end].
  assert (E : Nat.eqb (List.length (c :: mt) + p) p = false)
    by (apply Nat.eqb_neq; simpl; lia).
  rewrite E. simpl andb. cbv iota. simpl app. f_equal.
  rewrite find_all_resume by (simpl; lia).
  simpl. rewrite Nat.add_succ_r. reflexivity.
Qed.

Lemma find_all_none : forall post p pv resume pe,
  (forall post1 post2, post = post1 ++ post2 ->
     match_here r (List.length post1 + p) (last_rune post1 pv) post2 = None) ->
  find_all_from r p pv post resume pe = [].
Proof.
  induction post as [|c post IH]; intros p pv resume pe H;
    cbn [find_all_from];
    assert (H0 := H [] _ eq_refl); simpl in H0; rewrite H0.
  - destruct (Nat.leb resume p); reflexivity.
  - destruct (Nat.leb resume p); apply IH;
      intros post1 post2 ->; rewrite Nat.add_succ_r;
      apply (H (c :: post1) post2 eq_refl).
Qed.

(** The text with one match: what comes before it, the match, what comes
    after it. *)
Lemma find_all_single : forall pre mt post cs,
  mt <> [] ->
  (forall pre1 pre2 pv, pre = pre1 ++ pre2 -> pre2 <> [] ->
     match_here r (List.length pre1 + 0) pv (pre2 ++ mt ++ post) = None) ->
  match_here r (List.length pre + 0) (last_rune pre None) (mt ++ post)
  = Some (Found (List.length pre + 0)
                (List.length mt + (List.length pre + 0)) cs) ->
  (forall post1 post2 p pv, post = post1 ++ post2 ->
     match_here r p pv post2 = None) ->
  find_all r (pre ++ mt ++ post)
  = [Found (List.length pre) (List.length mt + List.length pre) cs].
Proof.
  intros pre [|c mt] post cs Hne Hpre Hm Hpost; [contradiction|].
  unfold find_all.
  rewrite find_all_skip by (intros; apply Hpre; assumption).
  erewrite find_all_hit; [|lia|exact Hm].
  rewrite find_all_none by (intros; eapply Hpost; eassumption).
  rewrite Nat.add_0_r. reflexivity.
Qed.

End SearchFacts.

Lemma replace_single : forall pre mt post cs repl,
  replace_matches (pre ++ mt ++ post) 0
    [Found (List.length pre) (List.length mt + List.length pre) cs] repl
  = pre ++ repl (Found (List.length pre) (List.length mt + List.length pre) cs)
        ++ post.
Proof.
  intros pre mt post cs repl. cbn [replace_matches m_start m_end].
  rewrite slice_prefix, skipn_past. reflexivity.
Qed.

(** ** The matcher on a repetition of a class, stated on [m] *)

Section RepetitionFacts.

Variable k : kont.
Variable P : rune -> bool.

Lemma m_Chr_cons : forall c p pv t cs,
  m (Chr c) k (MState p pv (c :: t) cs) = k (MState (S p) (Some c) t cs).
Proof. intros. simpl. rewrite N.eqb_refl. reflexivity. Qed.

Lemma m_Chr_app : forall c p pv t cs,
  m (Chr c) k (MState p pv ([c] ++ t) cs) = k (MState (S p) (Some c) t cs).
Proof. intros. apply m_Chr_cons. Qed.

Lemma m_Chr_fail : forall c p pv s cs,
  Strings.HasPrefix s [c] = false -> m (Chr c) k (MState p pv s cs) = None.
Proof.
  intros c p pv [|x s] cs H; simpl in *; [reflexivity|].
  rewrite N.eqb_sym. destruct (N.eqb c x); [discriminate | reflexivity].
Qed.

Lemma m_star_greedy_all : forall x a p pv t cs,
  forallb P a = true -> stops P t ->
  k (MState (List.length a + p) (last_rune a pv) t cs) = Some x ->
  m (Star true (Cls P)) k (MState p pv (a ++ t) cs) = Some x.
Proof.
  intros. cbn [m rest]. apply star_greedy_all; auto.
Qed.

Lemma m_star_greedy_back : forall x a b p pv t cs,
  forallb P a = true -> forallb P b = true -> stops P t ->
  k (MState (List.length a + p) (last_rune a pv) (b ++ t) cs) = Some x ->
  (forall b1 b2, b = b1 ++ b2 -> b1 <> [] ->
     k (MState (List.length b1 + (List.length a + p))
               (last_rune b1 (last_rune a pv)) (b2 ++ t) cs) = None) ->
  m (Star true (Cls P)) k (MState p pv (a ++ b ++ t) cs) = Some x.
Proof.
  intros. cbn [m rest]. apply star_greedy_back; auto.
Qed.

Lemma m_star_lazy_first : forall x a p pv t cs,
  forallb P a = true ->
  (forall a1 a2, a = a1 ++ a2 -> a2 <> [] ->
     k (MState (List.length a1 + p) (last_rune a1 pv) (a2 ++ t) cs) = None) ->
  k (MState (List.length a + p) (last_rune a pv) t cs) = Some x ->
  m (Star false (Cls P)) k (MState p pv (a ++ t) cs) = Some x.
Proof.
  intros. cbn [m rest]. apply star_lazy_first; auto.
Qed.

Lemma m_plus_greedy_all : forall x a p pv t cs,
  a <> [] -> forallb P a = true -> stops P t ->
  k (MState (List.length a + p) (last_rune a pv) t cs) = Some x ->
  m (Plus true (Cls P)) k (MState p pv (a ++ t) cs) = Some x.
Proof.
  intros x [|c a] p pv t cs Hne Ha Ht Hk; [contradiction|].
  simpl in Ha. apply andb_true_iff in Ha. destruct Ha as [Hc Ha].
  unfold Plus. cbn [m rest app]. rewrite Hc. unfold advance. cbn [pos caps].
  apply star_greedy_all; auto.
  simpl in Hk. rewrite Nat.add_succ_r. exact Hk.
Qed.

End RepetitionFacts.

(** ** A literal that the text does not hold *)

Lemma suffix_of_refl : forall s, suffix_of s s.
Proof. intros s. exists []. reflexivity. Qed.

Lemma suffix_of_trans : forall s1 s2 s3,
  suffix_of s1 s2 -> suffix_of s2 s3 -> suffix_of s1 s3.
Proof.
  intros s1 s2 s3 (a & ->) (b & ->). exists (b ++ a).
  rewrite app_assoc. reflexivity.
Qed.

Lemma suffix_of_tail : forall c s, suffix_of s (c :: s).
Proof. intros c s. exists [c]. reflexivity. Qed.

(** The matcher calls its continuation on suffixes of the text only. *)
Lemma star_loop_suffix_fail : forall (body : kont -> kont) g k,
  (forall K st, (forall st', suffix_of (rest st') (rest st) -> K st' = None) ->
                body K st = None) ->
  forall fuel st,
    (forall st', suffix_of (rest st') (rest st) -> k st' = None) ->
    star_loop body g k fuel st = None.
Proof.
  intros body g k Hbody. induction fuel as [|f IH]; intros st Hk; simpl.
  - apply Hk, suffix_of_refl.
  - assert (Hb : body (fun st' => if Nat.ltb (pos st) (pos st')
                                   then star_loop body g k f st' else None) st
                 = None).
    { apply Hbody. intros st' Hs. destruct (Nat.ltb _ _); [|reflexivity].
      apply IH. intros st'' Hs'. apply Hk.
      eapply suffix_of_trans; eassumption. }
    rewrite Hb, (Hk st (suffix_of_refl _)). destruct g; reflexivity.
Qed.

Lemma m_suffix_fail : forall r K st,
  (forall st', suffix_of (rest st') (rest st) -> K st' = None) ->
  m r K st = None.
Proof.
  induction r as [|c|P|r1 IH1 r2 IH2|r1 IH1 r2 IH2|g r IH|i r IH|];
    intros K st HK; cbn [m].
  - apply HK, suffix_of_refl.
  - destruct (rest st) as [|x t] eqn:E; [reflexivity|].
    destruct (N.eqb x c); [|reflexivity].
    apply HK. simpl. apply suffix_of_tail.
  - destruct (rest st) as [|x t] eqn:E; [reflexivity|].
    destruct (P x); [|reflexivity].
    apply HK. simpl. apply suffix_of_tail.
  - apply IH1. intros st' Hs. apply IH2. intros st'' Hs'.
    apply HK. eapply suffix_of_trans; eassumption.
  - rewrite IH1 by assumption. apply IH2. assumption.
  - apply star_loop_suffix_fail; assumption.
  - apply IH. intros st' Hs. apply HK. exact Hs.
  - destruct (xorb _ _); [|reflexivity]. apply HK, suffix_of_refl.
Qed.

Lemma Contains_suffix : forall l s s',
  Strings.Contains s l = false -> suffix_of s' s ->
  Strings.HasPrefix s' l = false.
Proof.
  intros l s s' H (s1 & ->). eapply Contains_no_occurrence; eassumption.
Qed.

(** A pattern that goes through a literal cannot match in a text that
    does not hold the literal. *)
Lemma lit_required : forall l r1 r2 k p pv s cs,
  Strings.Contains s l = false ->
  m (Cat r1 (Cat (Lit l) r2)) k (MState p pv s cs) = None.
Proof.
  intros l r1 r2 k p pv s cs H. rewrite m_Cat.
  apply m_suffix_fail. intros [p' pv' s' cs'] Hs. simpl in Hs.
  rewrite m_Cat. apply m_Lit_fail. eapply Contains_suffix; eassumption.
Qed.

Lemma find_all_none_suffix : forall r post p pv resume pe,
  (forall s' p' pv', suffix_of s' post -> match_here r p' pv' s' = None) ->
  find_all_from r p pv post resume pe = [].
Proof.
  intros r post p pv resume pe H. apply find_all_none.
  intros post1 post2 ->. apply H. exists post1. reflexivity.
Qed.

Lemma Contains_suffix_false : forall l s s',
  Strings.Contains s l = false -> suffix_of s' s ->
  Strings.Contains s' l = false.
Proof.
  intros l s s' H (s1 & ->). revert H. unfold Strings.Contains.
  induction s1 as [|c s1 IH]; intros H; [exact H|].
  apply IH. simpl in H.
  destruct (Strings.HasPrefix (c :: s1 ++ s') l); [discriminate|].
  destruct (Strings.Index (s1 ++ s') l); [discriminate|reflexivity].
Qed.

Lemma requires_here : forall l r2, requires l (Cat (Lit l) r2).
Proof.
  intros l r2 k [p pv s cs] H. rewrite m_Cat. apply m_Lit_fail.
  eapply Contains_suffix; [exact H|apply suffix_of_refl].
Qed.


Lemma requires_find_all : forall l r s,
  requires l r -> Strings.Contains s l = false -> find_all r s = [].
Proof.
  intros l r s Hr Hc. unfold find_all. apply find_all_none_suffix.
  intros s' p' pv' Hs. unfold match_here. rewrite Hr; [reflexivity|].
  simpl. eapply Contains_suffix_false; eassumption.
Qed.

Lemma Contains_intro : forall l x y, Strings.Contains (x ++ l ++ y) l = true.
Proof.
  intros l x y. unfold Strings.Contains.
  induction x as [|c x IH]; simpl.
  - destruct (l ++ y) eqn:E; simpl.
    + destruct l; [reflexivity|discriminate].
    + rewrite <- E, HasPrefix_app_self. reflexivity.
  - destruct (Strings.HasPrefix (c :: x ++ l ++ y) l); [reflexivity|].
    destruct (Strings.Index (x ++ l ++ y) l); [reflexivity|discriminate].
Qed.

Lemma HasPrefix_longer : forall a b s,
  Strings.HasPrefix s a = false -> Strings.HasPrefix s (a ++ b) = false.
Proof.
  induction a as [|c a IH]; intros b [|x s] H; simpl in *; try discriminate;
    try reflexivity.
  destruct (N.eqb c x); [|reflexivity]. apply IH. assumption.
Qed.



(** ** Inline-style spans *)

Lemma firstAt_no_earlier : forall lit pre1 pre2 t,
  firstAt lit (pre1 ++ pre2) = true -> pre2 <> [] ->
  Strings.HasPrefix (pre2 ++ lit ++ t) lit = false.
Proof.
  intros lit pre1 pre2 t H Hne. unfold firstAt in H.
  destruct (Strings.Index ((pre1 ++ pre2) ++ lit) lit) as [n|] eqn:E;
    [|discriminate].
  apply Nat.eqb_eq in H. subst n.
  eapply Index_no_earlier; eassumption.
Qed.


Ltac lens :=
  repeat first [rewrite length_app | progress simpl List.length]; lia.

Lemma slice_at : forall (a b c : gostring) n1 n2,
  n1 = List.length a -> n2 = List.length (a ++ b) ->
  slice (a ++ b ++ c) n1 n2 = b.
Proof.
  intros a b c n1 n2 -> ->. rewrite length_app, Nat.add_comm.
  apply slice_middle.
Qed.
















(** ** YouTube embeds *)

Lemma HasPrefix_stop : forall c l b t,
  forallb (not_rune c) l = true -> List.length b < List.length l ->
  Strings.HasPrefix (b ++ c :: t) l = false.
Proof.
  intros c. induction l as [|y l IH]; intros b t Hl Hlen; simpl in *; [lia|].
  apply andb_true_iff in Hl. destruct Hl as [Hy Hl].
  destruct b as [|x b]; simpl.
  - unfold not_rune in Hy. apply negb_true_iff in Hy. rewrite Hy. reflexivity.
  - rewrite IH; [apply andb_false_r | assumption | simpl in Hlen; lia].
Qed.

(** A literal without the rune [c] that does not occur again in [b] does
    not occur at any later offset of [b], whatever follows the [c] that
    ends [b]. *)
Lemma no_later_occurrence : forall c l b b1 b2 t,
  forallb (not_rune c) l = true ->
  Strings.Contains (tl b) l = false ->
  b = b1 ++ b2 -> b1 <> [] ->
  Strings.HasPrefix (b2 ++ c :: t) l = false.
Proof.
  intros c l b b1 b2 t Hl Hc -> Hne.
  destruct (Nat.le_gt_cases (List.length l) (List.length b2)) as [Hle|Hgt].
  - rewrite HasPrefix_app_long by assumption.
    destruct b1 as [|x b1]; [contradiction|]. simpl in Hc.
    eapply Contains_no_occurrence; eassumption.
  - apply HasPrefix_stop; assumption.
Qed.


















(** ** Determinism of the conversion *)

(** C2.  The same manual converted in two runs that differ only in the
    order in which [range] visits [pClassToStyleMap]: the content of the
    converted step is not the same.  With the order [c10], [c44], [c48]
    the [info] block is inside the [introduction] block; with the order
    [c48], [c10], [c44] it is the other way round. *)
Theorem C2_map_order_changes_output :
  Permutation Example.orderA pClassToStyleMap
  /\ Permutation Example.orderB pClassToStyleMap
  /\ Example.stepContents
       (fst (flattenStructure Example.entity Example.entity2
                              (fun _ => Example.orderA)
                              Example.converter0 Example.twoClassManual))
     = [qstr "<div class='screensteps-styled-block' data-style='introduction'><div class='screensteps-styled-block' data-style='info'><p class='c10 c48'>Note</p></div></div>"]
  /\ Example.stepContents
       (fst (flattenStructure Example.entity Example.entity2
                              (fun _ => Example.orderB)
                              Example.converter0 Example.twoClassManual))
     = [qstr "<div class='screensteps-styled-block' data-style='info'><div class='screensteps-styled-block' data-style='introduction'><p class='c10 c48'>Note</p></div></div>"]
  /\ fst (flattenStructure Example.entity Example.entity2
                           (fun _ => Example.orderA)
                           Example.converter0 Example.twoClassManual)
     <> fst (flattenStructure Example.entity Example.entity2
                              (fun _ => Example.orderB)
                              Example.converter0 Example.twoClassManual).
Proof.
  split; [apply Permutation_refl|].
  split.
  { unfold Example.orderB, pClassToStyleMap.
    apply Permutation_sym.
    apply (@Permutation_cons_app _ _ [(str "c48", str "info")]
                                 [(str "c44", str "introduction")]).
    apply (@Permutation_cons_app _ _ [(str "c48", str "info")] []).
    apply Permutation_refl. }
  split; [vm_compute; reflexivity|].
  split; [vm_compute; reflexivity|].
  intros H. apply (f_equal Example.stepContents) in H. vm_compute in H. discriminate.
Qed.

(** ** Paragraph style classes *)







Lemma m_Star : forall g r k st,
  m (Star g r) k st = star_loop (m r) g k (S (List.length (rest st))) st.
Proof. reflexivity. Qed.









(** The paragraphs of the run, as [FindAllString] finds them. *)
Lemma find_all_hit_nonempty : forall r mt p pv s resume pe cs,
  mt <> [] -> resume <= p ->
  match_here r p pv (mt ++ s) = Some (Found p (List.length mt + p) cs) ->
  find_all_from r p pv (mt ++ s) resume pe
  = Found p (List.length mt + p) cs
    :: find_all_from r (List.length mt + p) (last_rune mt pv) s
                     (List.length mt + p) (Some (List.length mt + p)).
Proof.
  intros r [|c mt] p pv s resume pe cs Hne Hle H; [contradiction|].
  apply find_all_hit; assumption.
Qed.










(** The loop body for a class whose name the text does not hold. *)
Lemma requires_first : forall l r1 r2, requires l r1 -> requires l (Cat r1 r2).
Proof.
  intros l r1 r2 H k st Hc. rewrite m_Cat. apply H. assumption.
Qed.

Lemma requires_Group : forall l i r, requires l r -> requires l (Group i r).
Proof.
  intros l i r H k st Hc. rewrite m_Group. apply H. assumption.
Qed.









(** ** Entity decoding *)

Section EntityFacts.

Variable entity : gostring -> option rune.
Variable entity2 : gostring -> option (rune * rune).

#[local] Abbreviation U := (Html.UnescapeString entity entity2).


(** A rune other than the ampersand is copied. *)
Lemma unescape_rune : forall c rest,
  N.eqb c Html.amp = false -> U (c :: rest) = c :: U rest.
Proof.
  intros c rest H. unfold Html.UnescapeString. cbn [Html.unescape_from].
  rewrite H. reflexivity.
Qed.

Lemma unescape_text : forall b rest,
  forallb (fun c => negb (N.eqb c Html.amp)) b = true ->
  U (b ++ rest) = b ++ U rest.
Proof.
  induction b as [|c b IH]; intros rest H; [reflexivity|].
  cbn [forallb] in H. apply andb_true_iff in H. destruct H as [Hc Hb].
  apply negb_true_iff in Hc.
  cbn [app]. rewrite unescape_rune by assumption. rewrite IH by assumption.
  reflexivity.
Qed.













Section Passes.

Hypothesis entity_amp : entity (str "amp;") = Some Html.amp.











End Passes.

End EntityFacts.


(** Outside these texts: a [<] encoded three times is still encoded after
    the two passes, and a third pass decodes it. *)
Lemma triple_encoding_needs_a_third_pass :
  decodeEntities Example.entity Example.entity2 (str "&amp;amp;lt;")
  = str "&lt;"
  /\ Html.UnescapeString Example.entity Example.entity2 (str "&lt;")
     = str "<".
Proof. split; vm_compute; reflexivity. Qed.
(** ** The structure flattener *)

Section FlattenerFacts.

Variable entity : gostring -> option rune.
Variable entity2 : gostring -> option (rune * rune).
Variable mapOrder : nat -> list (gostring * gostring).

#[local] Abbreviation step_from' := (step_from entity entity2 mapOrder).
#[local] Abbreviation steps_from' := (steps_from entity entity2 mapOrder).
#[local] Abbreviation article_from' := (article_from entity entity2 mapOrder).
#[local] Abbreviation articles_from' := (articles_from entity entity2 mapOrder).
#[local] Abbreviation chapter_from' := (chapter_from entity entity2 mapOrder).

Lemma flattenStep_fold : forall nodes steps c,
  exists new c',
    fold_left (flattenStep entity entity2 mapOrder) nodes (steps, c)
    = (steps ++ new, c')
    /\ Forall2 step_from' nodes new.
Proof.
  induction nodes as [|node nodes IH]; intros steps c; simpl.
  - exists [], c. rewrite app_nil_r. split; [reflexivity | constructor].
  - destruct (IH (steps ++ [SSStep.mk (ContentNode.ID node) (ContentNode.Title node)
                       (ContentNode.OrderIndex node)
                       (cleanHTML entity entity2 (mapOrder (cleanCalls c)) (getNodeContent node))
                       (getNodeImages node)])
                 (withLogger (mkConverter (logger c) (S (cleanCalls c)))
                    (fun l => Logger.set_processedImages l
                       (Logger.processedImages l + zlen (getNodeImages node))%Z)))
      as (new & c' & Hfold & Hall).
    eexists (_ :: new), c'. split.
    + rewrite Hfold. rewrite <- app_assoc. reflexivity.
    + constructor; [exists (cleanCalls c); reflexivity | exact Hall].
Qed.

Lemma flattenArticle_spec : forall arts position c node,
  exists a c',
    flattenArticle entity entity2 mapOrder (arts, position, c) node
    = (arts ++ [a], (position + 1)%Z, c')
    /\ article_from' node position a.
Proof.
  intros arts position c node. unfold flattenArticle.
  destruct (noChildren node) eqn:Hn; simpl.
  - eexists _, _. split; [reflexivity|].
    unfold article_from', steps_from'; simpl. rewrite Hn.
    repeat split. eexists; split; [reflexivity|]. eexists; reflexivity.
  - destruct (flattenStep_fold (childNodes node) []
               (withLogger c (fun l => Logger.set_currentArticle l
                                         (Logger.currentArticle l + 1)%Z)))
      as (new & c' & Hfold & Hall).
    rewrite Hfold. simpl.
    eexists _, _. split; [reflexivity|].
    unfold article_from', steps_from'; simpl. rewrite Hn. repeat split. exact Hall.
Qed.

Lemma flattenArticle_fold : forall nodes arts position c,
  exists new position' c',
    fold_left (flattenArticle entity entity2 mapOrder) nodes (arts, position, c)
    = (arts ++ new, position', c')
    /\ articles_from' position nodes new.
Proof.
  induction nodes as [|node nodes IH]; intros arts position c; cbn [fold_left].
  - exists [], position, c. rewrite app_nil_r. split; [reflexivity | constructor].
  - destruct (flattenArticle_spec arts position c node) as (a & c1 & Ha & Hfrom).
    rewrite Ha.
    destruct (IH (arts ++ [a]) (position + 1)%Z c1) as (new & p' & c' & Hfold & Hall).
    exists (a :: new), p', c'. split.
    + rewrite Hfold, <- app_assoc. reflexivity.
    + constructor; assumption.
Qed.

Lemma flattenChapter_spec : forall c chapterIdx node,
  exists ch c',
    flattenChapter entity entity2 mapOrder c chapterIdx node = (ch, c')
    /\ chapter_from' node ch.
Proof.
  intros c chapterIdx node. unfold flattenChapter, chapter_from', childNodes.
  simpl. destruct (ContentNode.Children node) as [articleNodes|].
  - match goal with
    | |- context [fold_left _ articleNodes (?a, ?p, ?c0)] =>
        destruct (flattenArticle_fold articleNodes a p c0)
          as (new & p' & c' & Hfold & Hall)
    end.
    rewrite Hfold. simpl. eexists _, _. split; [reflexivity|].
    simpl. repeat split. exact Hall.
  - eexists _, _. split; [reflexivity|]. simpl. repeat split. constructor.
Qed.

Lemma flattenChapters_later : forall nodes idx chapters chapterIdx c,
  exists new c',
    flattenChapters entity entity2 mapOrder (S idx) nodes chapters chapterIdx c
    = (chapters ++ new, c')
    /\ Forall2 chapter_from' nodes new.
Proof.
  induction nodes as [|node nodes IH]; intros idx chapters chapterIdx c; simpl.
  - exists [], c. rewrite app_nil_r. split; [reflexivity | constructor].
  - destruct (flattenChapter_spec c (chapterIdx + 1)%Z node) as (ch & c1 & Hch & Hfrom).
    rewrite Hch.
    destruct (IH (S idx) (chapters ++ [ch]) (chapterIdx + 1)%Z c1)
      as (new & c' & Hfold & Hall).
    exists (ch :: new), c'. split.
    + rewrite Hfold, <- app_assoc. reflexivity.
    + constructor; assumption.
Qed.

(** The chapters are made, in order, from the top-level nodes other than
    a childless first one. *)
Lemma flattenStructure_shape : forall c manual,
  Forall2 chapter_from' (chapterNodes manual)
          (fst (flattenStructure entity entity2 mapOrder c manual)).
Proof.
  intros c manual. unfold flattenStructure, chapterNodes.
  destruct (countTotals 0 (Manual.ContentNodes manual) (0, 0, 0)%Z)
    as [[tc ta] ti].
  destruct (Manual.ContentNodes manual) as [|first others]; simpl.
  - constructor.
  - destruct (noChildren first) eqn:Hn.
    + match goal with
      | |- context [flattenChapters _ _ _ 1 others ?chs ?i ?c0] =>
          destruct (flattenChapters_later others 0 chs i c0)
            as (new & c' & Hfold & Hall)
      end.
      rewrite Hfold. exact Hall.
    + match goal with
      | |- context [flattenChapter _ _ _ ?c0 ?i first] =>
          destruct (flattenChapter_spec c0 i first) as (ch & c1 & Hch & Hfrom)
      end.
      rewrite Hch.
      destruct (flattenChapters_later others 0 [ch] 1%Z c1)
        as (new & c' & Hfold & Hall).
      rewrite Hfold. simpl. constructor; assumption.
Qed.

End FlattenerFacts.

Section FlattenerClaims.

Variable entity : gostring -> option rune.
Variable entity2 : gostring -> option (rune * rune).
Variable mapOrder : nat -> list (gostring * gostring).

#[local] Abbreviation flatten c manual :=
  (fst (flattenStructure entity entity2 mapOrder c manual)).

Lemma steps_from_length : forall node steps,
  steps_from entity entity2 mapOrder node steps ->
  List.length steps = if noChildren node then 1 else List.length (childNodes node).
Proof.
  intros node steps H. unfold steps_from in H.
  destruct (noChildren node).
  - destruct H as (s & -> & _). reflexivity.
  - symmetry. eapply Forall2_length; eassumption.
Qed.

Lemma noChildren_false_length : forall node,
  noChildren node = false -> 1 <= List.length (childNodes node).
Proof.
  intros node. unfold noChildren, childNodes.
  destruct (ContentNode.Children node) as [[|x l]|]; simpl; intros H;
    try discriminate; lia.
Qed.

Lemma articles_from_each : forall (P : ContentNode.t -> SSArticle.t -> Prop),
  (forall node p a, article_from entity entity2 mapOrder node p a -> P node a) ->
  forall p nodes arts,
    articles_from entity entity2 mapOrder p nodes arts -> Forall2 P nodes arts.
Proof.
  intros P HP p nodes arts H. induction H; constructor; eauto.
Qed.

Lemma articles_from_positions : forall p nodes arts,
  articles_from entity entity2 mapOrder p nodes arts ->
  map SSArticle.Position arts
  = map (fun i => (p + Z.of_nat i)%Z) (seq 0 (List.length nodes)).
Proof.
  intros p nodes arts H. induction H as [p|p node nodes a arts Ha _ IH].
  - reflexivity.
  - simpl. destruct Ha as (_ & _ & Hp & _). rewrite Hp, Z.add_0_r. f_equal.
    rewrite IH, <- seq_shift, map_map. apply map_ext. intros i. lia.
Qed.

Lemma articles_from_orders : forall p nodes arts,
  articles_from entity entity2 mapOrder p nodes arts ->
  map SSArticle.VLPOrder arts = map ContentNode.OrderIndex nodes.
Proof.
  intros p nodes arts H. induction H as [p|p node nodes a arts Ha _ IH].
  - reflexivity.
  - simpl. destruct Ha as (_ & _ & _ & Ho & _). rewrite Ho, IH. reflexivity.
Qed.

Lemma Forall2_map_eq : forall (A B C : Type) (f : A -> C) (g : B -> C) l1 l2,
  Forall2 (fun a b => g b = f a) l1 l2 -> map g l2 = map f l1.
Proof.
  intros A B C f g l1 l2 H. induction H; simpl; congruence.
Qed.

Lemma Forall2_right : forall (A B : Type) (P : B -> Prop) (l1 : list A) l2,
  Forall2 (fun _ b => P b) l1 l2 -> Forall P l2.
Proof.
  intros A B P l1 l2 H. induction H; constructor; assumption.
Qed.

Lemma positions_flatten : forall c manual,
  positions (flatten c manual)
  = map (fun node => map Z.of_nat (seq 1 (List.length (childNodes node))))
        (chapterNodes manual).
Proof.
  intros c manual. unfold positions. apply Forall2_map_eq.
  eapply Forall2_impl; [|apply flattenStructure_shape].
  intros node ch (_ & _ & _ & H). cbv beta.
  rewrite (articles_from_positions _ _ _ H), <- seq_shift, map_map.
  apply map_ext. intros i. lia.
Qed.

Lemma noChildren_reorder : forall f node,
  noChildren (reorderArticles f node) = noChildren node.
Proof.
  intros f node. unfold noChildren, reorderArticles. simpl.
  destruct (ContentNode.Children node) as [[|x l]|]; reflexivity.
Qed.

Lemma childNodes_reorder : forall f node,
  childNodes (reorderArticles f node) = map (setOrderIndex f) (childNodes node).
Proof.
  intros f node. unfold childNodes, reorderArticles. simpl.
  destruct (ContentNode.Children node); reflexivity.
Qed.

Lemma chapterNodes_reorder : forall f manual,
  chapterNodes (reorderManual f manual)
  = map (reorderArticles f) (chapterNodes manual).
Proof.
  intros f manual. unfold chapterNodes, reorderManual. simpl.
  destruct (Manual.ContentNodes manual) as [|first others]; simpl;
    [reflexivity|].
  rewrite noChildren_reorder. destruct (noChildren first); reflexivity.
Qed.

(** C7.  Every article of every chapter produced by the flattener has at
    least one step.  Its steps are made from the source article node: a
    node without child nodes gives exactly one step, synthesised from the
    node's own content; otherwise each child node gives one step, in
    order. *)
Theorem C7_every_article_has_a_step : forall c manual,
  Forall (fun ch =>
            Forall (fun a => 1 <= List.length (SSArticle.Steps a))
                   (SSChapter.Articles ch))
         (flatten c manual)
  /\ Forall2 (fun chapterNode ch =>
                Forall2 (fun articleNode a =>
                           steps_from entity entity2 mapOrder articleNode
                                      (SSArticle.Steps a)
                           /\ List.length (SSArticle.Steps a)
                              = if noChildren articleNode then 1
                                else List.length (childNodes articleNode))
                        (childNodes chapterNode) (SSChapter.Articles ch))
             (chapterNodes manual) (flatten c manual).
Proof.
  intros c manual.
  assert (Hshape := flattenStructure_shape entity entity2 mapOrder c manual).
  split.
  - apply Forall2_right with (l1 := chapterNodes manual).
    eapply Forall2_impl; [|exact Hshape].
    intros node ch (_ & _ & _ & H). cbv beta.
    apply Forall2_right with (l1 := childNodes node).
    eapply articles_from_each; [|exact H].
    intros anode p a (_ & _ & _ & _ & Hs). cbv beta.
    rewrite (steps_from_length _ _ Hs).
    destruct (noChildren anode) eqn:Hn; [lia|].
    apply noChildren_false_length; assumption.
  - eapply Forall2_impl; [|exact Hshape].
    intros node ch (_ & _ & _ & H).
    eapply articles_from_each; [|exact H].
    intros anode p a (_ & _ & _ & _ & Hs). split; [exact Hs|].
    apply steps_from_length; assumption.
Qed.

(** C8.  In each chapter the article positions are 1, 2, ..., n in
    document order; they do not change when the order indexes of the
    article nodes are replaced by any others (a permutation of them
    included); the source order index is kept in [VLPOrder]. *)
Theorem C8_positions_sequential : forall c manual (f : ContentNode.t -> Z),
  positions (flatten c manual)
  = map (fun node => map Z.of_nat (seq 1 (List.length (childNodes node))))
        (chapterNodes manual)
  /\ positions (flatten c (reorderManual f manual))
     = positions (flatten c manual)
  /\ vlpOrders (flatten c manual)
     = map (fun node => map ContentNode.OrderIndex (childNodes node))
           (chapterNodes manual).
Proof.
  intros c manual f. split; [apply positions_flatten|]. split.
  - rewrite !positions_flatten, chapterNodes_reorder, map_map.
    apply map_ext. intros node.
    rewrite childNodes_reorder, length_map. reflexivity.
  - unfold vlpOrders. apply Forall2_map_eq.
    eapply Forall2_impl;
      [|apply (flattenStructure_shape entity entity2 mapOrder c manual)].
    intros node ch (_ & _ & _ & H). cbv beta.
    apply (articles_from_orders _ _ _ H).
Qed.

(** C10.  For a source article node without child nodes, the article has
    a single step: its ID and title are the node's, its order is 0, its
    content is the cleaned content of the node and its images are the
    node's images. *)
Theorem C10_synthesized_step_fields : forall c manual,
  Forall2 (fun chapterNode ch =>
             Forall2 (fun articleNode a =>
                        if noChildren articleNode
                        then exists n,
                            SSArticle.Steps a
                            = [SSStep.mk (ContentNode.ID articleNode)
                                         (ContentNode.Title articleNode)
                                         0%Z
                                         (cleanHTML entity entity2 (mapOrder n)
                                            (getNodeContent articleNode))
                                         (getNodeImages articleNode)]
                        else True)
                     (childNodes chapterNode) (SSChapter.Articles ch))
          (chapterNodes manual) (flatten c manual).
Proof.
  intros c manual.
  eapply Forall2_impl;
    [|apply (flattenStructure_shape entity entity2 mapOrder c manual)].
  intros node ch (_ & _ & _ & H).
  eapply articles_from_each; [|exact H].
  intros anode p a (_ & _ & _ & _ & Hs). cbv beta.
  unfold steps_from in Hs.
  destruct (noChildren anode); [|exact I].
  destruct Hs as (s & -> & n & ->). exists n. reflexivity.
Qed.

End FlattenerClaims.

(** ** The content-block segmenter *)

Lemma update_at_length : forall (A : Type) (f : A -> A) l i,
  List.length (update_at i f l) = List.length l.
Proof.
  induction l as [|x l IH]; intros [|i]; simpl; auto.
Qed.

Lemma update_at_nth_error : forall (A : Type) (f : A -> A) l i j,
  nth_error (update_at i f l) j
  = if Nat.eqb j i then option_map f (nth_error l j) else nth_error l j.
Proof.
  induction l as [|x l IH]; intros [|i] [|j]; simpl; auto;
    destruct (Nat.eqb j i); reflexivity.
Qed.

Lemma update_at_map : forall (A B : Type) (g : A -> B) (f : A -> A) l i,
  (forall x, g (f x) = g x) -> map g (update_at i f l) = map g l.
Proof.
  intros A B g f l i H. revert i.
  induction l as [|x l IH]; intros [|i]; simpl; rewrite ?H, ?IH; auto.
Qed.

Lemma append_id_sort_order : forall id b,
  Block.sort_order (Block.append_id id b) = Block.sort_order b.
Proof. intros id [ ]; reflexivity. Qed.

Lemma append_id_uuid : forall id b,
  Block.uuid (Block.append_id id b) = Block.uuid b.
Proof. intros id [ ]; reflexivity. Qed.

Lemma append_id_is_step : forall id b,
  Block.is_step (Block.append_id id b) = Block.is_step b.
Proof. intros id [ ]; reflexivity. Qed.

Lemma append_id_children : forall id b x,
  In x (Block.content_block_ids (Block.append_id id b)) ->
  In x (Block.content_block_ids b) \/ x = id.
Proof.
  intros id [ ] x; simpl; auto.
  rewrite in_app_iff. simpl. intuition.
Qed.

(** A block keeps its identifier and its kind when a child is recorded
    in the step block. *)
Lemma update_at_keeps : forall id l i j b,
  nth_error l j = Some b ->
  exists b', nth_error (update_at i (Block.append_id id) l) j = Some b'
             /\ Block.uuid b' = Block.uuid b
             /\ Block.is_step b' = Block.is_step b.
Proof.
  intros id l i j b H. rewrite update_at_nth_error, H.
  destruct (Nat.eqb j i); simpl; eexists; split; try reflexivity.
  - split; [apply append_id_uuid | apply append_id_is_step].
  - auto.
Qed.

Lemma contiguous_snoc : forall blocks b,
  contiguous_from_1 blocks ->
  Block.sort_order b = Z.of_nat (S (List.length blocks)) ->
  contiguous_from_1 (blocks ++ [b]).
Proof.
  unfold contiguous_from_1. intros blocks b H Hb.
  rewrite map_app, length_app, H. simpl.
  rewrite Nat.add_1_r, seq_S, map_app. simpl. rewrite Hb. reflexivity.
Qed.

Lemma refs_later_snoc : forall blocks b,
  refs_later blocks -> Block.content_block_ids b = [] ->
  refs_later (blocks ++ [b]).
Proof.
  intros blocks b H Hb i x id Hi Hin.
  destruct (Nat.lt_ge_cases i (List.length blocks)) as [Hlt|Hge].
  - rewrite nth_error_app1 in Hi by assumption.
    destruct (H i x id Hi Hin) as (j & b' & Hj & Hn & Hu).
    exists j, b'. split; [assumption|]. split; [|assumption].
    rewrite nth_error_app1; [assumption|].
    apply nth_error_Some. congruence.
  - rewrite nth_error_app2 in Hi by assumption.
    destruct (i - List.length blocks) as [|k]; simpl in Hi.
    + injection Hi as <-. rewrite Hb in Hin. contradiction.
    + destruct k; discriminate.
Qed.

Section SegmenterFacts.

Variable entity : gostring -> option rune.
Variable entity2 : gostring -> option (rune * rune).
Variable filepath_Join : list gostring -> gostring.
Variable filepath_Base : gostring -> gostring.
Variable unicode_ToLower : rune -> rune.
Variable fmt_d : Z -> gostring.
Variable generateUUID : nat -> gostring.
Variable CreateArticle : nat -> gostring -> gostring -> gostring -> Z -> option Z.
Variable Stat : nat -> gostring -> bool.
Variable UploadImage : nat -> gostring -> gostring -> gostring -> UploadResult.
Variable UpdateArticleContents :
  nat -> gostring -> gostring -> gostring -> list Block.t -> bool -> bool.

#[local] Abbreviation emitPlainText' := (emitPlainText generateUUID).
#[local] Abbreviation processImage' :=
  (processImage entity entity2 filepath_Join filepath_Base fmt_d generateUUID
                Stat UploadImage).
#[local] Abbreviation processMatch' :=
  (processMatch entity entity2 filepath_Join filepath_Base fmt_d generateUUID
                Stat UploadImage).
#[local] Abbreviation processStep' :=
  (processStep entity entity2 filepath_Join filepath_Base unicode_ToLower fmt_d
               generateUUID Stat UploadImage).
#[local] Abbreviation articleBlocks' :=
  (articleBlocks entity entity2 filepath_Join filepath_Base unicode_ToLower
                 fmt_d generateUUID Stat UploadImage).

Lemma emit_ok : forall stepIdx block bs,
  blocks_ok bs ->
  stepIdx < List.length (contentBlocks bs) ->
  Block.sort_order block = sortOrder bs ->
  Block.is_step block = false ->
  blocks_ok (emit stepIdx block bs)
  /\ stepIdx < List.length (contentBlocks (emit stepIdx block bs)).
Proof.
  intros stepIdx block bs (Hc & Hs & Hr) Hlt Hso Hns.
  unfold emit, blocks_ok. simpl.
  rewrite update_at_length, length_app. simpl.
  split; [|lia]. split; [|split].
  - unfold contiguous_from_1.
    rewrite update_at_length, update_at_map by apply append_id_sort_order.
    apply contiguous_snoc; [assumption | congruence].
  - rewrite Hs. lia.
  - intros i b id Hi Hin.
    rewrite update_at_nth_error in Hi.
    assert (Hold : forall x, In x (Block.content_block_ids b) ->
                   (exists b0, nth_error (contentBlocks bs) i = Some b0
                               /\ In x (Block.content_block_ids b0))
                   \/ (i = stepIdx /\ x = Block.uuid block)).
    { intros x Hx. destruct (Nat.eqb i stepIdx) eqn:E.
      - apply Nat.eqb_eq in E. subst i.
        rewrite nth_error_app1 in Hi by assumption.
        destruct (nth_error (contentBlocks bs) stepIdx) as [b0|] eqn:E0;
          [|discriminate].
        simpl in Hi. injection Hi as <-.
        apply append_id_children in Hx. destruct Hx as [Hx| ->]; eauto.
      - left. destruct (Nat.lt_ge_cases i (List.length (contentBlocks bs)))
          as [Hi'|Hi'].
        + rewrite nth_error_app1 in Hi by assumption. eauto.
        + rewrite nth_error_app2 in Hi by assumption.
          destruct (i - List.length (contentBlocks bs)) as [|k]; simpl in Hi.
          * injection Hi as <-. destruct block; try discriminate; contradiction.
          * destruct k; discriminate. }
    destruct (Hold id Hin) as [(b0 & Hb0 & Hin0)|(-> & ->)].
    + destruct (Hr i b0 id Hb0 Hin0) as (j & b' & Hj & Hn & Hu & Hst).
      assert (Hn' : nth_error (contentBlocks bs ++ [block]) j = Some b').
      { rewrite nth_error_app1; [assumption|].
        apply nth_error_Some. congruence. }
      destruct (update_at_keeps (Block.uuid block) _ stepIdx _ _ Hn')
        as (b'' & Hb'' & Hu'' & Hs'').
      exists j, b''. repeat split; congruence.
    + assert (Hn' : nth_error (contentBlocks bs ++ [block])
                              (List.length (contentBlocks bs)) = Some block).
      { rewrite nth_error_app2, Nat.sub_diag by lia. reflexivity. }
      destruct (update_at_keeps (Block.uuid block) _ stepIdx _ _ Hn')
        as (b'' & Hb'' & Hu'' & Hs'').
      exists (List.length (contentBlocks bs)), b''.
      repeat split; congruence.
Qed.

Lemma emitted_ok : forall stepIdx bs bs',
  emitted stepIdx bs bs' ->
  blocks_ok bs -> stepIdx < List.length (contentBlocks bs) ->
  blocks_ok bs' /\ stepIdx < List.length (contentBlocks bs').
Proof.
  intros stepIdx bs bs' H. induction H as [bs|bs block bs' Hso Hns _ IH];
    intros Hok Hlt; [auto|].
  destruct (emit_ok stepIdx block bs Hok Hlt Hso Hns). auto.
Qed.

Lemma emitted_trans : forall stepIdx bs1 bs2 bs3,
  emitted stepIdx bs1 bs2 -> emitted stepIdx bs2 bs3 -> emitted stepIdx bs1 bs3.
Proof.
  intros stepIdx bs1 bs2 bs3 H. induction H; intros H3; [assumption|].
  econstructor; eauto.
Qed.

Lemma emitted_one : forall stepIdx block bs,
  Block.sort_order block = sortOrder bs -> Block.is_step block = false ->
  emitted stepIdx bs (emit stepIdx block bs).
Proof. intros. econstructor; eauto. constructor. Qed.

Lemma emitPlainText_emitted : forall stepIdx text bs r,
  emitted stepIdx bs (fst (emitPlainText' stepIdx text bs r)).
Proof.
  intros stepIdx text bs r. unfold emitPlainText.
  destruct (negb _); simpl; [apply emitted_one; reflexivity | constructor].
Qed.

Lemma processImage_emitted :
  forall siteID chapter article step articleID imagesDir stepIdx blockHTML
         bs r bs' r',
  processImage' siteID chapter article step articleID imagesDir stepIdx
               blockHTML bs r = Some (bs', r') ->
  emitted stepIdx bs bs'.
Proof.
  intros until r'. unfold processImage.
  destruct (FindStringSubmatch imgTagRegex 1 blockHTML) as [[|w [|srcAttr l]]|];
    try (intros [= <- <-]; constructor).
  destruct (Stat _ _); [|intros [= <- <-]; constructor].
  destruct (UploadImage _ _ _ _) as [|[fileData|]];
    try (intros [= <- <-]; constructor).
  destruct (FileData.id fileData); [|intros [= <- <-]; constructor].
  destruct (FileData.width fileData); [|discriminate].
  destruct (FileData.height fileData); [|discriminate].
  destruct (FileData.url fileData); [|discriminate].
  intros [= <- <-]. apply emitted_one; reflexivity.
Qed.

Lemma processMatch_emitted :
  forall siteID chapter article step articleID imagesDir stepIdx
         lastIndex bs r mi lastIndex' bs' r',
  processMatch' siteID chapter article step articleID imagesDir stepIdx
               (Some (lastIndex, bs, r)) mi = Some (lastIndex', bs', r') ->
  emitted stepIdx bs bs'.
Proof.
  intros until r'. unfold processMatch. destruct mi as [start end_].
  assert (Ht := emitPlainText_emitted stepIdx
                  (slice (SSStep.Content step) lastIndex start) bs r).
  destruct (emitPlainText _ _ _ _ _) as [bs1 r1]. simpl in Ht.
  destruct (Strings.HasPrefix _ (str "<img")).
  - destruct (processImage' siteID chapter article step articleID imagesDir
                           stepIdx (slice (SSStep.Content step) start end_)
                           bs1 r1)
      as [[bs2 r2]|] eqn:E; [|discriminate].
    intros [= _ <- _]. eapply emitted_trans; [exact Ht|].
    eapply processImage_emitted; exact E.
  - destruct (Strings.HasPrefix _ _).
    + intros [= _ <- _]. eapply emitted_trans; [exact Ht|].
      apply emitted_one; reflexivity.
    + destruct (Strings.HasPrefix _ _).
      * destruct (FindStringSubmatch _ _ _) as [[|w [|style [|inner l]]]|];
          intros [= _ <- _]; try exact Ht.
        eapply emitted_trans; [exact Ht|]. apply emitted_one; reflexivity.
      * intros [= _ <- _]. exact Ht.
Qed.

Lemma processMatch_None :
  forall siteID chapter article step articleID imagesDir stepIdx indexes,
  fold_left (processMatch' siteID chapter article step articleID imagesDir stepIdx)
            indexes None = None.
Proof. intros until indexes. induction indexes; simpl; auto. Qed.

Lemma processMatch_fold_emitted :
  forall siteID chapter article step articleID imagesDir stepIdx indexes
         lastIndex bs r lastIndex' bs' r',
  fold_left (processMatch' siteID chapter article step articleID imagesDir stepIdx)
            indexes (Some (lastIndex, bs, r)) = Some (lastIndex', bs', r') ->
  emitted stepIdx bs bs'.
Proof.
  intros siteID chapter article step articleID imagesDir stepIdx.
  induction indexes as [|mi indexes IH]; intros until r'; cbn [fold_left].
  - intros [= _ <- _]. constructor.
  - destruct (processMatch' siteID chapter article step articleID imagesDir
                stepIdx (Some (lastIndex, bs, r)) mi) as [[[l1 bs1] r1]|] eqn:E.
    + intros H. eapply emitted_trans.
      * eapply processMatch_emitted; exact E.
      * eapply IH; exact H.
    + rewrite processMatch_None. discriminate.
Qed.

Lemma processStep_ok :
  forall siteID chapter article articleID imagesDir step bs r bs' r',
  processStep' siteID chapter article articleID imagesDir (Some (bs, r)) step
  = Some (bs', r') ->
  blocks_ok bs -> blocks_ok bs'.
Proof.
  intros until r'. unfold processStep.
  match goal with
  | |- context [fold_left ?f ?l (Some (0, ?b, ?r0))] =>
      destruct (fold_left f l (Some (0, b, r0))) as [[[l1 bs1] r1]|] eqn:E;
      [|discriminate]
  end.
  intros H (Hc & Hs & Hr).
  apply processMatch_fold_emitted in E.
  assert (Hp := emitPlainText_emitted (List.length (contentBlocks bs))
                  (skipn l1 (SSStep.Content step)) bs1 r1).
  destruct (emitPlainText _ _ _ _ _) as [bs2 r2].
  injection H as <- <-. simpl in Hp.
  refine (proj1 (emitted_ok _ _ _ (emitted_trans _ _ _ _ E Hp) _ _)).
  - unfold blocks_ok. simpl. split; [|split].
    + apply contiguous_snoc; [assumption|]. simpl. assumption.
    + rewrite length_app. simpl. rewrite Hs. lia.
    + apply refs_later_snoc; [assumption | reflexivity].
  - simpl. rewrite length_app. simpl. lia.
Qed.

Lemma processStep_None :
  forall siteID chapter article articleID imagesDir steps,
  fold_left (processStep' siteID chapter article articleID imagesDir) steps None
  = None.
Proof. intros until steps. induction steps; simpl; auto. Qed.

Lemma processStep_fold_ok :
  forall siteID chapter article articleID imagesDir steps bs r bs' r',
  fold_left (processStep' siteID chapter article articleID imagesDir) steps
            (Some (bs, r)) = Some (bs', r') ->
  blocks_ok bs -> blocks_ok bs'.
Proof.
  intros siteID chapter article articleID imagesDir.
  induction steps as [|step steps IH]; intros bs r bs' r'; cbn [fold_left].
  - intros [= <- _]. auto.
  - destruct (processStep' siteID chapter article articleID imagesDir
                          (Some (bs, r)) step) as [[bs1 r1]|] eqn:E.
    + intros H Hok. eapply IH; [exact H|].
      eapply processStep_ok; eassumption.
    + rewrite processStep_None. discriminate.
Qed.

(** C1 (amended).  The content blocks generated for an article have the
    sort orders 1, 2, ..., n in list order, and every identifier in the
    child-identifier list of a StepContent block is the identifier of a
    block further down the list that is not itself a StepContent block. *)
Theorem C1_block_list_invariant :
  forall siteID chapter article articleID imagesDir r bs r',
  articleBlocks' siteID chapter article articleID imagesDir r = Some (bs, r') ->
  contiguous_from_1 (contentBlocks bs) /\ refs_later (contentBlocks bs).
Proof.
  intros siteID chapter article articleID imagesDir r bs r' H.
  apply processStep_fold_ok in H.
  - destruct H as (Hc & _ & Hr). split; assumption.
  - unfold blocks_ok. simpl. repeat split.
    intros [|i] b id Hi; discriminate.
Qed.

End SegmenterFacts.

(** C1, an instance: the article of the example, every image uploaded. *)
Lemma C1_block_list_invariant_witness :
  Example.uploadAccepted = Some (Example.blocksAccepted, Example.runAccepted)
  /\ contiguous_from_1 (contentBlocks Example.blocksAccepted)
  /\ refs_later (contentBlocks Example.blocksAccepted).
Proof.
  split; [vm_compute; reflexivity|].
  apply (C1_block_list_invariant
           Example.entity Example.entity2 Example.join Example.base
           Example.toLower Example.fmt_d Example.generateUUID
           Example.StatPresent Example.UploadAccepted
           (str "site") Example.chapter Example.article 7%Z Example.imagesDir
           Example.run0 Example.blocksAccepted Example.runAccepted).
  vm_compute; reflexivity.
Defined.

(** C1 as stated fails: in the article of the example the first child of
    the step block is the text block that follows it; no block at the
    offset of the step block or before it carries that identifier. *)
Lemma C1_refs_not_later_counterexample :
  Example.uploadMissing = Some (Example.blocksMissing, Example.runMissing)
  /\ ~ refs_not_later (contentBlocks Example.blocksMissing).
Proof.
  split; [vm_compute; reflexivity|].
  intros H.
  destruct (H 0 (Block.StepContent (str "uuid-0") (str "First Step") 0 1
                   [str "uuid-1"; str "uuid-3"] (str "first-step") false false)
              (str "uuid-1") eq_refl (or_introl eq_refl))
    as (j & b' & Hj & Hn & Hu).
  assert (j = 0) by lia. subst j.
  vm_compute in Hn. injection Hn as <-. vm_compute in Hu. discriminate.
Qed.

(** ** Skipped images *)









Section SkippedFacts.

Variable entity : gostring -> option rune.
Variable entity2 : gostring -> option (rune * rune).
Variable filepath_Join : list gostring -> gostring.
Variable filepath_Base : gostring -> gostring.
Variable unicode_ToLower : rune -> rune.
Variable fmt_d : Z -> gostring.
Variable generateUUID : nat -> gostring.
Variable CreateArticle : nat -> gostring -> gostring -> gostring -> Z -> option Z.
Variable Stat : nat -> gostring -> bool.
Variable UploadImage : nat -> gostring -> gostring -> gostring -> UploadResult.
Variable UpdateArticleContents :
  nat -> gostring -> gostring -> gostring -> list Block.t -> bool -> bool.

#[local] Abbreviation emitPlainText' := (emitPlainText generateUUID).
#[local] Abbreviation processImage' :=
  (processImage entity entity2 filepath_Join filepath_Base fmt_d generateUUID
                Stat UploadImage).
#[local] Abbreviation processMatch' :=
  (processMatch entity entity2 filepath_Join filepath_Base fmt_d generateUUID
                Stat UploadImage).
#[local] Abbreviation processStep' :=
  (processStep entity entity2 filepath_Join filepath_Base unicode_ToLower fmt_d
               generateUUID Stat UploadImage).
#[local] Abbreviation articleBlocks' :=
  (articleBlocks entity entity2 filepath_Join filepath_Base unicode_ToLower
                 fmt_d generateUUID Stat UploadImage).
#[local] Abbreviation uploadArticle' :=
  (uploadArticle entity entity2 filepath_Join filepath_Base unicode_ToLower
                 fmt_d generateUUID CreateArticle Stat UploadImage
                 UpdateArticleContents).
#[local] Abbreviation uploadChapters' :=
  (uploadChapters entity entity2 filepath_Join filepath_Base unicode_ToLower
                  fmt_d generateUUID CreateArticle Stat UploadImage
                  UpdateArticleContents).









Lemma uploadArticle_None :
  forall contentDir siteID chapterID chapter articles,
  fold_left (uploadArticle' contentDir siteID chapterID chapter) articles None
  = None.
Proof. intros until articles. induction articles; simpl; auto. Qed.


Lemma uploadChapters_None :
  forall contentDir siteID chapterMap chapters chapterIdx,
  uploadChapters' contentDir siteID chapterMap chapterIdx chapters None = None.
Proof.
  intros contentDir siteID chapterMap.
  induction chapters as [|ch chapters IH]; intros chapterIdx; simpl; auto.
  rewrite uploadArticle_None. apply IH.
Qed.



End SkippedFacts.


(** ** Replacing the runs of a class *)

Lemma span_run : forall (P : rune -> bool) s,
  exists run t, s = run ++ t /\ forallb P run = true /\ stops P t.
Proof.
  intros P. induction s as [|c s IH].
  - exists [], []. repeat split.
  - destruct (P c) eqn:E.
    + destruct IH as (run & t & -> & Hrun & Ht).
      exists (c :: run), t. cbn [forallb]. rewrite E. repeat split; assumption.
    + exists [], (c :: s). repeat split. exact E.
Qed.

Lemma collapse_inrun : forall P new run t,
  forallb P run = true -> stops P t ->
  collapse P new true (run ++ t) = collapse P new false t.
Proof.
  intros P new. induction run as [|c run IH]; intros t Hrun Ht.
  - destruct t as [|c t]; [reflexivity|]. cbn [app collapse].
    cbn [stops] in Ht. rewrite Ht. reflexivity.
  - cbn [forallb] in Hrun. apply andb_true_iff in Hrun.
    destruct Hrun as [Hc Hrun]. cbn [app collapse]. rewrite Hc.
    apply IH; assumption.
Qed.

Lemma collapse_run : forall P new run t,
  run <> [] -> forallb P run = true -> stops P t ->
  collapse P new false (run ++ t) = new ++ collapse P new false t.
Proof.
  intros P new [|c run] t Hne Hrun Ht; [contradiction|].
  cbn [forallb] in Hrun. apply andb_true_iff in Hrun.
  destruct Hrun as [Hc Hrun]. cbn [app collapse]. rewrite Hc.
  rewrite collapse_inrun by assumption. reflexivity.
Qed.

Lemma plus_class_miss : forall P p pv c t,
  P c = false -> match_here (Plus true (Cls P)) p pv (c :: t) = None.
Proof.
  intros P p pv c t H. unfold match_here, Plus. rewrite m_Cat.
  cbn [m rest]. rewrite H. reflexivity.
Qed.

Lemma plus_class_hit : forall P p pv run t,
  run <> [] -> forallb P run = true -> stops P t ->
  match_here (Plus true (Cls P)) p pv (run ++ t)
  = Some (Found p (List.length run + p) []).
Proof.
  intros P p pv run t Hne Hrun Ht. unfold match_here.
  rewrite (m_plus_greedy_all accept P (List.length run + p, []));
    [reflexivity|assumption|assumption|assumption|reflexivity].
Qed.

Lemma replace_plus_class_from : forall P new n s,
  List.length s <= n ->
  forall pre0 mid pv resume pe,
    resume <= List.length (pre0 ++ mid) ->
    replace_matches (pre0 ++ mid ++ s) (List.length pre0)
      (find_all_from (Plus true (Cls P)) (List.length (pre0 ++ mid)) pv s
                     resume pe)
      (fun _ => new)
    = mid ++ collapse P new false s.
Proof.
  intros P new. induction n as [|n IH]; intros s Hlen pre0 mid pv resume pe Hres.
  - destruct s; [|simpl in Hlen; lia].
    rewrite find_all_none.
    + cbn [replace_matches collapse]. rewrite skipn_app, skipn_all, Nat.sub_diag.
      reflexivity.
    + intros post1 post2 E. destruct post1, post2; try discriminate.
      reflexivity.
  - destruct s as [|c t].
    + rewrite find_all_none.
      * cbn [replace_matches collapse].
        rewrite skipn_app, skipn_all, Nat.sub_diag. reflexivity.
      * intros post1 post2 E. destruct post1, post2; try discriminate.
        reflexivity.
    + destruct (P c) eqn:Hc.
      * destruct (span_run P (c :: t)) as (run & t' & E & Hrun & Ht).
        assert (Hne : run <> []).
        { intros ->. cbn [app] in E. subst t'. cbn [stops] in Ht. congruence. }
        rewrite E.
        rewrite (find_all_hit_nonempty _ _ _ _ _ _ _ []);
          [|assumption|assumption|apply plus_class_hit; assumption].
        cbn [replace_matches m_start m_end].
        rewrite collapse_run by assumption.
        replace (slice (pre0 ++ mid ++ run ++ t') (List.length pre0)
                       (List.length (pre0 ++ mid)))
          with mid
          by (symmetry; apply slice_at; [reflexivity|reflexivity]).
        f_equal. f_equal.
        replace (List.length run + List.length (pre0 ++ mid))
          with (List.length (pre0 ++ mid ++ run)) by lens.
        replace (pre0 ++ mid ++ run ++ t')
          with ((pre0 ++ mid ++ run) ++ [] ++ t')
          by (rewrite <- !app_assoc; reflexivity).
        replace (List.length (pre0 ++ mid ++ run))
          with (List.length ((pre0 ++ mid ++ run) ++ [])) at 2
          by (rewrite app_nil_r; reflexivity).
        apply (IH t').
        -- apply (f_equal (@List.length rune)) in E.
           rewrite length_app in E. destruct run; [contradiction|].
           simpl in E, Hlen. lia.
        -- rewrite app_nil_r. apply Nat.le_refl.
      * change (c :: t) with ([c] ++ t).
        rewrite find_all_skip.
        -- cbn [collapse app]. rewrite Hc.
           replace (List.length [c] + List.length (pre0 ++ mid))
             with (List.length (pre0 ++ (mid ++ [c]))) by lens.
           replace (pre0 ++ mid ++ c :: t) with (pre0 ++ (mid ++ [c]) ++ t)
             by (rewrite <- !app_assoc; reflexivity).
           rewrite (IH t); [rewrite <- app_assoc; reflexivity| |].
           ++ simpl in Hlen. lia.
           ++ rewrite !length_app in *. simpl. lia.
        -- intros pre1 pre2 E Hne. destruct pre1 as [|x pre1].
           ++ cbn [app] in E. subst pre2. apply plus_class_miss. assumption.
           ++ destruct pre1; destruct pre2; try discriminate. contradiction.
Qed.

(** [ReplaceAllString] with a pattern [[class]+] replaces each maximal
    run of the class. *)
Lemma replace_plus_class : forall P new s,
  ReplaceAllLiteral (Plus true (Cls P)) s new = collapse P new false s.
Proof.
  intros P new s. unfold ReplaceAllLiteral, find_all.
  apply (replace_plus_class_from P new (List.length s) s (Nat.le_refl _)
           [] [] None 0 None).
  apply Nat.le_refl.
Qed.

Lemma collapse_remove : forall P inrun s,
  collapse P [] inrun s = filter (fun c => negb (P c)) s.
Proof.
  intros P inrun s. revert inrun.
  induction s as [|c s IH]; intros inrun; [reflexivity|].
  cbn [collapse filter]. destruct (P c); cbn [negb].
  - destruct inrun; cbn [app]; apply IH.
  - rewrite IH. reflexivity.
Qed.

(** ** Anchor names *)

Lemma filter_negb_negb : forall (P : rune -> bool) s,
  filter (fun c => negb (negb (P c))) s = filter P s.
Proof.
  intros P s. apply filter_ext. intros c. apply negb_involutive.
Qed.

Lemma filter_all : forall (P : rune -> bool) s,
  forallb P s = true -> filter P s = s.
Proof.
  intros P. induction s as [|c s IH]; intros H; [reflexivity|].
  cbn [forallb] in H. apply andb_true_iff in H. destruct H as [Hc Hs].
  cbn [filter]. rewrite Hc, IH by assumption. reflexivity.
Qed.

Lemma forallb_filter : forall (P : rune -> bool) s,
  forallb P (filter P s) = true.
Proof.
  intros P. induction s as [|c s IH]; [reflexivity|].
  cbn [filter]. destruct (P c) eqn:E; [|assumption].
  cbn [forallb]. rewrite E, IH. reflexivity.
Qed.

Lemma slugify_filter : forall unicode_ToLower text,
  slugify unicode_ToLower text
  = filter slugRune
           (map (fun c => if N.eqb c 32 then 45%N else c)
                (map unicode_ToLower text)).
Proof.
  intros toLower text. unfold slugify, slugPattern.
  rewrite replace_plus_class, collapse_remove.
  apply filter_negb_negb.
Qed.

(** X1.  [slugify] keeps, in order, the runes of the lower-cased text
    that are lower-case ASCII letters, digits or hyphens, a blank
    counting as a hyphen, and drops every other rune: an anchor name
    holds only runes of [a-z0-9-], and is never longer than the title. *)
Theorem X1_slugify_alphabet : forall unicode_ToLower text,
  slugify unicode_ToLower text
  = filter slugRune
           (map (fun c => if N.eqb c 32 then 45%N else c)
                (map unicode_ToLower text))
  /\ forallb slugRune (slugify unicode_ToLower text) = true
  /\ List.length (slugify unicode_ToLower text) <= List.length text.
Proof.
  intros toLower text. rewrite slugify_filter.
  split; [reflexivity|]. split; [apply forallb_filter|].
  etransitivity; [apply filter_length_le|]. rewrite !length_map.
  apply Nat.le_refl.
Qed.

(** X2.  When lower-casing leaves lower-case ASCII letters, digits and
    the hyphen as they are, as [unicode.ToLower] does, [slugify] is
    idempotent: the slug of a slug is the slug. *)
Theorem X2_slugify_idempotent : forall unicode_ToLower text,
  (forall c, slugRune c = true -> unicode_ToLower c = c) ->
  slugify unicode_ToLower (slugify unicode_ToLower text)
  = slugify unicode_ToLower text.
Proof.
  intros toLower text Hlow.
  assert (Hall : forallb slugRune (slugify toLower text) = true)
    by (rewrite slugify_filter; apply forallb_filter).
  rewrite (slugify_filter toLower (slugify toLower text)).
  set (l := slugify toLower text) in *. clearbody l.
  assert (E1 : map toLower l = l).
  { rewrite <- (map_id l) at 2. apply map_ext_in. intros c Hin.
    apply Hlow. rewrite forallb_forall in Hall. apply Hall. assumption. }
  rewrite E1.
  assert (E2 : map (fun c => if N.eqb c 32 then 45%N else c) l = l).
  { rewrite <- (map_id l) at 2. apply map_ext_in. intros c Hin.
    rewrite forallb_forall in Hall. specialize (Hall c Hin).
    destruct (N.eqb_spec c 32); [subst c; discriminate|reflexivity]. }
  rewrite E2. apply filter_all. assumption.
Qed.

(** X2, an instance: ASCII lower-casing and a title with capitals, blanks
    and punctuation. *)
Lemma X2_slugify_idempotent_witness :
  (forall c, slugRune c = true -> Example.toLower c = c)
  /\ slugify Example.toLower (str "Step 1: Open the Console!")
     = str "step-1-open-the-console"
  /\ slugify Example.toLower
             (slugify Example.toLower (str "Step 1: Open the Console!"))
     = slugify Example.toLower (str "Step 1: Open the Console!").
Proof.
  assert (H : forall c, slugRune c = true -> Example.toLower c = c).
  { intros c Hc. unfold Example.toLower.
    destruct ((65 <=? c) && (c <=? 90))%N eqn:E; [|reflexivity].
    apply andb_true_iff in E. destruct E as [E1 E2].
    apply N.leb_le in E1, E2. unfold slugRune in Hc.
    repeat (apply orb_true_iff in Hc; destruct Hc as [Hc|Hc]).
    - apply andb_true_iff in Hc. destruct Hc as [H1 H2].
      apply N.leb_le in H1. lia.
    - apply andb_true_iff in Hc. destruct Hc as [H1 H2].
      apply N.leb_le in H2. lia.
    - apply N.eqb_eq in Hc. lia. }
  split; [exact H|]. split; [vm_compute; reflexivity|].
  exact (X2_slugify_idempotent Example.toLower
           (str "Step 1: Open the Console!") H).
Defined.

(** ** Text the rewriter leaves alone *)

Lemma Index_none_longer : forall a b s,
  Strings.Index s a = None -> Strings.Index s (a ++ b) = None.
Proof.
  intros a b. induction s as [|c s IH]; intros H.
  - cbn [Strings.Index] in *.
    destruct (Strings.HasPrefix [] a) eqn:E; [discriminate|].
    rewrite HasPrefix_longer by assumption. reflexivity.
  - cbn [Strings.Index] in *.
    destruct (Strings.HasPrefix (c :: s) a) eqn:E; [discriminate|].
    rewrite HasPrefix_longer by assumption.
    destruct (Strings.Index s a) eqn:E2; [discriminate|].
    rewrite IH by reflexivity. reflexivity.
Qed.

Lemma Contains_longer : forall a b s,
  Strings.Contains s a = false -> Strings.Contains s (a ++ b) = false.
Proof.
  intros a b s H. unfold Strings.Contains in *.
  destruct (Strings.Index s a) eqn:E; [discriminate|].
  rewrite Index_none_longer by assumption. reflexivity.
Qed.

Lemma replace_none : forall s repl, replace_matches s 0 [] repl = s.
Proof. reflexivity. Qed.

Lemma youtubePattern_requires_div : requires (str "<div") youtubePattern.
Proof. unfold youtubePattern, Seq. cbn [fold_right]. apply requires_here. Qed.

Lemma thumbUrlPattern_requires_div : requires (str "<div") thumbUrlPattern.
Proof. unfold thumbUrlPattern, Seq. cbn [fold_right]. apply requires_here. Qed.

Lemma groupPattern_requires_p : forall pClass,
  requires (str "<p") (groupPattern pClass).
Proof.
  intros pClass. unfold groupPattern, Plus.
  apply requires_Group, requires_first, requires_first.
  unfold pTagPattern, Seq. cbn [fold_right]. apply requires_here.
Qed.

Lemma spanRegex_requires_span : requires (str "<span") spanRegex.
Proof. unfold spanRegex, Seq. cbn [fold_right]. apply requires_here. Qed.

Lemma emptySpanPattern_requires_span : requires (str "<span") emptySpanPattern.
Proof. unfold emptySpanPattern, Seq. cbn [fold_right]. apply requires_here. Qed.

Lemma olStartPattern_requires_ol : requires (str "<ol") olStartPattern.
Proof.
  unfold olStartPattern, Seq. cbn [fold_right].
  apply requires_first, requires_Group, requires_here.
Qed.

Lemma srcPrefixPattern_requires_src : requires (str "src=") srcPrefixPattern.
Proof. unfold srcPrefixPattern, Seq. cbn [fold_right]. apply requires_here. Qed.

Lemma convertYouTubeEmbeds_inert : forall s,
  Strings.Contains s (str "<div") = false -> convertYouTubeEmbeds s = s.
Proof.
  intros s H. unfold convertYouTubeEmbeds, FindAllStringSubmatch.
  rewrite (requires_find_all (str "<div") youtubePattern s
             youtubePattern_requires_div H).
  cbn [map fold_left].
  rewrite (requires_find_all (str "<div") thumbUrlPattern s
             thumbUrlPattern_requires_div H).
  reflexivity.
Qed.

Lemma convertVLPParagraphStyles_inert : forall order s,
  Strings.Contains s (str "<p") = false ->
  convertVLPParagraphStyles order s = s.
Proof.
  intros order s H. unfold convertVLPParagraphStyles.
  induction order as [|e order IH]; [reflexivity|].
  cbn [fold_left]. unfold convertParagraphClass at 2, ReplaceAllStringFunc.
  rewrite (requires_find_all (str "<p") _ s (groupPattern_requires_p _) H).
  exact IH.
Qed.

Lemma convertVLPFormatting_inert : forall order s,
  Strings.Contains s (str "<div") = false ->
  Strings.Contains s (str "<p") = false ->
  Strings.Contains s (str "<span") = false ->
  Strings.Contains s (str "<ol") = false ->
  convertVLPFormatting order s = s.
Proof.
  intros order s Hdiv Hp Hspan Hol. unfold convertVLPFormatting.
  destruct s as [|c s]; [reflexivity|].
  rewrite convertYouTubeEmbeds_inert by assumption.
  rewrite convertVLPParagraphStyles_inert by assumption.
  unfold convertSpans, ReplaceAllStringFunc.
  rewrite (requires_find_all (str "<span") spanRegex _
             spanRegex_requires_span Hspan).
  rewrite replace_none.
  unfold stripEmptySpans, ReplaceAllLiteral.
  rewrite (requires_find_all (str "<span") emptySpanPattern _
             emptySpanPattern_requires_span Hspan).
  rewrite replace_none.
  unfold ReplaceAllGroup1.
  rewrite (requires_find_all (str "<ol") olStartPattern _
             olStartPattern_requires_ol Hol).
  reflexivity.
Qed.

Lemma unescape_no_amp : forall entity entity2 s,
  Strings.Contains s [Html.amp] = false ->
  Html.UnescapeString entity entity2 s = s.
Proof.
  intros entity entity2 s H.
  rewrite <- (app_nil_r s) at 1. rewrite unescape_text; [apply app_nil_r|].
  induction s as [|c s IH]; [reflexivity|].
  unfold Strings.Contains in H. cbn [Strings.Index Strings.HasPrefix] in H.
  destruct (N.eqb_spec Html.amp c) as [E|E]; [discriminate|].
  cbn [andb] in H. cbn [forallb].
  destruct (N.eqb_spec c Html.amp) as [E'|E']; [congruence|].
  cbn [negb andb]. apply IH. unfold Strings.Contains.
  destruct (Strings.Index s [Html.amp]); [discriminate|reflexivity].
Qed.

(** X3.  A text that holds none of [<div], [<p], [<span] and [<ol] is
    returned unchanged by [convertVLPFormatting], in every iteration
    order of the class map; when it also holds no ampersand and no
    [src=], [cleanHTML] only trims the white space around it. *)
Theorem X3_plain_text_is_kept : forall entity entity2 order s,
  Strings.Contains s (str "<div") = false ->
  Strings.Contains s (str "<p") = false ->
  Strings.Contains s (str "<span") = false ->
  Strings.Contains s (str "<ol") = false ->
  convertVLPFormatting order s = s
  /\ (Strings.Contains s (str "&") = false ->
      Strings.Contains s (str "src=") = false ->
      cleanHTML entity entity2 order s = Strings.TrimSpace s).
Proof.
  intros entity entity2 order s Hdiv Hp Hspan Hol.
  split; [apply convertVLPFormatting_inert; assumption|].
  intros Hamp Hsrc. unfold cleanHTML, decodeEntities.
  change (str "&") with [Html.amp] in Hamp.
  destruct s as [|c s]; [reflexivity|].
  rewrite !(unescape_no_amp entity entity2 (c :: s) Hamp).
  rewrite convertVLPFormatting_inert by assumption.
  unfold ReplaceAllLiteral.
  rewrite (requires_find_all (str "src=") srcPrefixPattern _
             srcPrefixPattern_requires_src Hsrc).
  reflexivity.
Qed.

(** X3, an instance: a heading and a list between blanks. *)
Lemma X3_plain_text_is_kept_witness :
  Strings.Contains (str " <h2>Goal</h2><ul><li>one</li></ul> ") (str "<div")
  = false
  /\ Strings.Contains (str " <h2>Goal</h2><ul><li>one</li></ul> ") (str "<p")
     = false
  /\ Strings.Contains (str " <h2>Goal</h2><ul><li>one</li></ul> ") (str "<span")
     = false
  /\ Strings.Contains (str " <h2>Goal</h2><ul><li>one</li></ul> ") (str "<ol")
     = false
  /\ Strings.Contains (str " <h2>Goal</h2><ul><li>one</li></ul> ") (str "&")
     = false
  /\ Strings.Contains (str " <h2>Goal</h2><ul><li>one</li></ul> ") (str "src=")
     = false
  /\ convertVLPFormatting (rev pClassToStyleMap)
       (str " <h2>Goal</h2><ul><li>one</li></ul> ")
     = str " <h2>Goal</h2><ul><li>one</li></ul> "
  /\ cleanHTML Example.entity Example.entity2 (rev pClassToStyleMap)
       (str " <h2>Goal</h2><ul><li>one</li></ul> ")
     = str "<h2>Goal</h2><ul><li>one</li></ul>".
Proof.
  do 6 (split; [reflexivity|]).
  pose proof (X3_plain_text_is_kept Example.entity Example.entity2
                (rev pClassToStyleMap)
                (str " <h2>Goal</h2><ul><li>one</li></ul> ")
                eq_refl eq_refl eq_refl eq_refl) as [T1 T2].
  split; [exact T1|exact (T2 eq_refl eq_refl)].
Defined.

(** ** The white space around cleaned content *)

Lemma TrimLeft_head : forall s c t,
  Strings.TrimLeft s = c :: t -> Strings.IsSpace c = false.
Proof.
  induction s as [|x s IH]; intros c t H; [discriminate|].
  cbn [Strings.TrimLeft] in H. destruct (Strings.IsSpace x) eqn:E.
  - eapply IH. eassumption.
  - inversion H. subst. assumption.
Qed.

Lemma TrimLeft_fix : forall s,
  (forall c t, s = c :: t -> Strings.IsSpace c = false) ->
  Strings.TrimLeft s = s.
Proof.
  intros [|c s] H; [reflexivity|].
  cbn [Strings.TrimLeft]. rewrite (H c s eq_refl). reflexivity.
Qed.

Lemma TrimLeft_suffix : forall s, exists a, s = a ++ Strings.TrimLeft s.
Proof.
  induction s as [|c s IH]; [exists []; reflexivity|].
  cbn [Strings.TrimLeft]. destruct (Strings.IsSpace c).
  - destruct IH as (a & E). exists (c :: a). cbn [app]. rewrite <- E.
    reflexivity.
  - exists []. reflexivity.
Qed.

Lemma TrimSpace_first : forall s c t,
  Strings.TrimSpace s = c :: t -> Strings.IsSpace c = false.
Proof.
  intros s c t H. unfold Strings.TrimSpace in H.
  destruct (TrimLeft_suffix (rev (Strings.TrimLeft s))) as (a & E).
  apply (f_equal (@rev rune)) in E. rewrite rev_involutive, rev_app_distr in E.
  rewrite H in E. cbn [app] in E.
  eapply TrimLeft_head. eassumption.
Qed.

Lemma TrimSpace_last : forall s t c,
  Strings.TrimSpace s = t ++ [c] -> Strings.IsSpace c = false.
Proof.
  intros s t c H. unfold Strings.TrimSpace in H.
  apply (f_equal (@rev rune)) in H.
  rewrite rev_involutive, rev_app_distr in H. cbn [rev app] in H.
  eapply TrimLeft_head. eassumption.
Qed.

Lemma TrimSpace_fix : forall r,
  (forall c t, r = c :: t -> Strings.IsSpace c = false) ->
  (forall t c, r = t ++ [c] -> Strings.IsSpace c = false) ->
  Strings.TrimSpace r = r.
Proof.
  intros r Hfirst Hlast. unfold Strings.TrimSpace.
  rewrite (TrimLeft_fix r Hfirst).
  rewrite TrimLeft_fix; [apply rev_involutive|].
  intros c t E. apply (Hlast (rev t) c).
  apply (f_equal (@rev rune)) in E. rewrite rev_involutive in E.
  exact E.
Qed.

Lemma TrimSpace_idempotent : forall s,
  Strings.TrimSpace (Strings.TrimSpace s) = Strings.TrimSpace s.
Proof.
  intros s. apply TrimSpace_fix.
  - intros c t E. eapply TrimSpace_first. eassumption.
  - intros t c E. eapply TrimSpace_last. eassumption.
Qed.

Lemma TrimSpace_ends : forall s,
  existsb Strings.IsSpace (firstn 1 (Strings.TrimSpace s)) = false
  /\ existsb Strings.IsSpace (firstn 1 (rev (Strings.TrimSpace s))) = false.
Proof.
  intros s. split.
  - destruct (Strings.TrimSpace s) as [|c t] eqn:E; [reflexivity|].
    cbn [firstn existsb]. rewrite (TrimSpace_first s c t E). reflexivity.
  - destruct (rev (Strings.TrimSpace s)) as [|c t] eqn:E; [reflexivity|].
    cbn [firstn existsb]. rewrite (TrimSpace_last s (rev t) c);
      [reflexivity|].
    apply (f_equal (@rev rune)) in E. rewrite rev_involutive in E. exact E.
Qed.

(** X4.  The content that [cleanHTML] returns neither begins nor ends
    with a white-space rune, so that trimming it again changes
    nothing. *)
Theorem X4_cleaned_content_is_trimmed : forall entity entity2 order s,
  existsb Strings.IsSpace (firstn 1 (cleanHTML entity entity2 order s)) = false
  /\ existsb Strings.IsSpace (firstn 1 (rev (cleanHTML entity entity2 order s)))
     = false
  /\ Strings.TrimSpace (cleanHTML entity entity2 order s)
     = cleanHTML entity entity2 order s.
Proof.
  intros entity entity2 order s. unfold cleanHTML.
  destruct s as [|x s]; [repeat split|].
  split; [apply TrimSpace_ends|]. split; [apply TrimSpace_ends|].
  apply TrimSpace_idempotent.
Qed.

(** ** Image paths that begin with [./] *)

Lemma m_Cls_app : forall (P : rune -> bool) k c p pv t cs,
  P c = true ->
  m (Cls P) k (MState p pv ([c] ++ t) cs) = k (MState (S p) (Some c) t cs).
Proof.
  intros P k c p pv t cs H. cbn [m rest app]. rewrite H. reflexivity.
Qed.

Lemma cleanHTML_unfold : forall entity entity2 order s,
  cleanHTML entity entity2 order s
  = Strings.TrimSpace
      (ReplaceAllLiteral srcPrefixPattern
         (convertVLPFormatting order (decodeEntities entity entity2 s))
         (qstr "src='")).
Proof.
  intros entity entity2 order [|c s]; reflexivity.
Qed.

Lemma srcPrefixPattern_needs_lit : forall p pv s,
  Strings.HasPrefix s (str "src=") = false ->
  match_here srcPrefixPattern p pv s = None.
Proof.
  intros p pv s H. unfold match_here, srcPrefixPattern, Seq. cbn [fold_right].
  rewrite m_Cat, m_Lit_fail by assumption. reflexivity.
Qed.

Lemma srcPrefix_replaced : forall pre q post,
  N.eqb q dq || N.eqb q 39 = true ->
  firstAt (str "src=") pre = true ->
  Strings.Contains post (str "src=") = false ->
  ReplaceAllLiteral srcPrefixPattern
    (pre ++ (str "src=" ++ [q] ++ str "./") ++ post) (qstr "src='")
  = pre ++ qstr "src='" ++ post.
Proof.
  intros pre q post Hq Hpre Hpost. unfold ReplaceAllLiteral.
  rewrite (find_all_single srcPrefixPattern pre
             (str "src=" ++ [q] ++ str "./") post []).
  - rewrite replace_single. reflexivity.
  - discriminate.
  - intros pre1 pre2 pv -> Hne. apply srcPrefixPattern_needs_lit.
    rewrite <- !app_assoc.
    eapply firstAt_no_earlier; eassumption.
  - unfold match_here, srcPrefixPattern, Seq. cbn [fold_right].
    rewrite <- !app_assoc.
    rewrite m_Cat, m_Lit_app.
    rewrite m_Cat, m_Cls_app by assumption.
    change (str "./" ++ post) with ([46%N] ++ [47%N] ++ post).
    rewrite m_Cat, m_Chr_app. rewrite m_Cat, m_Chr_app. rewrite m_Eps.
    reflexivity.
  - intros post1 post2 p pv ->. apply srcPrefixPattern_needs_lit.
    eapply Contains_no_occurrence; eassumption.
Qed.

(** X5.  In a text without entities and without [div], [p], [span] and
    [ol] elements, whose only [src=] is followed by a quote and [./],
    [cleanHTML] removes the [./] and writes a double quote after [src=],
    whichever quote stood there: after [src='./a.png'], the attribute
    value opens with a double quote and closes with a single one. *)
Theorem X5_src_prefix_is_rewritten : forall entity entity2 order pre q post,
  N.eqb q dq || N.eqb q 39 = true ->
  Strings.Contains (pre ++ (str "src=" ++ [q] ++ str "./") ++ post) (str "<div")
  = false ->
  Strings.Contains (pre ++ (str "src=" ++ [q] ++ str "./") ++ post) (str "<p")
  = false ->
  Strings.Contains (pre ++ (str "src=" ++ [q] ++ str "./") ++ post) (str "<span")
  = false ->
  Strings.Contains (pre ++ (str "src=" ++ [q] ++ str "./") ++ post) (str "<ol")
  = false ->
  Strings.Contains (pre ++ (str "src=" ++ [q] ++ str "./") ++ post) (str "&")
  = false ->
  firstAt (str "src=") pre = true ->
  Strings.Contains post (str "src=") = false ->
  cleanHTML entity entity2 order
            (pre ++ (str "src=" ++ [q] ++ str "./") ++ post)
  = Strings.TrimSpace (pre ++ qstr "src='" ++ post).
Proof.
  intros entity entity2 order pre q post Hq Hdiv Hp Hspan Hol Hamp Hpre Hpost.
  rewrite cleanHTML_unfold. unfold decodeEntities.
  change (str "&") with [Html.amp] in Hamp.
  rewrite !(unescape_no_amp entity entity2 _ Hamp).
  rewrite convertVLPFormatting_inert by assumption.
  rewrite srcPrefix_replaced by assumption. reflexivity.
Qed.

(** X5, an instance: an image whose attribute is written with single
    quotes. *)
Lemma X5_src_prefix_is_rewritten_witness :
  N.eqb 39 dq || N.eqb 39 39 = true
  /\ firstAt (str "src=") (str "<img ") = true
  /\ Strings.Contains (str "a.png'>") (str "src=") = false
  /\ cleanHTML Example.entity Example.entity2 pClassToStyleMap
       (str "<img src='./a.png'>")
     = qstr "<img src=" ++ [dq] ++ str "a.png'>".
Proof.
  split; [reflexivity|]. split; [reflexivity|]. split; [reflexivity|].
  exact (X5_src_prefix_is_rewritten Example.entity Example.entity2
           pClassToStyleMap (str "<img ") 39%N (str "a.png'>")
           eq_refl eq_refl eq_refl eq_refl eq_refl eq_refl eq_refl eq_refl).
Defined.

(** ** [HTMLToContentBlocks] *)

Lemma seq_snoc : forall n, seq 1 (S n) = seq 1 n ++ [S n].
Proof.
  intros n. rewrite seq_S. reflexivity.
Qed.

Section ScanFacts.

Variable entity : gostring -> option rune.
Variable entity2 : gostring -> option (rune * rune).
Variable fmt_d : Z -> gostring.

#[local] Abbreviation scanLine' := (scanLine entity entity2 fmt_d).
#[local] Abbreviation flushText' := (flushText fmt_d).

Lemma scan_ok_snoc : forall blocks order text b,
  scan_ok fmt_d (mkScan blocks order text) ->
  SimpleBlock.sort_order b = order ->
  simpleBlockShape fmt_d b ->
  forall text', scan_ok fmt_d (mkScan (blocks ++ [b]) (order + 1)%Z text').
Proof.
  intros blocks order text b (Hseq & Hord & Hall) Hb Hshape text'.
  cbn [scanBlocks scanOrder] in *.
  split; [|split]; cbn [scanBlocks scanOrder].
  - rewrite map_app, length_app, Hseq. cbn [List.length map].
    rewrite Nat.add_1_r, seq_snoc, map_app. cbn [map].
    rewrite Hb, Hord. reflexivity.
  - rewrite length_app. cbn [List.length]. lia.
  - apply Forall_app. split; [assumption|]. constructor; [assumption|constructor].
Qed.

Lemma scan_ok_text : forall blocks order text text',
  scan_ok fmt_d (mkScan blocks order text) ->
  scan_ok fmt_d (mkScan blocks order text').
Proof.
  intros blocks order text text' H. exact H.
Qed.

Lemma flushText_ok : forall st, scan_ok fmt_d st -> scan_ok fmt_d (flushText' st).
Proof.
  intros [blocks order text] H. unfold flushText. cbn [currentText].
  destruct text as [|c text]; [assumption|].
  cbn [scanBlocks scanOrder].
  eapply scan_ok_snoc; [eassumption|reflexivity|].
  split; [reflexivity|]. split; [reflexivity|discriminate].
Qed.

Lemma scanLine_ok : forall st line,
  scan_ok fmt_d st -> scan_ok fmt_d (scanLine' st line).
Proof.
  intros st line H. unfold scanLine.
  destruct (Strings.TrimSpace line) as [|c l] eqn:E; [assumption|].
  destruct (Strings.HasPrefix (c :: l) (str "<h")
            && Strings.Contains (c :: l) (str ">")).
  - apply flushText_ok in H.
    destruct (FindStringSubmatch headerPattern 1 (c :: l)) as [[|whole [|title rest]]|];
      try assumption.
    destruct (flushText' st) as [blocks order text] eqn:Ef.
    cbn [scanBlocks scanOrder currentText].
    eapply scan_ok_snoc; [eassumption|reflexivity|].
    split; reflexivity.
  - destruct st as [blocks order text]. exact H.
Qed.

Lemma scanLine_fold_ok : forall lines st,
  scan_ok fmt_d st -> scan_ok fmt_d (fold_left scanLine' lines st).
Proof.
  induction lines as [|l lines IH]; intros st H; [assumption|].
  cbn [fold_left]. apply IH, scanLine_ok. assumption.
Qed.

(** X6.  Whatever the text, the blocks of [HTMLToContentBlocks] carry the
    sort orders 1, 2, ..., n in list order; the identifier of each is
    [uuid-] followed by its sort order; a text block lies at depth 1 and
    its body is not empty; a step block lies at depth 0. *)
Theorem X6_blocks_are_numbered : forall htmlContent,
  map SimpleBlock.sort_order (HTMLToContentBlocks entity entity2 fmt_d htmlContent)
  = map Z.of_nat
        (seq 1 (List.length (HTMLToContentBlocks entity entity2 fmt_d htmlContent)))
  /\ Forall (simpleBlockShape fmt_d)
            (HTMLToContentBlocks entity entity2 fmt_d htmlContent).
Proof.
  intros htmlContent. unfold HTMLToContentBlocks.
  assert (H : scan_ok fmt_d (fold_left scanLine' (Split htmlContent 10%N)
                                       (mkScan [] 1%Z [])))
    by (apply scanLine_fold_ok; repeat split; constructor).
  destruct (fold_left scanLine' (Split htmlContent 10%N) (mkScan [] 1%Z []))
    as [blocks order text].
  cbn [currentText scanBlocks scanOrder].
  destruct text as [|c text].
  - destruct H as (Hseq & _ & Hall). split; assumption.
  - assert (H' : scan_ok fmt_d
                    (mkScan (blocks
                             ++ [SimpleBlock.TextContent (uuidOf fmt_d order)
                                                         (c :: text) 1 order])
                            (order + 1)%Z [])).
    { eapply scan_ok_snoc; [exact H|reflexivity|].
      split; [reflexivity|]. split; [reflexivity|discriminate]. }
    destruct H' as (Hseq & _ & Hall). split; assumption.
Qed.

End ScanFacts.

(** *** Text without headings, and a heading between two texts *)

Lemma joinLines_cons : forall x ls,
  joinLines (x :: ls)
  = x ++ match ls with [] => [] | _ => [10%N] ++ joinLines ls end.
Proof.
  intros x [|l ls]; [symmetry; apply app_nil_r|reflexivity].
Qed.

Lemma Split_app : forall a b sep,
  Split (a ++ sep :: b) sep = Split a sep ++ Split b sep.
Proof.
  induction a as [|c a IH]; intros b sep.
  - cbn [app Split]. rewrite N.eqb_refl. reflexivity.
  - cbn [app Split]. destruct (N.eqb c sep); [rewrite IH; reflexivity|].
    rewrite IH. destruct (Split a sep) as [|piece pieces] eqn:E.
    + destruct a; cbn [Split] in E; [discriminate|].
      destruct (N.eqb r sep); [discriminate|].
      destruct (Split a sep); discriminate.
    + reflexivity.
Qed.

Lemma Split_line : forall s sep,
  forallb (not_rune sep) s = true -> Split s sep = [s].
Proof.
  induction s as [|c s IH]; intros sep H; [reflexivity|].
  cbn [forallb] in H. apply andb_true_iff in H. destruct H as [Hc Hs].
  unfold not_rune in Hc. apply negb_true_iff in Hc.
  cbn [Split]. rewrite Hc, IH by assumption. reflexivity.
Qed.

Section ScanText.

Variable entity : gostring -> option rune.
Variable entity2 : gostring -> option (rune * rune).
Variable fmt_d : Z -> gostring.

#[local] Abbreviation scanLine'' := (scanLine entity entity2 fmt_d).

Lemma scan_text_lines : forall lines blocks order cur,
  forallb (fun l => negb (headingCandidate l)) lines = true ->
  fold_left scanLine'' lines (mkScan blocks order cur)
  = mkScan blocks order
      (joinLines (match cur with [] => [] | _ => [cur] end
                  ++ filter (fun l => negb (gostring_eqb l []))
                            (map Strings.TrimSpace lines))).
Proof.
  induction lines as [|l lines IH]; intros blocks order cur H.
  - cbn [fold_left map filter]. rewrite app_nil_r.
    destruct cur; reflexivity.
  - cbn [forallb] in H. apply andb_true_iff in H. destruct H as [Hl H].
    cbn [fold_left map filter]. unfold scanLine at 2.
    unfold headingCandidate in Hl. apply negb_true_iff in Hl.
    destruct (Strings.TrimSpace l) as [|c tl] eqn:E.
    + cbn [gostring_eqb negb]. apply IH. assumption.
    + rewrite Hl. cbn [scanBlocks scanOrder currentText gostring_eqb negb].
      rewrite IH by assumption.
      f_equal. destruct cur as [|x cur].
      * reflexivity.
      * cbn [app]. rewrite (joinLines_cons (x :: cur)).
        rewrite (joinLines_cons ((x :: cur ++ [10%N]) ++ c :: tl)).
        rewrite (joinLines_cons (c :: tl)).
        cbn [app]. rewrite <- !app_assoc. reflexivity.
Qed.

Lemma HTMLToContentBlocks_final : forall blocks order cur,
  match cur with
  | [] => blocks
  | _ => blocks ++ [SimpleBlock.TextContent (uuidOf fmt_d order) cur 1 order]
  end
  = blocks ++ textBlockAt fmt_d order cur.
Proof.
  intros blocks order [|c cur]; [symmetry; apply app_nil_r|reflexivity].
Qed.

(** X7.  A text none of whose lines begins with [<h] and holds a [>]
    gives at most one block: a text block with sort order 1 whose body is
    made of the lines that hold something, trimmed and joined by line
    feeds; a text whose lines are all blank gives no block. *)
Theorem X7_text_without_headings : forall htmlContent,
  noHeading htmlContent = true ->
  HTMLToContentBlocks entity entity2 fmt_d htmlContent
  = textBlockAt fmt_d 1 (joinLines (textLines htmlContent)).
Proof.
  intros htmlContent H. unfold HTMLToContentBlocks, noHeading in *.
  rewrite scan_text_lines by assumption.
  cbn [currentText scanBlocks scanOrder app].
  apply (HTMLToContentBlocks_final [] 1%Z).
Qed.

End ScanText.

(** X7, an instance: two lines of text around a blank line. *)
Lemma X7_text_without_headings_witness :
  noHeading (str "  First line " ++ [10%N] ++ str "  " ++ [10%N]
             ++ str "<b>second</b>") = true
  /\ HTMLToContentBlocks Example.entity Example.entity2 Example.fmt_d
       (str "  First line " ++ [10%N] ++ str "  " ++ [10%N]
        ++ str "<b>second</b>")
     = [SimpleBlock.TextContent (str "uuid-1")
          (str "First line" ++ [10%N] ++ str "<b>second</b>") 1 1].
Proof.
  split; [reflexivity|].
  exact (X7_text_without_headings Example.entity Example.entity2 Example.fmt_d
           (str "  First line " ++ [10%N] ++ str "  " ++ [10%N]
            ++ str "<b>second</b>") eq_refl).
Defined.

Lemma headerPattern_match : forall n attrs title n2 more p pv,
  headingShape n attrs title n2 more = true ->
  m headerPattern accept (MState p pv (headingLine n attrs title n2 more) [])
  = Some (List.length (str "<h" ++ [n] ++ attrs ++ [gt] ++ title
                       ++ str "</h" ++ [n2] ++ [gt]) + p,
          [(1, (List.length (str "<h" ++ [n] ++ attrs ++ [gt]) + p,
                List.length (str "<h" ++ [n] ++ attrs ++ [gt] ++ title) + p))]).
Proof.
  intros n attrs title n2 more p pv H. unfold headingShape in H.
  apply andb_true_iff in H. destruct H as [H Htrim].
  apply andb_true_iff in H. destruct H as [H H1].
  apply andb_true_iff in H. destruct H as [H Hfirst].
  apply andb_true_iff in H. destruct H as [H Hattrs].
  apply andb_true_iff in H. destruct H as [Hn Hn2].
  assert (Hdot : forallb dot title = true).
  { unfold headingLine in H1.
    repeat (rewrite forallb_app in H1; apply andb_true_iff in H1;
            destruct H1 as [? H1]).
    assumption. }
  unfold headingLine, headerPattern, Seq. cbn [fold_right].
  rewrite m_Cat, m_Lit_app.
  rewrite m_Cat, m_Cls_app by assumption.
  rewrite m_Cat. unfold notgt_star.
  apply m_star_greedy_all; [assumption|reflexivity|].
  rewrite m_Cat, m_Chr_app.
  rewrite m_Cat, m_Group.
  apply m_star_lazy_first; [assumption| |]; cbv beta; cbn [pos prev Regexp.rest caps].
  - intros a1 a2 -> Hne. rewrite m_Cat, m_Lit_fail; [reflexivity|].
    eapply firstAt_no_earlier; eassumption.
  - rewrite m_Cat, m_Lit_app.
    rewrite m_Cat, m_Cls_app by assumption.
    rewrite m_Cat, m_Chr_app, m_Eps. unfold accept. cbn [pos caps].
    repeat rewrite length_app. simpl List.length.
    repeat (f_equal; try lia).
Qed.

Lemma headerPattern_submatch : forall n attrs title n2 more,
  headingShape n attrs title n2 more = true ->
  exists whole,
    FindStringSubmatch headerPattern 1 (headingLine n attrs title n2 more)
    = Some [whole; title].
Proof.
  intros n attrs title n2 more H. unfold FindStringSubmatch, find_all.
  assert (E : headingLine n attrs title n2 more
              = (str "<h" ++ [n] ++ attrs ++ [gt] ++ title ++ str "</h"
                 ++ [n2] ++ [gt]) ++ more)
    by (unfold headingLine; rewrite <- !app_assoc; reflexivity).
  assert (Hm := headerPattern_match n attrs title n2 more 0 None H).
  assert (Hf : exists others,
             find_all_from headerPattern 0 None
                           (headingLine n attrs title n2 more) 0 None
             = Found 0 (List.length (str "<h" ++ [n] ++ attrs ++ [gt] ++ title
                                     ++ str "</h" ++ [n2] ++ [gt]) + 0)
                 [(1, (List.length (str "<h" ++ [n] ++ attrs ++ [gt]) + 0,
                       List.length (str "<h" ++ [n] ++ attrs ++ [gt] ++ title)
                       + 0))]
               :: others).
  { rewrite E in Hm |- *.
    rewrite (find_all_hit_nonempty _ _ _ _ _ _ _
               [(1, (List.length (str "<h" ++ [n] ++ attrs ++ [gt]) + 0,
                     List.length (str "<h" ++ [n] ++ attrs ++ [gt] ++ title)
                     + 0))]).
    - eexists. reflexivity.
    - discriminate.
    - apply Nat.le_refl.
    - unfold match_here. rewrite Hm. reflexivity. }
  destruct Hf as (others & ->).
  eexists. unfold group_text.
  cbn [m_caps seq map find fst snd Nat.eqb].
  f_equal. f_equal. f_equal.
  unfold headingLine.
  replace (str "<h" ++ [n] ++ attrs ++ [gt] ++ title ++ str "</h" ++ [n2]
           ++ [gt] ++ more)
    with ((str "<h" ++ [n] ++ attrs ++ [gt]) ++ title
          ++ (str "</h" ++ [n2] ++ [gt] ++ more))
    by (rewrite <- !app_assoc; reflexivity).
  apply slice_at; lens.
Qed.

Section ScanHeading.

Variable entity : gostring -> option rune.
Variable entity2 : gostring -> option (rune * rune).
Variable fmt_d : Z -> gostring.

Lemma scanLine_heading : forall n attrs title n2 more blocks order cur,
  headingShape n attrs title n2 more = true ->
  scanLine entity entity2 fmt_d (mkScan blocks order cur)
           (headingLine n attrs title n2 more)
  = mkScan ((blocks ++ textBlockAt fmt_d order cur)
            ++ [SimpleBlock.StepContent
                  (uuidOf fmt_d (match cur with [] => order | _ => order + 1 end)%Z)
                  (Html.UnescapeString entity entity2 title) 0
                  (match cur with [] => order | _ => order + 1 end)%Z])
           ((match cur with [] => order | _ => order + 1 end) + 1)%Z [].
Proof.
  intros n attrs title n2 more blocks order cur H.
  destruct (headerPattern_submatch n attrs title n2 more H) as (whole & Hsub).
  assert (Htrim : Strings.TrimSpace (headingLine n attrs title n2 more)
                  = headingLine n attrs title n2 more).
  { unfold headingShape in H. apply andb_true_iff in H.
    destruct H as [_ H]. apply gostring_eqb_eq in H. exact H. }
  unfold scanLine. rewrite Htrim.
  assert (Hp : Strings.HasPrefix (headingLine n attrs title n2 more) (str "<h")
               = true) by apply HasPrefix_app_self.
  assert (Hc : Strings.Contains (headingLine n attrs title n2 more) (str ">")
               = true).
  { unfold headingLine.
    replace (str "<h" ++ [n] ++ attrs ++ [gt] ++ title ++ str "</h" ++ [n2]
             ++ [gt] ++ more)
      with ((str "<h" ++ [n] ++ attrs) ++ str ">"
            ++ (title ++ str "</h" ++ [n2] ++ [gt] ++ more))
      by (rewrite <- !app_assoc; reflexivity).
    apply Contains_intro. }
  rewrite Hp, Hc, Hsub. cbn [andb].
  destruct (headingLine n attrs title n2 more) as [|c l] eqn:E;
    [discriminate Hp|].
  unfold flushText. cbn [currentText scanBlocks scanOrder].
  destruct cur as [|x cur]; cbn [currentText scanBlocks scanOrder textBlockAt].
  - rewrite app_nil_r. reflexivity.
  - reflexivity.
Qed.

(** X8.  A heading on a line of its own between two texts without
    headings gives, in this order: a text block for the text before, if
    it holds something; a step block at depth 0 whose title is the text
    between the heading's tags with its entities decoded once; a text
    block for the text after, if it holds something.  The levels of the
    opening and of the closing tag are not compared. *)
Theorem X8_heading_between_texts :
  forall before n attrs title n2 more after,
  noHeading before = true -> noHeading after = true ->
  headingShape n attrs title n2 more = true ->
  let k := match joinLines (textLines before) with
           | [] => 1%Z
           | _ => 2%Z
           end in
  HTMLToContentBlocks entity entity2 fmt_d
    (before ++ [10%N] ++ headingLine n attrs title n2 more ++ [10%N] ++ after)
  = textBlockAt fmt_d 1 (joinLines (textLines before))
    ++ [SimpleBlock.StepContent (str "uuid-" ++ fmt_d k)
          (Html.UnescapeString entity entity2 title) 0 k]
    ++ textBlockAt fmt_d (k + 1) (joinLines (textLines after)).
Proof.
  intros before n attrs title n2 more after Hb Ha Hh k.
  unfold HTMLToContentBlocks.
  assert (Hline : forallb (not_rune 10%N) (headingLine n attrs title n2 more)
                  = true).
  { unfold headingShape in Hh. apply andb_true_iff in Hh.
    destruct Hh as [Hh _]. apply andb_true_iff in Hh. apply Hh. }
  cbn [app]. rewrite Split_app.
  change (headingLine n attrs title n2 more ++ 10%N :: after)
    with (headingLine n attrs title n2 more ++ 10%N :: after).
  rewrite Split_app, (Split_line _ _ Hline).
  rewrite !fold_left_app. cbn [fold_left].
  unfold noHeading in Hb, Ha.
  rewrite (scan_text_lines entity entity2 fmt_d _ _ _ _ Hb). cbn [app].
  fold (textLines before).
  rewrite (scanLine_heading _ _ _ _ _ _ _ _ Hh).
  rewrite (scan_text_lines entity entity2 fmt_d _ _ _ _ Ha). cbn [app].
  fold (textLines after).
  cbn [currentText scanBlocks scanOrder].
  rewrite HTMLToContentBlocks_final.
  subst k. destruct (joinLines (textLines before)); rewrite <- !app_assoc;
    reflexivity.
Qed.

End ScanHeading.

(** X8, an instance: a paragraph, a heading whose closing tag has another
    level and whose title holds an entity, and a last line. *)
Lemma X8_heading_between_texts_witness :
  noHeading (str "<p>Intro</p>") = true
  /\ noHeading (str "Done.") = true
  /\ headingShape 50%N (str " id='s1'") (str "Tom &amp; Jerry") 51%N [] = true
  /\ HTMLToContentBlocks Example.entity Example.entity2 Example.fmt_d
       (str "<p>Intro</p>" ++ [10%N] ++ str "<h2 id='s1'>Tom &amp; Jerry</h3>"
        ++ [10%N] ++ str "Done.")
     = [SimpleBlock.TextContent (str "uuid-1") (str "<p>Intro</p>") 1 1;
        SimpleBlock.StepContent (str "uuid-2") (str "Tom & Jerry") 0 2;
        SimpleBlock.TextContent (str "uuid-3") (str "Done.") 1 3].
Proof.
  split; [reflexivity|]. split; [reflexivity|].
  split; [vm_compute; reflexivity|].
  exact (X8_heading_between_texts Example.entity Example.entity2 Example.fmt_d
           (str "<p>Intro</p>") 50%N (str " id='s1'") (str "Tom &amp; Jerry")
           51%N [] (str "Done.") eq_refl eq_refl
           ltac:(vm_compute; reflexivity)).
Defined.

(** ** The uploader: identifiers and the count of uploaded images *)

Lemma filter_length_map : forall (A : Type) (p : A -> bool) l l',
  map p l = map p l' -> List.length (filter p l) = List.length (filter p l').
Proof.
  intros A p. induction l as [|x l IH]; intros [|y l'] H; try discriminate.
  - reflexivity.
  - cbn [map] in H. inversion H as [[Hx Hl]]. cbn [filter].
    rewrite Hx. destruct (p y); cbn [List.length]; rewrite (IH l' Hl);
      reflexivity.
Qed.

Lemma append_id_is_image : forall id b,
  is_image (Block.append_id id b) = is_image b.
Proof. intros id [ | | ]; reflexivity. Qed.

Lemma imageBlocks_update : forall id i l,
  imageBlocks (update_at i (Block.append_id id) l) = imageBlocks l.
Proof.
  intros id i l. unfold imageBlocks. f_equal. apply filter_length_map.
  apply update_at_map. apply append_id_is_image.
Qed.

Lemma imageBlocks_snoc : forall l b,
  imageBlocks (l ++ [b]) = (imageBlocks l + if is_image b then 1 else 0)%Z.
Proof.
  intros l b. unfold imageBlocks. rewrite filter_app, length_app.
  cbn [filter]. destruct (is_image b); cbn [List.length]; lia.
Qed.

Lemma NoDup_map_fresh : forall generateUUID lo hi ns,
  fresh_ids generateUUID lo hi ->
  NoDup ns -> Forall (fun n => lo <= n /\ n < hi) ns ->
  NoDup (map generateUUID ns).
Proof.
  intros gen lo hi ns Hfresh. induction ns as [|n ns IH]; intros Hnd Hall.
  - constructor.
  - inversion Hnd as [|? ? Hnotin Hnd']. inversion Hall as [|? ? [Hlo Hhi] Hall'].
    subst. cbn [map]. constructor; [|apply IH; assumption].
    intros Hin. apply in_map_iff in Hin. destruct Hin as (n' & E & Hin').
    rewrite Forall_forall in Hall'. destruct (Hall' n' Hin') as [Hlo' Hhi'].
    apply Hnotin. rewrite <- (Hfresh n' n Hlo' Hhi' Hlo Hhi E). assumption.
Qed.

Section UploaderMore.

Variable entity : gostring -> option rune.
Variable entity2 : gostring -> option (rune * rune).
Variable filepath_Join : list gostring -> gostring.
Variable filepath_Base : gostring -> gostring.
Variable unicode_ToLower : rune -> rune.
Variable fmt_d : Z -> gostring.
Variable generateUUID : nat -> gostring.
Variable CreateArticle : nat -> gostring -> gostring -> gostring -> Z -> option Z.
Variable Stat : nat -> gostring -> bool.
Variable UploadImage : nat -> gostring -> gostring -> gostring -> UploadResult.
Variable UpdateArticleContents :
  nat -> gostring -> gostring -> gostring -> list Block.t -> bool -> bool.
Variable lo : nat.

#[local] Abbreviation carried' := (carried generateUUID lo).

Lemma carried_refl : forall bs r, carried' bs r bs r.
Proof.
  intros bs r. split; [apply Nat.le_refl|]. split; [reflexivity|].
  split; [auto|reflexivity].
Qed.

Lemma carried_trans : forall bs1 r1 bs2 r2 bs3 r3,
  carried' bs1 r1 bs2 r2 -> carried' bs2 r2 bs3 r3 -> carried' bs1 r1 bs3 r3.
Proof.
  intros bs1 r1 bs2 r2 bs3 r3 (Hc1 & Hs1 & Hu1 & Hi1) (Hc2 & Hs2 & Hu2 & Hi2).
  split; [lia|]. split; [congruence|]. split; [auto|lia].
Qed.

(** The run moves on without a block. *)
Lemma carried_run : forall bs r r',
  clock r <= clock r' -> submitted r' = submitted r ->
  uploadedImagesCount r' = uploadedImagesCount r ->
  carried' bs r bs r'.
Proof.
  intros bs r r' Hc Hs Hi. split; [assumption|]. split; [assumption|].
  split; [|lia].
  intros (Hlo & ns & Hmap & Hnd & Hall). split; [lia|].
  exists ns. split; [assumption|]. split; [assumption|].
  eapply Forall_impl; [|exact Hall]. cbv beta. intros n [H1 H2]. lia.
Qed.

Lemma uuids_drawn_snoc : forall blocks so blocks' so' r r' c b,
  uuids_drawn generateUUID lo (mkBlocks blocks so) r ->
  map Block.uuid blocks' = map Block.uuid (blocks ++ [b]) ->
  Block.uuid b = generateUUID c ->
  clock r <= c -> c < clock r' ->
  uuids_drawn generateUUID lo (mkBlocks blocks' so') r'.
Proof.
  intros blocks so blocks' so' r r' c b (Hlo & ns & Hmap & Hnd & Hall)
         Hmap' Hb Hc Hc'.
  cbn [contentBlocks] in *. split; [lia|].
  exists (ns ++ [c]). cbn [contentBlocks].
  split; [|split].
  - rewrite Hmap', !map_app, Hmap. cbn [map]. rewrite Hb. reflexivity.
  - apply NoDup_app; [assumption|repeat constructor; intros []|].
    intros x Hx [E|[]]. rewrite Forall_forall in Hall.
    specialize (Hall x Hx). lia.
  - apply Forall_app. split.
    + eapply Forall_impl; [|exact Hall]. cbv beta. intros n [H1 H2]. lia.
    + repeat constructor; lia.
Qed.

(** A block is emitted with the identifier drawn at interaction [c]. *)
Lemma carried_emit : forall stepIdx block bs r r' c,
  Block.uuid block = generateUUID c ->
  clock r <= c -> c < clock r' ->
  submitted r' = submitted r ->
  uploadedImagesCount r'
  = (uploadedImagesCount r + if is_image block then 1 else 0)%Z ->
  carried' bs r (emit stepIdx block bs) r'.
Proof.
  intros stepIdx block [blocks so] r r' c Hb Hc Hc' Hs Hi.
  split; [lia|]. split; [assumption|]. split.
  - intros H. unfold emit. cbn [contentBlocks sortOrder].
    eapply uuids_drawn_snoc; try eassumption.
    apply update_at_map. apply append_id_uuid.
  - unfold emit. cbn [contentBlocks].
    rewrite imageBlocks_update, imageBlocks_snoc. lia.
Qed.

#[local] Abbreviation emitPlainText' := (emitPlainText generateUUID).
#[local] Abbreviation processImage' :=
  (processImage entity entity2 filepath_Join filepath_Base fmt_d generateUUID
                Stat UploadImage).
#[local] Abbreviation processMatch' :=
  (processMatch entity entity2 filepath_Join filepath_Base fmt_d generateUUID
                Stat UploadImage).
#[local] Abbreviation processStep' :=
  (processStep entity entity2 filepath_Join filepath_Base unicode_ToLower fmt_d
               generateUUID Stat UploadImage).
#[local] Abbreviation articleBlocks' :=
  (articleBlocks entity entity2 filepath_Join filepath_Base unicode_ToLower
                 fmt_d generateUUID Stat UploadImage).

Ltac run_done :=
  apply carried_run; cbn [clock submitted uploadedImagesCount tick skip
                          countUpload]; auto with arith.

Ltac emit_done :=
  eapply carried_emit;
  [ reflexivity
  | apply Nat.le_refl
  | cbn [clock tick countUpload]; auto with arith
  | reflexivity
  | cbn [uploadedImagesCount tick countUpload is_image textBlock]; lia ].

Lemma emitPlainText_carried : forall stepIdx text bs r,
  carried' bs r (fst (emitPlainText' stepIdx text bs r))
           (snd (emitPlainText' stepIdx text bs r)).
Proof.
  intros stepIdx text bs r. unfold emitPlainText.
  destruct (negb _); cbn [fst snd]; [emit_done|apply carried_refl].
Qed.

Lemma processImage_carried :
  forall siteID chapter article step articleID imagesDir stepIdx blockHTML
         bs r bs' r',
  processImage' siteID chapter article step articleID imagesDir stepIdx
                blockHTML bs r = Some (bs', r') ->
  carried' bs r bs' r'.
Proof.
  intros until r'. unfold processImage.
  destruct (FindStringSubmatch imgTagRegex 1 blockHTML) as [[|w [|srcAttr l]]|];
    try (intros [= <- <-]; apply carried_refl).
  destruct (Stat _ _); [|intros [= <- <-]; run_done].
  destruct (UploadImage _ _ _ _) as [|[fileData|]];
    try (intros [= <- <-]; run_done).
  destruct (FileData.id fileData); [|intros [= <- <-]; run_done].
  destruct (FileData.width fileData); [|discriminate].
  destruct (FileData.height fileData); [|discriminate].
  destruct (FileData.url fileData); [|discriminate].
  intros [= <- <-].
  eapply carried_emit with (c := S (S (clock r)));
    [ reflexivity
    | auto with arith
    | cbn [clock tick countUpload]; auto with arith
    | reflexivity
    | cbn [uploadedImagesCount tick countUpload is_image]; lia ].
Qed.

Lemma processMatch_carried :
  forall siteID chapter article step articleID imagesDir stepIdx
         lastIndex bs r mi lastIndex' bs' r',
  processMatch' siteID chapter article step articleID imagesDir stepIdx
                (Some (lastIndex, bs, r)) mi = Some (lastIndex', bs', r') ->
  carried' bs r bs' r'.
Proof.
  intros until r'. unfold processMatch. destruct mi as [start end_].
  assert (Ht := emitPlainText_carried stepIdx
                  (slice (SSStep.Content step) lastIndex start) bs r).
  destruct (emitPlainText _ _ _ _ _) as [bs1 r1]. cbn [fst snd] in Ht.
  destruct (Strings.HasPrefix _ (str "<img")).
  - destruct (processImage' siteID chapter article step articleID imagesDir
                            stepIdx (slice (SSStep.Content step) start end_)
                            bs1 r1)
      as [[bs2 r2]|] eqn:E; [|discriminate].
    intros [= _ <- <-]. eapply carried_trans; [exact Ht|].
    eapply processImage_carried; exact E.
  - destruct (Strings.HasPrefix _ _).
    + intros [= _ <- <-]. eapply carried_trans; [exact Ht|]. emit_done.
    + destruct (Strings.HasPrefix _ _).
      * destruct (FindStringSubmatch _ _ _) as [[|w [|style [|inner l]]]|];
          intros [= _ <- <-]; try exact Ht.
        eapply carried_trans; [exact Ht|]. emit_done.
      * intros [= _ <- <-]. exact Ht.
Qed.

Lemma processMatch_fold_carried :
  forall siteID chapter article step articleID imagesDir stepIdx indexes
         lastIndex bs r lastIndex' bs' r',
  fold_left (processMatch' siteID chapter article step articleID imagesDir stepIdx)
            indexes (Some (lastIndex, bs, r)) = Some (lastIndex', bs', r') ->
  carried' bs r bs' r'.
Proof.
  intros siteID chapter article step articleID imagesDir stepIdx.
  induction indexes as [|mi indexes IH]; intros until r'; cbn [fold_left].
  - intros [= _ <- <-]. apply carried_refl.
  - destruct (processMatch' siteID chapter article step articleID imagesDir
                stepIdx (Some (lastIndex, bs, r)) mi) as [[[l1 bs1] r1]|] eqn:E.
    + intros H. eapply carried_trans.
      * eapply processMatch_carried; exact E.
      * eapply IH; exact H.
    + rewrite processMatch_None. discriminate.
Qed.

Lemma processStep_carried :
  forall siteID chapter article articleID imagesDir step bs r bs' r',
  processStep' siteID chapter article articleID imagesDir (Some (bs, r)) step
  = Some (bs', r') ->
  carried' bs r bs' r'.
Proof.
  intros until r'. unfold processStep.
  match goal with
  | |- context [fold_left ?f ?l (Some (0, ?b, ?r0))] =>
      destruct (fold_left f l (Some (0, b, r0))) as [[[l1 bs1] r1]|] eqn:E;
      [|discriminate]
  end.
  apply processMatch_fold_carried in E.
  assert (Hp := emitPlainText_carried (List.length (contentBlocks bs))
                  (skipn l1 (SSStep.Content step)) bs1 r1).
  destruct (emitPlainText _ _ _ _ _) as [bs2 r2]. cbn [fst snd] in Hp.
  intros [= <- <-].
  eapply carried_trans; [|eapply carried_trans; [exact E|exact Hp]].
  split; [cbn [clock tick]; auto with arith|]. split; [reflexivity|]. split.
  - intros H. destruct bs as [blocks so]. cbn [contentBlocks sortOrder].
    eapply uuids_drawn_snoc;
      [exact H|reflexivity|reflexivity|apply Nat.le_refl
      |cbn [clock tick]; auto with arith].
  - cbn [contentBlocks uploadedImagesCount tick].
    rewrite imageBlocks_snoc. cbn [is_image]. lia.
Qed.

Lemma articleBlocks_carried :
  forall siteID chapter article articleID imagesDir r bs' r',
  articleBlocks' siteID chapter article articleID imagesDir r = Some (bs', r') ->
  carried' (mkBlocks [] 1%Z) r bs' r'.
Proof.
  intros siteID chapter article articleID imagesDir. unfold articleBlocks.
  generalize (mkBlocks [] 1%Z).
  induction (SSArticle.Steps article) as [|step steps IH];
    intros bs r bs' r'; cbn [fold_left].
  - intros [= <- <-]. apply carried_refl.
  - destruct (processStep' siteID chapter article articleID imagesDir
                           (Some (bs, r)) step) as [[bs1 r1]|] eqn:E.
    + intros H. eapply carried_trans.
      * eapply processStep_carried; exact E.
      * eapply IH; exact H.
    + rewrite processStep_None. discriminate.
Qed.

End UploaderMore.

Lemma fresh_ids_NoDup : forall generateUUID lo len,
  NoDup (map generateUUID (seq lo len)) ->
  fresh_ids generateUUID lo (lo + len).
Proof.
  intros gen lo len Hnd a b Ha Ha' Hb Hb' E.
  rewrite NoDup_nth_error in Hnd.
  assert (Hnth : forall x, lo <= x -> x < lo + len ->
            nth_error (map gen (seq lo len)) (x - lo) = Some (gen x)).
  { intros x Hx Hx'. rewrite nth_error_map, nth_error_seq.
    replace (Nat.ltb (x - lo) len) with true
      by (symmetry; apply Nat.ltb_lt; lia).
    cbn [option_map]. do 2 f_equal. lia. }
  assert (Hi : a - lo = b - lo).
  { apply Hnd.
    - rewrite length_map, length_seq. lia.
    - rewrite !Hnth by assumption. rewrite E. reflexivity. }
  lia.
Qed.

Lemma submittedImages_app : forall l1 l2,
  submittedImages (l1 ++ l2) = (submittedImages l1 + submittedImages l2)%Z.
Proof.
  induction l1 as [|s l1 IH]; intros l2; cbn [app submittedImages fold_right].
  - reflexivity.
  - fold (submittedImages (l1 ++ l2)). fold (submittedImages l1).
    rewrite IH. lia.
Qed.

Lemma counted_refl : forall r, counted r r.
Proof.
  intros r. exists []. rewrite app_nil_r. cbn. split; [reflexivity|lia].
Qed.

Lemma counted_trans : forall r1 r2 r3,
  counted r1 r2 -> counted r2 r3 -> counted r1 r3.
Proof.
  intros r1 r2 r3 (m1 & S1 & C1) (m2 & S2 & C2). exists (m1 ++ m2).
  rewrite S2, S1, C2, C1, submittedImages_app, app_assoc.
  split; [reflexivity|lia].
Qed.

Lemma withRunLogger_fold_counted :
  forall (A : Type) (f : A -> Logger.t -> Logger.t) l r,
  submitted (fold_left (fun r x => withRunLogger r (f x)) l r) = submitted r
  /\ uploadedImagesCount (fold_left (fun r x => withRunLogger r (f x)) l r)
     = uploadedImagesCount r
  /\ clock (fold_left (fun r x => withRunLogger r (f x)) l r) = clock r.
Proof.
  intros A f l. induction l as [|x l IH]; intros r; cbn [fold_left].
  - repeat split.
  - destruct (IH (withRunLogger r (f x))) as (H1 & H2 & H3).
    rewrite H1, H2, H3. repeat split.
Qed.

Section UploaderCounts.

Variable entity : gostring -> option rune.
Variable entity2 : gostring -> option (rune * rune).
Variable filepath_Join : list gostring -> gostring.
Variable filepath_Base : gostring -> gostring.
Variable unicode_ToLower : rune -> rune.
Variable fmt_d : Z -> gostring.
Variable generateUUID : nat -> gostring.
Variable CreateArticle : nat -> gostring -> gostring -> gostring -> Z -> option Z.
Variable Stat : nat -> gostring -> bool.
Variable UploadImage : nat -> gostring -> gostring -> gostring -> UploadResult.
Variable UpdateArticleContents :
  nat -> gostring -> gostring -> gostring -> list Block.t -> bool -> bool.

#[local] Abbreviation articleBlocks'' :=
  (articleBlocks entity entity2 filepath_Join filepath_Base unicode_ToLower
                 fmt_d generateUUID Stat UploadImage).
#[local] Abbreviation uploadArticle'' :=
  (uploadArticle entity entity2 filepath_Join filepath_Base unicode_ToLower
                 fmt_d generateUUID CreateArticle Stat UploadImage
                 UpdateArticleContents).
#[local] Abbreviation uploadChapters'' :=
  (uploadChapters entity entity2 filepath_Join filepath_Base unicode_ToLower
                  fmt_d generateUUID CreateArticle Stat UploadImage
                  UpdateArticleContents).

(** X9.  When the identifiers drawn while the blocks of an article are
    built differ from one another, no two blocks of the article have the
    same identifier: an entry of a step's [content_block_ids] names one
    block only. *)
Theorem X9_block_identifiers_differ :
  forall siteID chapter article articleID imagesDir r bs r',
  articleBlocks'' siteID chapter article articleID imagesDir r = Some (bs, r') ->
  fresh_ids generateUUID (clock r) (clock r') ->
  NoDup (map Block.uuid (contentBlocks bs)).
Proof.
  intros siteID chapter article articleID imagesDir r bs r' H Hfresh.
  apply (articleBlocks_carried entity entity2 filepath_Join filepath_Base
           unicode_ToLower fmt_d generateUUID Stat UploadImage (clock r)) in H.
  destruct H as (_ & _ & Hu & _).
  destruct Hu as (_ & ns & Hmap & Hnd & Hall).
  - split; [apply Nat.le_refl|]. exists []. repeat split; constructor.
  - rewrite Hmap. eapply NoDup_map_fresh; eassumption.
Qed.

Lemma uploadArticle_counted :
  forall contentDir siteID chapterID chapter article r r',
  uploadArticle'' contentDir siteID chapterID chapter (Some r) article = Some r' ->
  counted r r'.
Proof.
  intros until r'. unfold uploadArticle.
  destruct (CreateArticle _ _ _ _ _) as [articleID|].
  - match goal with
    | |- context [articleBlocks ?a ?b ?c ?d ?e ?f ?g ?h ?i ?j ?k ?l ?m ?n ?o] =>
        destruct (articleBlocks a b c d e f g h i j k l m n o)
          as [[bs1 r1]|] eqn:E; [|discriminate]
    end.
    intros [= <-].
    apply (articleBlocks_carried entity entity2 filepath_Join filepath_Base
             unicode_ToLower fmt_d generateUUID Stat UploadImage 0) in E.
    destruct E as (_ & Hs & _ & Hi).
    destruct (withRunLogger_fold_counted _
                (fun step l => Logger.set_processedImages l
                   (Logger.processedImages l + zlen (SSStep.Images step))%Z)
                (SSArticle.Steps article)
                (withRunLogger
                   (tick (submit r1 articleID (contentBlocks bs1)))
                   (fun l => Logger.set_processedArticles l
                               (Logger.processedArticles l + 1)%Z)))
      as (H1 & H2 & _).
    exists [(articleID, contentBlocks bs1)].
    rewrite H1, H2.
    cbn [submitted uploadedImagesCount withRunLogger tick submit] in *.
    rewrite Hs. split; [reflexivity|].
    cbn [submittedImages fold_right snd contentBlocks] in *.
    change (imageBlocks []) with 0%Z in Hi. lia.
  - intros [= <-]. exists [].
    cbn [submitted uploadedImagesCount withRunLogger tick submittedImages
         fold_right].
    rewrite app_nil_r. split; [reflexivity|lia].
Qed.

Lemma uploadArticle_fold_counted :
  forall contentDir siteID chapterID chapter articles r r',
  fold_left (uploadArticle'' contentDir siteID chapterID chapter) articles (Some r)
  = Some r' ->
  counted r r'.
Proof.
  intros contentDir siteID chapterID chapter.
  induction articles as [|article articles IH]; intros r r'; cbn [fold_left].
  - intros [= <-]. apply counted_refl.
  - destruct (uploadArticle'' contentDir siteID chapterID chapter (Some r) article)
      as [r1|] eqn:E.
    + intros H. eapply counted_trans.
      * eapply uploadArticle_counted; exact E.
      * eapply IH; exact H.
    + rewrite uploadArticle_None. discriminate.
Qed.

(** X10.  When the upload of the chapters comes to its end, the number
    reported as [Images uploaded] has grown by the number of image blocks
    in the contents submitted for the articles, whether or not the server
    accepted these contents. *)
Theorem X10_uploaded_count_is_image_blocks :
  forall contentDir siteID chapterMap chapters chapterIdx r rEnd,
  uploadChapters'' contentDir siteID chapterMap chapterIdx chapters (Some r)
  = Some rEnd ->
  exists more,
    submitted rEnd = submitted r ++ more
    /\ uploadedImagesCount rEnd
       = (uploadedImagesCount r + submittedImages more)%Z.
Proof.
  intros contentDir siteID chapterMap.
  induction chapters as [|ch chapters IH]; intros chapterIdx r rEnd;
    cbn [uploadChapters option_map].
  - intros [= <-]. apply counted_refl.
  - intros H.
    destruct (fold_left
                (uploadArticle'' contentDir siteID (chapterMap (SSChapter.ID ch)) ch)
                (SSChapter.Articles ch)
                (Some (withRunLogger r (fun l =>
                   Logger.set_currentChapter l (chapterIdx + 1)%Z))))
      as [r1|] eqn:E.
    + apply uploadArticle_fold_counted in E. apply IH in H.
      apply (counted_trans r r1 rEnd); [exact E|exact H].
    + rewrite uploadChapters_None in H. discriminate.
Qed.

End UploaderCounts.

(** X9, an instance: the article of the example, every image uploaded;
    the identifiers are [uuid-0], [uuid-1], ... *)
Lemma X9_block_identifiers_differ_witness :
  Example.uploadAccepted = Some (Example.blocksAccepted, Example.runAccepted)
  /\ fresh_ids Example.generateUUID (clock Example.run0)
               (clock Example.runAccepted)
  /\ NoDup (map Block.uuid (contentBlocks Example.blocksAccepted)).
Proof.
  assert (E : Example.uploadAccepted
              = Some (Example.blocksAccepted, Example.runAccepted))
    by (vm_compute; reflexivity).
  assert (F : fresh_ids Example.generateUUID (clock Example.run0)
                        (clock Example.runAccepted)).
  { apply (fresh_ids_NoDup Example.generateUUID 0 (clock Example.runAccepted)).
    vm_compute.
    repeat (constructor;
            [intros H; cbn [In] in H;
             repeat (destruct H as [H|H]; [discriminate H|]); exact H|]).
    constructor. }
  split; [exact E|]. split; [exact F|].
  exact (X9_block_identifiers_differ Example.entity Example.entity2
           Example.join Example.base Example.toLower Example.fmt_d
           Example.generateUUID Example.StatPresent Example.UploadAccepted
           (str "site") Example.chapter Example.article 7%Z Example.imagesDir
           Example.run0 Example.blocksAccepted Example.runAccepted E F).
Defined.

(** X10, an instance: the chapter of the example; its one image is
    uploaded and is the one image block submitted. *)
Lemma X10_uploaded_count_is_image_blocks_witness :
  Example2.uploaded = Some Example2.runUploaded
  /\ uploadedImagesCount Example2.runUploaded = 1%Z
  /\ exists more,
       submitted Example2.runUploaded = submitted Example.run0 ++ more
       /\ uploadedImagesCount Example2.runUploaded
          = (uploadedImagesCount Example.run0 + submittedImages more)%Z.
Proof.
  assert (E : Example2.uploaded = Some Example2.runUploaded)
    by (vm_compute; reflexivity).
  split; [exact E|]. split; [reflexivity|].
  exact (X10_uploaded_count_is_image_blocks Example.entity Example.entity2
           Example.join Example.base Example.toLower Example.fmt_d
           Example.generateUUID Example.CreateArticle Example.StatPresent
           Example.UploadAccepted Example.UpdateArticleContents
           (str "out") (str "site") (fun _ => 3%Z) [Example2.chapter] 0%Z
           Example.run0 Example2.runUploaded E).
Defined.

(** ** The uploader: a step without special blocks *)

Lemma m_Alt : forall r1 r2 k st,
  m (Alt r1 r2) k st
  = match m r1 k st with Some x => Some x | None => m r2 k st end.
Proof. reflexivity. Qed.

Lemma requires_prefix : forall a b r, requires (a ++ b) r -> requires a r.
Proof.
  intros a b r H k st Hc. apply H. apply Contains_longer. assumption.
Qed.

Lemma embedAlt_requires_div :
  requires (str "<div")
           (Seq [Lit (qstr "<div class='html-embed'>");
                 Star false (Cls dot_s); Lit (str "</div>")]).
Proof.
  apply (requires_prefix (str "<div") (qstr " class='html-embed'>")).
  exact (requires_here (qstr "<div class='html-embed'>") _).
Qed.

Lemma styledAlt_requires_div :
  requires (str "<div")
           (Seq [Lit (qstr "<div class='screensteps-styled-block'");
                 notgt_star; Chr gt; Star false (Cls dot_s);
                 Lit (str "</div>")]).
Proof.
  apply (requires_prefix (str "<div")
                         (qstr " class='screensteps-styled-block'")).
  exact (requires_here (qstr "<div class='screensteps-styled-block'") _).
Qed.

Lemma imgAlt_requires_img :
  requires (str "<img")
           (Seq [Lit (str "<img"); notgt_plus; Lit (qstr "src='");
                 notq_plus; Chr dq; notgt_star; Chr gt]).
Proof. exact (requires_here (str "<img") _). Qed.

Lemma blockRegex_none : forall s,
  Strings.Contains s (str "<div") = false ->
  Strings.Contains s (str "<img") = false ->
  find_all blockRegex s = [].
Proof.
  intros s Hdiv Himg. unfold find_all. apply find_all_none_suffix.
  intros s' p' pv' Hsuf. unfold match_here, blockRegex.
  rewrite m_Group, !m_Alt.
  assert (Hdiv' := Contains_suffix_false _ _ _ Hdiv Hsuf).
  assert (Himg' := Contains_suffix_false _ _ _ Himg Hsuf).
  rewrite (embedAlt_requires_div _ (MState p' pv' s' []) Hdiv').
  rewrite (styledAlt_requires_div _ (MState p' pv' s' []) Hdiv').
  rewrite (imgAlt_requires_img _ (MState p' pv' s' []) Himg').
  reflexivity.
Qed.

Lemma update_at_middle : forall (A : Type) (f : A -> A) l x t,
  update_at (List.length l) f (l ++ x :: t) = l ++ f x :: t.
Proof.
  intros A f. induction l as [|y l IH]; intros x t; [reflexivity|].
  cbn [List.length app update_at]. rewrite IH. reflexivity.
Qed.

Section PlainStep.

Variable entity : gostring -> option rune.
Variable entity2 : gostring -> option (rune * rune).
Variable filepath_Join : list gostring -> gostring.
Variable filepath_Base : gostring -> gostring.
Variable unicode_ToLower : rune -> rune.
Variable fmt_d : Z -> gostring.
Variable generateUUID : nat -> gostring.
Variable Stat : nat -> gostring -> bool.
Variable UploadImage : nat -> gostring -> gostring -> gostring -> UploadResult.

(** X11.  A step whose content holds neither [<div] nor [<img] gives its
    StepContent block and, when the content has text once its tags are
    stripped, one TextContent block that holds the content as it is,
    tags included, and is the step's only child; when it has no text, the
    StepContent block alone, without children. *)
Theorem X11_step_without_special_blocks :
  forall siteID chapter article articleID imagesDir step blocks so r,
  Strings.Contains (SSStep.Content step) (str "<div") = false ->
  Strings.Contains (SSStep.Content step) (str "<img") = false ->
  processStep entity entity2 filepath_Join filepath_Base unicode_ToLower fmt_d
              generateUUID Stat UploadImage siteID chapter article articleID
              imagesDir (Some (mkBlocks blocks so, r)) step
  = Some
      (if negb (gostring_eqb
                  (Strings.TrimSpace (stripTags (SSStep.Content step))) [])
       then (mkBlocks
               (blocks
                ++ [Block.StepContent (generateUUID (clock r))
                      (SSStep.Title step) 0 so [generateUUID (S (clock r))]
                      (slugify unicode_ToLower (SSStep.Title step)) false false;
                    Block.TextContent (generateUUID (S (clock r)))
                      (SSStep.Content step) 1 (so + 1)%Z None false])
               (so + 1 + 1)%Z,
             tick (tick r))
       else (mkBlocks
               (blocks
                ++ [Block.StepContent (generateUUID (clock r))
                      (SSStep.Title step) 0 so []
                      (slugify unicode_ToLower (SSStep.Title step)) false false])
               (so + 1)%Z,
             tick r)).
Proof.
  intros siteID chapter article articleID imagesDir step blocks so r Hdiv Himg.
  unfold processStep, FindAllStringIndex.
  rewrite blockRegex_none by assumption.
  cbn [map fold_left contentBlocks sortOrder skipn].
  unfold emitPlainText.
  destruct (negb _); [|reflexivity].
  unfold emit, textBlock. cbn [contentBlocks sortOrder Block.uuid clock tick].
  rewrite <- app_assoc. cbn [app].
  rewrite update_at_middle. cbn [Block.append_id app]. reflexivity.
Qed.

End PlainStep.

(** X11, an instance: a step that holds two paragraphs. *)
Lemma X11_step_without_special_blocks_witness :
  Strings.Contains (str "<p>Open it.</p><p>Done.</p>") (str "<div") = false
  /\ Strings.Contains (str "<p>Open it.</p><p>Done.</p>") (str "<img") = false
  /\ processStep Example.entity Example.entity2 Example.join Example.base
                 Example.toLower Example.fmt_d Example.generateUUID
                 Example.StatPresent Example.UploadAccepted (str "site")
                 Example.chapter Example.article 7%Z Example.imagesDir
                 (Some (mkBlocks [] 1%Z, Example.run0))
                 (SSStep.mk (str "s1") (str "First Step") 0%Z
                            (str "<p>Open it.</p><p>Done.</p>") [])
     = Some (mkBlocks
               [Block.StepContent (str "uuid-0") (str "First Step") 0 1
                  [str "uuid-1"] (str "first-step") false false;
                Block.TextContent (str "uuid-1")
                  (str "<p>Open it.</p><p>Done.</p>") 1 2 None false]
               3%Z,
             tick (tick Example.run0)).
Proof.
  split; [reflexivity|]. split; [reflexivity|].
  exact (X11_step_without_special_blocks Example.entity Example.entity2
           Example.join Example.base Example.toLower Example.fmt_d
           Example.generateUUID Example.StatPresent Example.UploadAccepted
           (str "site") Example.chapter Example.article 7%Z Example.imagesDir
           (SSStep.mk (str "s1") (str "First Step") 0%Z
                      (str "<p>Open it.</p><p>Done.</p>") [])
           [] 1%Z Example.run0 eq_refl eq_refl).
Defined.

(** ** The summary of skipped images: the groups *)

Lemma gostring_eqb_sym : forall a b, gostring_eqb a b = gostring_eqb b a.
Proof.
  intros a b. destruct (gostring_eqb a b) eqn:E1, (gostring_eqb b a) eqn:E2;
    try reflexivity.
  - apply gostring_eqb_eq in E1. subst b. rewrite gostring_eqb_refl in E2.
    discriminate.
  - apply gostring_eqb_eq in E2. subst b. rewrite gostring_eqb_refl in E1.
    discriminate.
Qed.

Section Groups.

Variable V : Type.
Variable key : V -> gostring.

Lemma existsb_key : forall k (mp : list (gostring * list V)),
  existsb (fun kv => gostring_eqb (fst kv) k) mp = true <-> In k (map fst mp).
Proof.
  intros k mp. rewrite existsb_exists. split.
  - intros ([k0 vs] & Hin & E). apply gostring_eqb_eq in E. cbn [fst] in E.
    subst k0. apply in_map_iff. exists (k, vs). split; [reflexivity|assumption].
  - intros H. apply in_map_iff in H. destruct H as ([k0 vs] & E & Hin).
    cbn [fst] in E. subst k0. exists (k, vs). split; [assumption|].
    apply gostring_eqb_refl.
Qed.

Lemma appendTo_keys : forall k (v : V) mp,
  map fst (appendTo k v mp)
  = if existsb (fun kv => gostring_eqb (fst kv) k) mp
    then map fst mp else map fst mp ++ [k].
Proof.
  intros k v. induction mp as [|[k0 vs] mp IH]; [reflexivity|].
  cbn [appendTo existsb fst]. destruct (gostring_eqb k0 k) eqn:E.
  - reflexivity.
  - cbn [map fst orb]. rewrite IH.
    destruct (existsb _ mp); reflexivity.
Qed.

Lemma appendTo_NoDup : forall k (v : V) mp,
  NoDup (map fst mp) -> NoDup (map fst (appendTo k v mp)).
Proof.
  intros k v mp H. rewrite appendTo_keys.
  destruct (existsb _ mp) eqn:E; [assumption|].
  apply NoDup_app; [assumption|repeat constructor; intros []|].
  intros x Hx [<-|[]]. apply existsb_key in Hx. congruence.
Qed.

Lemma appendTo_nonempty : forall k (v : V) mp,
  Forall (fun kv => snd kv <> []) mp ->
  Forall (fun kv => snd kv <> []) (appendTo k v mp).
Proof.
  intros k v. induction mp as [|[k0 vs] mp IH]; intros H.
  - repeat constructor. discriminate.
  - inversion H as [|? ? H1 H2]. subst. cbn [appendTo].
    destruct (gostring_eqb k0 k).
    + constructor; [|assumption]. cbn [snd]. destruct vs; discriminate.
    + constructor; [assumption|apply IH; assumption].
Qed.

Lemma appendTo_groupOf : forall k (v : V) mp k',
  groupOf k' (appendTo k v mp)
  = groupOf k' mp ++ (if gostring_eqb k' k then [v] else []).
Proof.
  intros k v. induction mp as [|[k0 vs] mp IH]; intros k'.
  - cbn [appendTo groupOf]. rewrite (gostring_eqb_sym k k').
    destruct (gostring_eqb k' k); reflexivity.
  - cbn [appendTo]. destruct (gostring_eqb k0 k) eqn:E.
    + apply gostring_eqb_eq in E. subst k0. cbn [groupOf].
      rewrite (gostring_eqb_sym k k').
      destruct (gostring_eqb k' k) eqn:E'; [reflexivity|].
      rewrite app_nil_r. reflexivity.
    + cbn [groupOf]. destruct (gostring_eqb k0 k') eqn:E'.
      * apply gostring_eqb_eq in E'. subst k0. rewrite E.
        rewrite app_nil_r. reflexivity.
      * apply IH.
Qed.

Lemma In_groupOf : forall (mp : list (gostring * list V)) k vs,
  NoDup (map fst mp) -> In (k, vs) mp -> groupOf k mp = vs.
Proof.
  induction mp as [|[k0 vs0] mp IH]; intros k vs Hnd Hin; [destruct Hin|].
  cbn [map fst] in Hnd. inversion Hnd as [|? ? Hnotin Hnd']. subst.
  cbn [groupOf]. destruct Hin as [[= -> ->]|Hin].
  - rewrite gostring_eqb_refl. reflexivity.
  - destruct (gostring_eqb k0 k) eqn:E.
    + apply gostring_eqb_eq in E. subst k0. exfalso. apply Hnotin.
      apply in_map_iff. exists (k, vs). split; [reflexivity|assumption].
    + apply IH; assumption.
Qed.

Lemma groupBy_fold : forall l p mp,
  NoDup (map fst mp) -> Forall (fun kv => snd kv <> []) mp ->
  (forall k, groupOf k mp = filter (fun v => gostring_eqb k (key v)) p) ->
  NoDup (map fst (fold_left (fun mp v => appendTo (key v) v mp) l mp))
  /\ Forall (fun kv => snd kv <> [])
            (fold_left (fun mp v => appendTo (key v) v mp) l mp)
  /\ (forall k, groupOf k (fold_left (fun mp v => appendTo (key v) v mp) l mp)
                = filter (fun v => gostring_eqb k (key v)) (p ++ l)).
Proof.
  induction l as [|v l IH]; intros p mp Hnd Hne Hg.
  - cbn [fold_left]. rewrite app_nil_r. auto.
  - cbn [fold_left].
    replace (p ++ v :: l) with ((p ++ [v]) ++ l)
      by (rewrite <- app_assoc; reflexivity).
    apply IH.
    + apply appendTo_NoDup. assumption.
    + apply appendTo_nonempty. assumption.
    + intros k. rewrite appendTo_groupOf, Hg, filter_app. cbn [filter].
      reflexivity.
Qed.

(** The groups of [groupBy]: one per key, none empty, each holding the
    values of its key in their order in the list. *)
Lemma groupBy_groups : forall l,
  NoDup (map fst (groupBy key l))
  /\ forall k vs, In (k, vs) (groupBy key l) ->
       vs = filter (fun v => gostring_eqb k (key v)) l /\ vs <> [].
Proof.
  intros l. unfold groupBy.
  destruct (groupBy_fold l [] []) as (Hnd & Hne & Hg);
    [constructor|constructor|reflexivity|].
  split; [assumption|]. intros k vs Hin. split.
  - rewrite <- (In_groupOf _ _ _ Hnd Hin). apply Hg.
  - rewrite Forall_forall in Hne. apply (Hne (k, vs) Hin).
Qed.

End Groups.

Lemma filter_filter : forall (A : Type) (p q : A -> bool) l,
  filter q (filter p l) = filter (fun x => p x && q x) l.
Proof.
  intros A p q. induction l as [|x l IH]; [reflexivity|].
  cbn [filter]. destruct (p x); cbn [filter andb].
  - destruct (q x); rewrite IH; reflexivity.
  - apply IH.
Qed.

(** X12.  In the summary of skipped images, whatever the order in which
    the maps are visited: every chapter title is visited once; within a
    chapter every article title is visited once; and under a chapter and
    an article the loop visits exactly the skipped images of that chapter
    and article, at least one, in the order in which they were skipped. *)
Theorem X12_summary_groups :
  forall (mapRange : forall V : Type, list (gostring * V) -> list (gostring * V))
         skipped,
  (forall V mp, Permutation (mapRange V mp) mp) ->
  NoDup (map fst (visitSkipped mapRange skipped))
  /\ forall ce, In ce (visitSkipped mapRange skipped) ->
       NoDup (map fst (snd ce))
       /\ forall ae, In ae (snd ce) ->
            snd ae
            = filter (fun img =>
                        gostring_eqb (fst ce) (SkippedImage.ChapterTitle img)
                        && gostring_eqb (fst ae) (SkippedImage.ArticleTitle img))
                     skipped
            /\ snd ae <> [].
Proof.
  intros mapRange skipped Hperm. unfold visitSkipped.
  destruct (groupBy_groups _ SkippedImage.ChapterTitle skipped) as (Hnd & Hg).
  split.
  - rewrite map_map. cbn [fst].
    eapply Permutation_NoDup; [|exact Hnd].
    apply Permutation_map, Permutation_sym, Hperm.
  - intros ce Hin. apply in_map_iff in Hin.
    destruct Hin as ([c imgs] & <- & Hin). cbn [fst snd].
    apply (Permutation_in _ (Hperm _ _)) in Hin.
    destruct (Hg c imgs Hin) as (Himgs & _).
    destruct (groupBy_groups _ SkippedImage.ArticleTitle imgs) as (Hnd2 & Hg2).
    split.
    + eapply Permutation_NoDup; [|exact Hnd2].
      apply Permutation_map, Permutation_sym, Hperm.
    + intros [a vs] Hae. cbn [fst snd].
      apply (Permutation_in _ (Hperm _ _)) in Hae.
      destruct (Hg2 a vs Hae) as (Hvs & Hne). split; [|assumption].
      rewrite Hvs, Himgs. apply filter_filter.
Qed.

(** X12, an instance: maps visited in reverse; three images skipped in
    two chapters. *)
Lemma X12_summary_groups_witness :
  (forall V mp, Permutation (Example.mapRange V mp) mp)
  /\ visitSkipped Example.mapRange
       [SkippedImage.mk (str "a.png") (str "C1") (str "A1") (str "S1");
        SkippedImage.mk (str "b.png") (str "C2") (str "A1") (str "S1");
        SkippedImage.mk (str "c.png") (str "C1") (str "A1") (str "S2")]
     = [(str "C2", [(str "A1",
                     [SkippedImage.mk (str "b.png") (str "C2") (str "A1")
                                      (str "S1")])]);
        (str "C1", [(str "A1",
                     [SkippedImage.mk (str "a.png") (str "C1") (str "A1")
                                      (str "S1");
                      SkippedImage.mk (str "c.png") (str "C1") (str "A1")
                                      (str "S2")])])]
  /\ NoDup (map fst (visitSkipped Example.mapRange
       [SkippedImage.mk (str "a.png") (str "C1") (str "A1") (str "S1");
        SkippedImage.mk (str "b.png") (str "C2") (str "A1") (str "S1");
        SkippedImage.mk (str "c.png") (str "C1") (str "A1") (str "S2")])).
Proof.
  assert (H : forall V mp, Permutation (Example.mapRange V mp) mp)
    by (intros V mp; unfold Example.mapRange; apply Permutation_sym,
        Permutation_rev).
  split; [exact H|]. split; [vm_compute; reflexivity|].
  exact (proj1 (X12_summary_groups Example.mapRange _ H)).
Defined.

(** ** The flattener's progress counters *)

Lemma zsum_app : forall (A : Type) (f : A -> Z) l1 l2,
  zsum f (l1 ++ l2) = (zsum f l1 + zsum f l2)%Z.
Proof.
  intros A f. induction l1 as [|x l1 IH]; intros l2; [reflexivity|].
  cbn [app]. unfold zsum in *. cbn [fold_right]. rewrite IH. lia.
Qed.

Lemma zsum_cons : forall (A : Type) (f : A -> Z) x l,
  zsum f (x :: l) = (f x + zsum f l)%Z.
Proof. reflexivity. Qed.

Lemma fold_left_zsum : forall (A : Type) (f : A -> Z) l a,
  fold_left (fun n x => (n + f x)%Z) l a = (a + zsum f l)%Z.
Proof.
  intros A f. induction l as [|x l IH]; intros a; cbn [fold_left].
  - unfold zsum. cbn. lia.
  - rewrite IH, zsum_cons. lia.
Qed.

Lemma advanced_same : forall l,
  advanced l (Logger.currentChapter l) 0 0 = l.
Proof.
  intros [a b c d e f g h i]. unfold advanced. cbn. f_equal; lia.
Qed.

Lemma advanced_twice : forall l ch1 a1 i1 ch2 a2 i2,
  advanced (advanced l ch1 a1 i1) ch2 a2 i2
  = advanced l ch2 (a1 + a2) (i1 + i2).
Proof.
  intros [a b c d e f g h i] ch1 a1 i1 ch2 a2 i2. unfold advanced. cbn.
  f_equal; lia.
Qed.

Ltac logger_eq l :=
  destruct l as [a b d e f g h i j];
  unfold advanced, Logger.set_processedArticles, Logger.set_processedImages,
         Logger.set_currentArticle, Logger.set_currentChapter;
  cbn [Logger.totalManuals Logger.totalChapters Logger.totalArticles
       Logger.totalImages Logger.currentManual Logger.currentChapter
       Logger.currentArticle Logger.processedArticles Logger.processedImages];
  f_equal; lia.

Section CounterFacts.

Variable entity : gostring -> option rune.
Variable entity2 : gostring -> option (rune * rune).
Variable mapOrder : nat -> list (gostring * gostring).

#[local] Abbreviation flattenStep' := (flattenStep entity entity2 mapOrder).
#[local] Abbreviation flattenArticle' := (flattenArticle entity entity2 mapOrder).
#[local] Abbreviation flattenChapter' := (flattenChapter entity entity2 mapOrder).
#[local] Abbreviation flattenChapters' := (flattenChapters entity entity2 mapOrder).

Lemma flattenStep_counters : forall nodes steps c,
  logger (snd (fold_left flattenStep' nodes (steps, c)))
  = advanced (logger c) (Logger.currentChapter (logger c)) 0
             (zsum (fun n => zlen (getNodeImages n)) nodes)
  /\ zsum (fun s => zlen (SSStep.Images s))
          (fst (fold_left flattenStep' nodes (steps, c)))
     = (zsum (fun s => zlen (SSStep.Images s)) steps
        + zsum (fun n => zlen (getNodeImages n)) nodes)%Z.
Proof.
  induction nodes as [|node nodes IH]; intros steps c; cbn [fold_left].
  - cbn [fst snd]. rewrite advanced_same. unfold zsum at 3. cbn. split;
      [reflexivity|lia].
  - unfold flattenStep at 2 4. unfold cleanHTML_c.
    match goal with
    | |- context [fold_left _ nodes (?s, ?c1)] =>
        destruct (IH s c1) as (H1 & H2)
    end.
    rewrite H1, H2. cbn [logger withLogger cleanCalls].
    rewrite zsum_app, !zsum_cons. cbn [SSStep.Images].
    split.
    + logger_eq (logger c).
    + unfold zsum at 2. cbn [fold_right]. lia.
Qed.

Lemma noChildren_childNodes : forall node,
  noChildren node = true -> childNodes node = [].
Proof.
  intros node H. unfold noChildren, childNodes in *.
  destruct (ContentNode.Children node) as [[|x l]|];
    [reflexivity|discriminate|reflexivity].
Qed.

Lemma flattenArticle_counters : forall arts position c node,
  exists a c',
    flattenArticle' (arts, position, c) node
    = (arts ++ [a], (position + 1)%Z, c')
    /\ logger c' = advanced (logger c) (Logger.currentChapter (logger c)) 1
                            (articleProcessed node)
    /\ stepImagesOf a = articleProcessed node.
Proof.
  intros arts position c node. unfold flattenArticle, articleProcessed.
  destruct (noChildren node) eqn:E; cbn [negb].
  - rewrite (noChildren_childNodes node E).
    unfold synthesizeStep, cleanHTML_c. eexists. eexists.
    split; [reflexivity|]. cbn [logger withLogger cleanCalls app].
    unfold stepImagesOf, zsum. cbn [SSArticle.Steps fold_right SSStep.Images].
    split; [|lia].
    logger_eq (logger c).
  - match goal with
    | |- context [fold_left _ (childNodes node) (?s, ?c1)] =>
        destruct (flattenStep_counters (childNodes node) s c1) as (H1 & H2);
        destruct (fold_left flattenStep' (childNodes node) (s, c1))
          as [steps c2] eqn:Ef
    end.
    cbn [fst snd] in H1, H2. eexists. eexists. split; [reflexivity|].
    cbn [logger withLogger cleanCalls]. rewrite H1.
    unfold stepImagesOf. cbn [SSArticle.Steps]. rewrite H2.
    cbn [logger withLogger].
    split; [|unfold zsum at 1; cbn [fold_right]; lia].
    logger_eq (logger c).
Qed.

Lemma flattenArticle_fold_counters : forall nodes arts position c,
  exists new position' c',
    fold_left flattenArticle' nodes (arts, position, c)
    = (arts ++ new, position', c')
    /\ List.length new = List.length nodes
    /\ logger c' = advanced (logger c) (Logger.currentChapter (logger c))
                            (zlen nodes) (zsum articleProcessed nodes)
    /\ zsum stepImagesOf new = zsum articleProcessed nodes.
Proof.
  induction nodes as [|node nodes IH]; intros arts position c; cbn [fold_left].
  - exists [], position, c. rewrite app_nil_r, advanced_same.
    repeat split.
  - destruct (flattenArticle_counters arts position c node)
      as (a & c1 & E & Hl & Hi).
    rewrite E.
    destruct (IH (arts ++ [a]) (position + 1)%Z c1)
      as (new & position' & c' & E' & Hlen & Hl' & Hi').
    exists (a :: new), position', c'. rewrite E', <- app_assoc.
    split; [reflexivity|]. split; [cbn [List.length]; congruence|].
    rewrite !zsum_cons, Hi, Hi'. split; [|reflexivity].
    rewrite Hl', Hl, advanced_twice. cbn [Logger.currentChapter advanced].
    unfold zlen. cbn [List.length]. f_equal. lia.
Qed.

Lemma flattenChapter_counters : forall c chapterIdx node,
  exists ch c',
    flattenChapter' c chapterIdx node = (ch, c')
    /\ logger c' = advanced (logger c) chapterIdx (zlen (childNodes node))
                            (zsum articleProcessed (childNodes node))
    /\ zlen (SSChapter.Articles ch) = zlen (childNodes node)
    /\ zsum stepImagesOf (SSChapter.Articles ch)
       = zsum articleProcessed (childNodes node).
Proof.
  intros c chapterIdx node. unfold flattenChapter, cleanHTML_c, childNodes.
  destruct (ContentNode.Children node) as [articleNodes|].
  - match goal with
    | |- context [fold_left _ articleNodes (?s, ?p, ?c1)] =>
        destruct (flattenArticle_fold_counters articleNodes s p c1)
          as (new & position' & c' & E & Hlen & Hl & Hi)
    end.
    rewrite E. eexists. eexists. split; [reflexivity|].
    cbn [SSChapter.Articles app]. rewrite Hl, Hi.
    cbn [logger withLogger Logger.set_currentChapter Logger.currentChapter].
    unfold zlen. rewrite Hlen.
    split; [logger_eq (logger c)|split; reflexivity].
  - eexists. eexists. split; [reflexivity|].
    cbn [SSChapter.Articles logger withLogger].
    split; [|split; reflexivity].
    unfold zlen, zsum. cbn [List.length fold_right Z.of_nat].
    logger_eq (logger c).
Qed.

Lemma flattenChapters_counters : forall nodes idx chapters chapterIdx c,
  Logger.currentChapter (logger c) = chapterIdx ->
  exists new c',
    flattenChapters' (S idx) nodes chapters chapterIdx c = (chapters ++ new, c')
    /\ zlen new = zlen nodes
    /\ logger c'
       = advanced (logger c) (chapterIdx + zlen nodes)
                  (zsum (fun ch => zlen (childNodes ch)) nodes)
                  (zsum (fun ch => zsum articleProcessed (childNodes ch)) nodes)
    /\ articlesIn new = zsum (fun ch => zlen (childNodes ch)) nodes
    /\ imagesIn new
       = zsum (fun ch => zsum articleProcessed (childNodes ch)) nodes.
Proof.
  induction nodes as [|node nodes IH]; intros idx chapters chapterIdx c Hcur.
  - exists [], c. cbn [flattenChapters]. rewrite app_nil_r.
    split; [reflexivity|]. split; [reflexivity|].
    split; [|split; reflexivity].
    unfold zlen, zsum. cbn [List.length fold_right Z.of_nat].
    rewrite Z.add_0_r, <- Hcur. symmetry. apply advanced_same.
  - cbn [flattenChapters Nat.eqb andb].
    destruct (flattenChapter_counters c (chapterIdx + 1)%Z node)
      as (ch & c1 & E & Hl & Ha & Hi).
    rewrite E.
    destruct (IH (S idx) (chapters ++ [ch]) (chapterIdx + 1)%Z c1)
      as (new & c' & E' & Hlen & Hl' & Ha' & Hi').
    { rewrite Hl. reflexivity. }
    exists (ch :: new), c'. rewrite E', <- app_assoc.
    split; [reflexivity|].
    split; [unfold zlen in *; cbn [List.length]; lia|].
    unfold articlesIn, imagesIn in *. rewrite !zsum_cons, Ha, Hi, Ha', Hi'.
    split; [|split; reflexivity].
    rewrite Hl', Hl, advanced_twice. unfold zlen. cbn [List.length].
    f_equal. lia.
Qed.

Lemma countArticleImages_fold : forall nodes n,
  fold_left countArticleImages nodes n
  = (n + zsum (fun a => zlen (getNodeImages a)
                        + zsum (fun s => zlen (getNodeImages s)) (childNodes a))
              nodes)%Z.
Proof.
  induction nodes as [|a nodes IH]; intros n; cbn [fold_left].
  - unfold zsum. cbn. lia.
  - rewrite IH, zsum_cons. unfold countArticleImages, countStepImages.
    rewrite fold_left_zsum. lia.
Qed.

Lemma countTotals_later : forall nodes idx tc ta ti,
  countTotals (S idx) nodes (tc, ta, ti)
  = ((tc + zlen nodes)%Z,
     (ta + zsum (fun ch => zlen (childNodes ch)) nodes)%Z,
     (ti + zsum (fun ch =>
                   zsum (fun a => zlen (getNodeImages a)
                                  + zsum (fun s => zlen (getNodeImages s))
                                         (childNodes a))
                        (childNodes ch)) nodes)%Z).
Proof.
  induction nodes as [|node nodes IH]; intros idx tc ta ti.
  - cbn [countTotals]. unfold zlen, zsum. cbn [List.length fold_right Z.of_nat].
    f_equal; [f_equal; lia|lia].
  - cbn [countTotals Nat.eqb andb]. rewrite IH, countArticleImages_fold.
    rewrite !zsum_cons. unfold zlen. cbn [List.length].
    f_equal; [f_equal; lia|lia].
Qed.

Lemma zsum_ext : forall (A : Type) (f g : A -> Z) l,
  (forall x, f x = g x) -> zsum f l = zsum g l.
Proof.
  intros A f g l H. induction l as [|x l IH]; [reflexivity|].
  rewrite !zsum_cons, IH, H. reflexivity.
Qed.

Lemma zsum_plus : forall (A : Type) (f g : A -> Z) l,
  zsum (fun x => (f x + g x)%Z) l = (zsum f l + zsum g l)%Z.
Proof.
  intros A f g. induction l as [|x l IH]; [reflexivity|].
  rewrite !zsum_cons, IH. lia.
Qed.

Lemma total_is_processed_plus_parents : forall nodes,
  zsum (fun ch =>
          zsum (fun a => (zlen (getNodeImages a)
                          + zsum (fun s => zlen (getNodeImages s))
                                 (childNodes a))%Z)
               (childNodes ch)) nodes
  = (zsum (fun ch => zsum articleProcessed (childNodes ch)) nodes
     + zsum (fun ch => zsum (fun a => if noChildren a then 0%Z
                                      else zlen (getNodeImages a))
                            (childNodes ch)) nodes)%Z.
Proof.
  intros nodes. rewrite <- zsum_plus. apply zsum_ext. intros ch.
  rewrite <- zsum_plus. apply zsum_ext. intros a.
  unfold articleProcessed. destruct (noChildren a); lia.
Qed.

(** X13.  After [flattenStructure], the counters of the logger agree
    with the chapters returned: as many chapters in total as returned,
    the last one current; as many articles in total, current and
    processed as the chapters hold; as many images processed as the
    steps hold.  The total of images announced exceeds this number by
    the images attached to the article nodes that have step nodes, which
    no step receives. *)
Theorem X13_counters_match_output : forall c manual,
  let chapters := fst (flattenStructure entity entity2 mapOrder c manual) in
  let l := logger (snd (flattenStructure entity entity2 mapOrder c manual)) in
  Logger.totalManuals l = 1%Z /\ Logger.currentManual l = 1%Z
  /\ Logger.totalChapters l = zlen chapters
  /\ Logger.currentChapter l = zlen chapters
  /\ Logger.totalArticles l = articlesIn chapters
  /\ Logger.currentArticle l = articlesIn chapters
  /\ Logger.processedArticles l = articlesIn chapters
  /\ Logger.processedImages l = imagesIn chapters
  /\ Logger.totalImages l = (imagesIn chapters + parentImages manual)%Z.
Proof.
  intros c manual. unfold flattenStructure, parentImages, chapterNodes.
  destruct (Manual.ContentNodes manual) as [|first others].
  - cbn. repeat split.
  - cbn [countTotals flattenChapters Nat.eqb andb].
    destruct (noChildren first) eqn:E.
    + rewrite countTotals_later.
      match goal with
      | |- context [flattenChapters _ _ _ 1 others [] 0%Z ?c0] =>
          destruct (flattenChapters_counters others 0 [] 0%Z c0 eq_refl)
            as (new & c' & E' & Hlen & Hl & Ha & Hi)
      end.
      rewrite E'. cbn [fst snd app]. rewrite Hl, Ha, Hi.
      cbn [logger withLogger advanced Logger.totalManuals
           Logger.currentManual Logger.totalChapters Logger.currentChapter
           Logger.totalArticles Logger.currentArticle
           Logger.processedArticles Logger.processedImages
           Logger.totalImages].
      rewrite Hlen, total_is_processed_plus_parents.
      repeat split; lia.
    + rewrite countArticleImages_fold, countTotals_later.
      destruct (flattenChapter_counters
                  (withLogger c (fun _ =>
                     Logger.mk 1
                       (0 + 1 + zlen others)
                       (0 + zlen (childNodes first)
                        + zsum (fun ch => zlen (childNodes ch)) others)
                       (0 + zsum (fun a => (zlen (getNodeImages a)
                                    + zsum (fun s => zlen (getNodeImages s))
                                           (childNodes a))%Z)
                                 (childNodes first)
                        + zsum (fun ch =>
                             zsum (fun a => (zlen (getNodeImages a)
                                      + zsum (fun s => zlen (getNodeImages s))
                                             (childNodes a))%Z)
                                  (childNodes ch)) others)
                       1 0 0 0 0))
                  (0 + 1)%Z first)
        as (ch & c1 & E1 & Hl1 & Ha1 & Hi1).
      rewrite E1.
      destruct (flattenChapters_counters others 0 ([] ++ [ch]) (0 + 1)%Z c1)
        as (new & c' & E' & Hlen & Hl & Ha & Hi).
      { rewrite Hl1. reflexivity. }
      rewrite E'. cbn [fst snd app]. rewrite Hl, Hl1, advanced_twice.
      unfold articlesIn, imagesIn in *. rewrite !zsum_cons, Ha1, Hi1, Ha, Hi.
      cbn [logger withLogger advanced Logger.totalManuals
           Logger.currentManual Logger.totalChapters Logger.currentChapter
           Logger.totalArticles Logger.currentArticle
           Logger.processedArticles Logger.processedImages
           Logger.totalImages].
      assert (T := total_is_processed_plus_parents (first :: others)).
      rewrite !zsum_cons in T.
      unfold zlen in *. cbn [List.length].
      repeat split; lia.
Qed.

End CounterFacts.

(** ** The uploader: embeds *)

Lemma screenStepsEmbed_split : forall videoID,
  screenStepsEmbed videoID
  = qstr "<div class='html-embed'>" ++ embedBody videoID ++ str "</div>".
Proof.
  intros videoID. unfold screenStepsEmbed, embedBody.
  rewrite <- !app_assoc. reflexivity.
Qed.

Lemma blockRegex_needs_lit : forall p pv s,
  Strings.HasPrefix s (str "<div") = false ->
  Strings.HasPrefix s (str "<img") = false ->
  match_here blockRegex p pv s = None.
Proof.
  intros p pv s Hdiv Himg. unfold match_here, blockRegex.
  rewrite m_Group, !m_Alt. unfold Seq. cbn [fold_right].
  rewrite m_Cat, m_Lit_fail
    by (apply (HasPrefix_longer (str "<div") (qstr " class='html-embed'>"));
        assumption).
  rewrite m_Cat, m_Lit_fail
    by (apply (HasPrefix_longer (str "<div")
                                (qstr " class='screensteps-styled-block'"));
        assumption).
  rewrite m_Cat, m_Lit_fail by assumption.
  reflexivity.
Qed.

(** Before a block that begins with [<di], and after the last block,
    [blockRegex] has no match. *)
Lemma quietBefore_no_match : forall pre1 pre2 tail p pv,
  quietBefore (pre1 ++ pre2) = true -> pre2 <> [] ->
  match_here blockRegex p pv (pre2 ++ (str "<div" ++ tail)) = None.
Proof.
  intros pre1 pre2 tail p pv H Hne. unfold quietBefore in H.
  apply andb_true_iff in H. destruct H as [Hdiv Himg].
  apply negb_true_iff in Himg.
  apply blockRegex_needs_lit.
  - eapply firstAt_no_earlier; eassumption.
  - change (str "<div" ++ tail) with (str "<di" ++ ([118%N] ++ tail)).
    rewrite app_assoc, HasPrefix_app_long.
    + rewrite <- app_assoc in Himg.
      eapply Contains_no_occurrence. exact Himg.
    + rewrite length_app. destruct pre2; [contradiction|]. simpl. lia.
Qed.

Lemma quietAfter_no_match : forall post1 post2 p pv,
  quietAfter (post1 ++ post2) = true ->
  match_here blockRegex p pv post2 = None.
Proof.
  intros post1 post2 p pv H. unfold quietAfter in H.
  apply andb_true_iff in H. destruct H as [Hdiv Himg].
  apply negb_true_iff in Hdiv, Himg.
  apply blockRegex_needs_lit; eapply Contains_no_occurrence; eassumption.
Qed.

Lemma match_here_intro : forall r p pv s e cs,
  m r accept (MState p pv s []) = Some (e, cs) ->
  match_here r p pv s = Some (Found p e cs).
Proof.
  intros r p pv s e cs H. unfold match_here. rewrite H. reflexivity.
Qed.

Lemma blockRegex_embed_match : forall body t p pv,
  firstAt (str "</div>") body = true ->
  match_here blockRegex p pv
             ((qstr "<div class='html-embed'>" ++ body ++ str "</div>") ++ t)
  = Some (Found p
            (List.length (qstr "<div class='html-embed'>" ++ body
                          ++ str "</div>") + p)
            [(1, (p, List.length (qstr "<div class='html-embed'>" ++ body
                                  ++ str "</div>") + p))]).
Proof.
  intros body t p pv H. apply match_here_intro. unfold blockRegex.
  rewrite m_Group, m_Alt.
  match goal with
  | |- match ?X with _ => _ end = _ =>
      assert (E : X = Some (List.length (qstr "<div class='html-embed'>"
                                         ++ body ++ str "</div>") + p,
                            [(1, (p, List.length
                                       (qstr "<div class='html-embed'>"
                                        ++ body ++ str "</div>") + p))]));
      [|rewrite E; reflexivity]
  end.
  unfold Seq. cbn [fold_right]. rewrite <- !app_assoc.
  rewrite m_Cat, m_Lit_app.
  rewrite m_Cat.
  apply m_star_lazy_first; [apply forallb_forall; reflexivity| |].
  - intros a1 a2 -> Hne. rewrite m_Cat, m_Lit_fail; [reflexivity|].
    eapply firstAt_no_earlier; eassumption.
  - rewrite m_Cat, m_Lit_app, m_Eps. unfold accept.
    cbn [pos prev Regexp.rest caps].
    repeat rewrite length_app. simpl List.length.
    repeat (f_equal; try lia).
Qed.

Lemma blockRegex_embed_indexes : forall pre body post,
  quietBefore pre = true -> firstAt (str "</div>") body = true ->
  quietAfter post = true ->
  FindAllStringIndex blockRegex
    (pre ++ (qstr "<div class='html-embed'>" ++ body ++ str "</div>") ++ post)
  = [(List.length pre,
      List.length (qstr "<div class='html-embed'>" ++ body ++ str "</div>")
      + List.length pre)].
Proof.
  intros pre body post Hpre Hbody Hpost. unfold FindAllStringIndex.
  rewrite (find_all_single blockRegex pre _ post
             [(1, (List.length pre + 0,
                   List.length (qstr "<div class='html-embed'>" ++ body
                                ++ str "</div>") + (List.length pre + 0)))]).
  - reflexivity.
  - discriminate.
  - intros pre1 pre2 pv -> Hne. rewrite <- app_assoc.
    change (qstr "<div class='html-embed'>" ++ body ++ str "</div>" ++ post)
      with (str "<div" ++ (qstr " class='html-embed'>" ++ body ++ str "</div>"
                           ++ post)).
    eapply quietBefore_no_match; eassumption.
  - apply blockRegex_embed_match. assumption.
  - intros post1 post2 p pv ->. eapply quietAfter_no_match. eassumption.
Qed.

Lemma emitPlainText_text : forall generateUUID stepIdx text bs r,
  hasPlainText text = true ->
  emitPlainText generateUUID stepIdx text bs r
  = (emit stepIdx (textBlock (generateUUID (clock r)) text (sortOrder bs) None)
          bs,
     tick r).
Proof.
  intros gen stepIdx text bs r H. unfold emitPlainText.
  unfold hasPlainText in H. rewrite H. reflexivity.
Qed.

Lemma emit_under_step : forall blocks stepBlock children block so,
  emit (List.length blocks) block (mkBlocks (blocks ++ stepBlock :: children) so)
  = mkBlocks (blocks ++ Block.append_id (Block.uuid block) stepBlock
                     :: children ++ [block])
             (so + 1)%Z.
Proof.
  intros blocks stepBlock children block so. unfold emit.
  cbn [contentBlocks sortOrder]. rewrite <- app_assoc. cbn [app].
  rewrite update_at_middle. reflexivity.
Qed.

Section EmbedStep.

Variable entity : gostring -> option rune.
Variable entity2 : gostring -> option (rune * rune).
Variable filepath_Join : list gostring -> gostring.
Variable filepath_Base : gostring -> gostring.
Variable unicode_ToLower : rune -> rune.
Variable fmt_d : Z -> gostring.
Variable generateUUID : nat -> gostring.
Variable Stat : nat -> gostring -> bool.
Variable UploadImage : nat -> gostring -> gostring -> gostring -> UploadResult.

(** X15.  A step whose content is text, an embed as
    [convertYouTubeEmbeds] writes it, and more text, gives four blocks:
    the StepContent block, a text block for the text before, a text
    block of style [html-embed] whose body is the whole embed, and a text
    block for the text after; the three are the children of the step, in
    this order. *)
Theorem X15_embed_between_texts :
  forall siteID chapter article articleID imagesDir step blocks so r
         pre videoID post,
  SSStep.Content step = pre ++ screenStepsEmbed videoID ++ post ->
  quietBefore pre = true ->
  firstAt (str "</div>") (embedBody videoID) = true ->
  quietAfter post = true ->
  hasPlainText pre = true -> hasPlainText post = true ->
  processStep entity entity2 filepath_Join filepath_Base unicode_ToLower fmt_d
              generateUUID Stat UploadImage siteID chapter article articleID
              imagesDir (Some (mkBlocks blocks so, r)) step
  = Some
      (mkBlocks
         (blocks
          ++ [Block.StepContent (generateUUID (clock r)) (SSStep.Title step) 0
                so
                [generateUUID (S (clock r)); generateUUID (S (S (clock r)));
                 generateUUID (S (S (S (clock r))))]
                (slugify unicode_ToLower (SSStep.Title step)) false false;
              Block.TextContent (generateUUID (S (clock r))) pre 1
                (so + 1)%Z None false;
              Block.TextContent (generateUUID (S (S (clock r))))
                (screenStepsEmbed videoID) 1 (so + 1 + 1)%Z
                (Some (str "html-embed")) false;
              Block.TextContent (generateUUID (S (S (S (clock r))))) post 1
                (so + 1 + 1 + 1)%Z None false])
         (so + 1 + 1 + 1 + 1)%Z,
       tick (tick (tick (tick r)))).
Proof.
  intros siteID chapter article articleID imagesDir step blocks so r
         pre videoID post Hcontent Hpre Hbody Hpost Htpre Htpost.
  unfold processStep. rewrite Hcontent, screenStepsEmbed_split.
  rewrite blockRegex_embed_indexes by assumption.
  cbn [fold_left contentBlocks sortOrder].
  unfold processMatch. rewrite Hcontent, screenStepsEmbed_split.
  rewrite slice_prefix.
  rewrite (emitPlainText_text _ _ _ _ _ Htpre).
  rewrite slice_middle.
  replace (Strings.HasPrefix
             (qstr "<div class='html-embed'>" ++ embedBody videoID
              ++ str "</div>") (str "<img")) with false by reflexivity.
  replace (Strings.HasPrefix
             (qstr "<div class='html-embed'>" ++ embedBody videoID
              ++ str "</div>") (qstr "<div class='html-embed'"))
    with true by reflexivity.
  rewrite skipn_past.
  rewrite emit_under_step.
  cbn [clock tick sortOrder contentBlocks].
  rewrite emit_under_step.
  rewrite (emitPlainText_text _ _ _ _ _ Htpost).
  cbn [clock tick sortOrder contentBlocks].
  rewrite emit_under_step.
  reflexivity.
Qed.

End EmbedStep.

(** X15, an instance: a paragraph, the embed of the video [abc123] and a
    last paragraph. *)
Lemma X15_embed_between_texts_witness :
  quietBefore (str "<p>Watch:</p>") = true
  /\ firstAt (str "</div>") (embedBody (str "abc123")) = true
  /\ quietAfter (str "<p>Done.</p>") = true
  /\ hasPlainText (str "<p>Watch:</p>") = true
  /\ hasPlainText (str "<p>Done.</p>") = true
  /\ processStep Example.entity Example.entity2 Example.join Example.base
                 Example.toLower Example.fmt_d Example.generateUUID
                 Example.StatPresent Example.UploadAccepted (str "site")
                 Example.chapter Example.article 7%Z Example.imagesDir
                 (Some (mkBlocks [] 1%Z, Example.run0))
                 (SSStep.mk (str "s1") (str "Video") 0%Z
                    (str "<p>Watch:</p>" ++ screenStepsEmbed (str "abc123")
                     ++ str "<p>Done.</p>") [])
     = Some (mkBlocks
               [Block.StepContent (str "uuid-0") (str "Video") 0 1
                  [str "uuid-1"; str "uuid-2"; str "uuid-3"] (str "video")
                  false false;
                Block.TextContent (str "uuid-1") (str "<p>Watch:</p>") 1 2
                  None false;
                Block.TextContent (str "uuid-2")
                  (screenStepsEmbed (str "abc123")) 1 3
                  (Some (str "html-embed")) false;
                Block.TextContent (str "uuid-3") (str "<p>Done.</p>") 1 4
                  None false]
               5%Z,
             tick (tick (tick (tick Example.run0)))).
Proof.
  split; [vm_compute; reflexivity|]. split; [vm_compute; reflexivity|].
  split; [vm_compute; reflexivity|]. split; [vm_compute; reflexivity|].
  split; [vm_compute; reflexivity|].
  exact (X15_embed_between_texts Example.entity Example.entity2 Example.join
           Example.base Example.toLower Example.fmt_d Example.generateUUID
           Example.StatPresent Example.UploadAccepted (str "site")
           Example.chapter Example.article 7%Z Example.imagesDir
           (SSStep.mk (str "s1") (str "Video") 0%Z
              (str "<p>Watch:</p>" ++ screenStepsEmbed (str "abc123")
               ++ str "<p>Done.</p>") [])
           [] 1%Z Example.run0 (str "<p>Watch:</p>") (str "abc123")
           (str "<p>Done.</p>") eq_refl
           ltac:(vm_compute; reflexivity) ltac:(vm_compute; reflexivity)
           ltac:(vm_compute; reflexivity) ltac:(vm_compute; reflexivity)
           ltac:(vm_compute; reflexivity)).
Defined.

(** *** The helper functions for embeds *)

Lemma embedPattern_needs_lit : forall p pv s,
  Strings.HasPrefix s (qstr "<div class='html-embed'>") = false ->
  match_here embedPattern p pv s = None.
Proof.
  intros p pv s H. unfold match_here, embedPattern, Seq. cbn [fold_right].
  rewrite m_Cat, m_Lit_fail by assumption. reflexivity.
Qed.

Lemma embedPattern_find_all : forall pre body post,
  firstAt (qstr "<div class='html-embed'>") pre = true ->
  firstAt (str "</div>") body = true ->
  Strings.Contains post (qstr "<div class='html-embed'>") = false ->
  find_all embedPattern
    (pre ++ (qstr "<div class='html-embed'>" ++ body ++ str "</div>") ++ post)
  = [Found (List.length pre)
           (List.length (qstr "<div class='html-embed'>" ++ body
                         ++ str "</div>") + List.length pre) []].
Proof.
  intros pre body post Hpre Hbody Hpost.
  apply find_all_single.
  - discriminate.
  - intros pre1 pre2 pv -> Hne. apply embedPattern_needs_lit.
    rewrite <- !app_assoc.
    eapply firstAt_no_earlier; eassumption.
  - apply match_here_intro. unfold embedPattern, Seq. cbn [fold_right].
    rewrite <- !app_assoc.
    rewrite m_Cat, m_Lit_app.
    rewrite m_Cat.
    apply m_star_lazy_first; [apply forallb_forall; reflexivity| |].
    + intros a1 a2 -> Hne. rewrite m_Cat, m_Lit_fail; [reflexivity|].
      eapply firstAt_no_earlier; eassumption.
    + rewrite m_Cat, m_Lit_app, m_Eps. unfold accept.
      cbn [pos prev Regexp.rest caps].
      repeat rewrite length_app. simpl List.length.
      repeat (f_equal; try lia).
  - intros post1 post2 p pv ->. apply embedPattern_needs_lit.
    eapply Contains_no_occurrence; eassumption.
Qed.

(** X14.  In a text that holds one embed, written as
    [convertYouTubeEmbeds] writes it, [extractYouTubeEmbeds] returns this
    embed, whole, and [removeYouTubeEmbedsFromHTML] returns the text
    around it. *)
Theorem X14_embed_is_found_and_removed : forall pre videoID post,
  firstAt (qstr "<div class='html-embed'>") pre = true ->
  firstAt (str "</div>") (embedBody videoID) = true ->
  Strings.Contains post (qstr "<div class='html-embed'>") = false ->
  extractYouTubeEmbeds (pre ++ screenStepsEmbed videoID ++ post)
  = [screenStepsEmbed videoID]
  /\ removeYouTubeEmbedsFromHTML (pre ++ screenStepsEmbed videoID ++ post)
     = pre ++ post.
Proof.
  intros pre videoID post Hpre Hbody Hpost.
  assert (E1 : forall s, extractYouTubeEmbeds s = FindAllString embedPattern s)
    by (intros [|c s]; reflexivity).
  assert (E2 : forall s, removeYouTubeEmbedsFromHTML s
                         = ReplaceAllLiteral embedPattern s [])
    by (intros [|c s]; reflexivity).
  rewrite E1, E2. unfold FindAllString, ReplaceAllLiteral.
  rewrite screenStepsEmbed_split.
  rewrite embedPattern_find_all by assumption.
  split.
  - cbn [map]. unfold match_text. cbn [m_start m_end].
    rewrite slice_middle. reflexivity.
  - rewrite replace_single. reflexivity.
Qed.

(** X14, an instance. *)
Lemma X14_embed_is_found_and_removed_witness :
  firstAt (qstr "<div class='html-embed'>") (str "<p>Watch:</p>") = true
  /\ firstAt (str "</div>") (embedBody (str "abc123")) = true
  /\ Strings.Contains (str "<p>Done.</p>") (qstr "<div class='html-embed'>")
     = false
  /\ extractYouTubeEmbeds (str "<p>Watch:</p>" ++ screenStepsEmbed (str "abc123")
                           ++ str "<p>Done.</p>")
     = [screenStepsEmbed (str "abc123")]
  /\ removeYouTubeEmbedsFromHTML
       (str "<p>Watch:</p>" ++ screenStepsEmbed (str "abc123")
        ++ str "<p>Done.</p>")
     = str "<p>Watch:</p>" ++ str "<p>Done.</p>".
Proof.
  split; [vm_compute; reflexivity|]. split; [vm_compute; reflexivity|].
  split; [vm_compute; reflexivity|].
  exact (X14_embed_is_found_and_removed (str "<p>Watch:</p>") (str "abc123")
           (str "<p>Done.</p>") ltac:(vm_compute; reflexivity)
           ltac:(vm_compute; reflexivity) ltac:(vm_compute; reflexivity)).
Defined.

(** ** Repetitions that cannot match *)

Section RepetitionFails.

Variable k : kont.
Variable P : rune -> bool.

Lemma m_Cls_stops : forall K p pv t cs,
  stops P t -> m (Cls P) K (MState p pv t cs) = None.
Proof.
  intros K p pv [|c t] cs H; cbn [m Regexp.rest]; [reflexivity|].
  cbn [stops] in H. rewrite H. reflexivity.
Qed.

Lemma m_star_greedy_fail : forall a p pv t cs,
  forallb P a = true -> stops P t ->
  (forall a1 a2, a = a1 ++ a2 ->
     k (MState (List.length a1 + p) (last_rune a1 pv) (a2 ++ t) cs) = None) ->
  m (Star true (Cls P)) k (MState p pv (a ++ t) cs) = None.
Proof.
  intros a p pv t cs Ha Ht Hk. rewrite m_Star. cbn [Regexp.rest].
  rewrite star_greedy_none_later; [| apply Nat.lt_succ_diag_r | assumption
                                   | assumption |].
  - exact (Hk [] a eq_refl).
  - intros b1 b2 E _. apply Hk. assumption.
Qed.

Lemma m_plus_greedy_fail : forall a p pv t cs,
  forallb P a = true -> stops P t ->
  (forall a1 a2, a = a1 ++ a2 -> a1 <> [] ->
     k (MState (List.length a1 + p) (last_rune a1 pv) (a2 ++ t) cs) = None) ->
  m (Plus true (Cls P)) k (MState p pv (a ++ t) cs) = None.
Proof.
  intros [|c a] p pv t cs Ha Ht Hk; unfold Plus; rewrite m_Cat.
  - cbn [app]. apply m_Cls_stops. assumption.
  - cbn [forallb] in Ha. apply andb_true_iff in Ha. destruct Ha as [Hc Ha].
    change ((c :: a) ++ t) with ([c] ++ a ++ t).
    rewrite m_Cls_app by assumption.
    apply m_star_greedy_fail; [assumption|assumption|].
    intros a1 a2 E. rewrite Nat.add_succ_r.
    apply (Hk (c :: a1) a2); [rewrite E; reflexivity|discriminate].
Qed.

Lemma star_lazy_fail : forall a fuel p pv t cs,
  forallb P a = true -> stops P t ->
  (forall a1 a2, a = a1 ++ a2 ->
     k (MState (List.length a1 + p) (last_rune a1 pv) (a2 ++ t) cs) = None) ->
  star_loop (m (Cls P)) false k fuel (MState p pv (a ++ t) cs) = None.
Proof.
  induction a as [|c a IH]; intros fuel p pv t cs Ha Ht Hk.
  - assert (H0 := Hk [] [] eq_refl). cbn [app List.length last_rune Nat.add] in H0.
    destruct fuel as [|f]; cbn [star_loop app]; [exact H0|].
    rewrite H0. apply m_Cls_stops. assumption.
  - cbn [forallb] in Ha. apply andb_true_iff in Ha. destruct Ha as [Hc Ha].
    assert (H0 := Hk [] (c :: a) eq_refl). cbn [app List.length last_rune Nat.add] in H0.
    destruct fuel as [|f]; [cbn [star_loop app]; exact H0|].
    cbn [app]. rewrite star_lazy_step by assumption.
    cbn [app] in H0. rewrite H0.
    apply IH; [assumption|assumption|].
    intros a1 a2 E. rewrite Nat.add_succ_r.
    apply (Hk (c :: a1) a2). rewrite E. reflexivity.
Qed.

Lemma m_star_lazy_fail : forall a p pv t cs,
  forallb P a = true -> stops P t ->
  (forall a1 a2, a = a1 ++ a2 ->
     k (MState (List.length a1 + p) (last_rune a1 pv) (a2 ++ t) cs) = None) ->
  m (Star false (Cls P)) k (MState p pv (a ++ t) cs) = None.
Proof.
  intros a p pv t cs Ha Ht Hk. rewrite m_Star. apply star_lazy_fail; assumption.
Qed.

End RepetitionFails.

(** ** Styled blocks *)

Lemma styleName_parts : forall style,
  styleName style = true ->
  style <> [] /\ forallb (not_rune dq) style = true
  /\ forallb (not_rune gt) style = true.
Proof.
  intros style H. unfold styleName in H.
  apply andb_true_iff in H. destruct H as [H Hgt].
  apply andb_true_iff in H. destruct H as [Hne Hq].
  repeat split; try assumption.
  intros ->. discriminate.
Qed.

Lemma styledBlock_split : forall style content,
  styledBlock style content
  = qstr "<div class='screensteps-styled-block'"
    ++ (qstr " data-style='" ++ style ++ [dq]) ++ [gt] ++ content
    ++ str "</div>".
Proof.
  intros style content. unfold styledBlock. rewrite <- !app_assoc. reflexivity.
Qed.

(** The part of [blockRegex] and of [styledRemovePattern] after the
    opening literal, on a styled block. *)
Lemma styled_tail_match : forall K style content t p pv cs x,
  forallb (not_rune gt) style = true ->
  firstAt (str "</div>") content = true ->
  K (MState (List.length (qstr " data-style='" ++ style ++ [dq] ++ [gt]
                          ++ content ++ str "</div>") + p)
            (Some gt) t cs) = Some x ->
  m (Seq [notgt_star; Chr gt; Star false (Cls dot_s); Lit (str "</div>")]) K
    (MState p pv ((qstr " data-style='" ++ style ++ [dq]) ++ [gt] ++ content
                  ++ str "</div>" ++ t) cs)
  = Some x.
Proof.
  intros K style content t p pv cs x Hgt Hc HK.
  unfold Seq. cbn [fold_right]. rewrite m_Cat. unfold notgt_star.
  apply m_star_greedy_all.
  - rewrite !forallb_app, Hgt. reflexivity.
  - reflexivity.
  - rewrite m_Cat, m_Chr_app, m_Cat.
    apply m_star_lazy_first; [apply forallb_forall; reflexivity| |].
    + intros a1 a2 -> Hne. rewrite m_Cat, m_Lit_fail; [reflexivity|].
      eapply firstAt_no_earlier; eassumption.
    + rewrite m_Cat, m_Lit_app, m_Eps. cbn [last_rune str].
      rewrite <- HK. f_equal. f_equal.
      * repeat rewrite length_app. simpl List.length. lia.
Qed.

Lemma blockRegex_styled_match : forall style content t p pv,
  forallb (not_rune gt) style = true ->
  firstAt (str "</div>") content = true ->
  match_here blockRegex p pv (styledBlock style content ++ t)
  = Some (Found p (List.length (styledBlock style content) + p)
            [(1, (p, List.length (styledBlock style content) + p))]).
Proof.
  intros style content t p pv Hgt Hc. apply match_here_intro.
  unfold blockRegex. rewrite m_Group, m_Alt.
  rewrite styledBlock_split, <- !app_assoc.
  unfold Seq at 1. cbn [fold_right].
  rewrite m_Cat, m_Lit_fail by reflexivity.
  rewrite m_Alt.
  match goal with
  | |- match ?X with _ => _ end = Some ?y =>
      assert (E : X = Some y); [|rewrite E; reflexivity]
  end.
  unfold Seq at 1. cbn [fold_right].
  rewrite m_Cat, m_Lit_app.
  rewrite (app_assoc (qstr " data-style='")), (app_assoc _ [dq]).
  rewrite <- (app_assoc (qstr " data-style='")).
  apply (styled_tail_match _ style content t); [assumption|assumption|].
  unfold accept. cbn [pos prev Regexp.rest caps].
  repeat rewrite length_app. simpl List.length.
  repeat (f_equal; try lia).
Qed.

Lemma blockRegex_styled_indexes : forall pre style content post,
  quietBefore pre = true -> forallb (not_rune gt) style = true ->
  firstAt (str "</div>") content = true ->
  quietAfter post = true ->
  FindAllStringIndex blockRegex (pre ++ styledBlock style content ++ post)
  = [(List.length pre,
      List.length (styledBlock style content) + List.length pre)].
Proof.
  intros pre style content post Hpre Hgt Hc Hpost. unfold FindAllStringIndex.
  rewrite (find_all_single blockRegex pre _ post
             [(1, (List.length pre + 0,
                   List.length (styledBlock style content)
                   + (List.length pre + 0)))]).
  - reflexivity.
  - discriminate.
  - intros pre1 pre2 pv -> Hne.
    change (styledBlock style content ++ post)
      with (str "<div" ++ skipn 4 (styledBlock style content) ++ post).
    eapply quietBefore_no_match; eassumption.
  - apply blockRegex_styled_match; assumption.
  - intros post1 post2 p pv ->. eapply quietAfter_no_match. eassumption.
Qed.

Lemma styledBlock_head : forall style content,
  styledBlock style content
  = styledHead ++ style ++ qstr "'>" ++ content ++ str "</div>".
Proof. reflexivity. Qed.

Lemma styledBlockRegex_match : forall style inner,
  styleName style = true -> styleOnce style = true ->
  forallb dot inner = true -> firstAt (str "</div>") inner = true ->
  m styledBlockRegex accept (MState 0 None (styledBlock style inner) [])
  = Some (List.length (styledBlock style inner),
          [(2, (List.length (styledHead ++ style ++ qstr "'>"),
                List.length (styledHead ++ style ++ qstr "'>" ++ inner)));
           (1, (List.length styledHead, List.length (styledHead ++ style)))]).
Proof.
  intros style inner Hname Honce Hdot Hfirst.
  destruct (styleName_parts style Hname) as [Hne [Hq Hgt]].
  unfold styleOnce in Honce. apply negb_true_iff in Honce.
  rewrite styledBlock_split.
  rewrite <- (app_nil_r (str "</div>")) at 1.
  unfold styledBlockRegex, Seq. cbn [fold_right].
  rewrite m_Cat, m_Lit_app.
  rewrite m_Cat. unfold notgt_star.
  change (qstr " data-style='" ++ style ++ [dq])
    with ([32%N] ++ (qstr "data-style='" ++ style ++ [dq])).
  rewrite <- !app_assoc.
  rewrite (app_assoc (qstr "data-style='")), (app_assoc _ [dq]).
  rewrite <- (app_assoc (qstr "data-style='") style [dq]).
  apply m_star_greedy_back.
  - reflexivity.
  - rewrite !forallb_app, Hgt. reflexivity.
  - reflexivity.
  - rewrite <- !app_assoc. rewrite m_Cat, m_Lit_app.
    rewrite m_Cat, m_Group. unfold notq_plus.
    apply m_plus_greedy_all; [assumption|assumption|reflexivity|].
    cbn [pos prev Regexp.rest caps].
    rewrite m_Cat, m_Chr_app, m_Cat.
    apply (m_star_greedy_all _ _ _ []); [reflexivity|reflexivity|].
    rewrite m_Cat, m_Chr_cons, m_Cat, m_Group.
    apply m_star_lazy_first; [assumption| |].
    + intros a1 a2 -> Hne2. cbn [pos prev Regexp.rest caps].
      rewrite m_Cat, m_Lit_fail; [reflexivity|].
      eapply firstAt_no_earlier; eassumption.
    + cbn [pos prev Regexp.rest caps].
      rewrite m_Cat, m_Lit_app, m_Eps. unfold accept.
      cbn [pos prev Regexp.rest caps]. unfold styledHead.
      repeat rewrite length_app. simpl List.length.
      f_equal. f_equal; [lia|].
      f_equal; [f_equal; f_equal; lia|]. f_equal. f_equal. f_equal; lia.
  - intros b1 b2 E Hb1. rewrite m_Cat, m_Lit_fail; [reflexivity|].
    cbn [app].
    eapply (no_later_occurrence gt); [reflexivity|exact Honce|exact E|exact Hb1].
Qed.

Lemma styledBlockRegex_submatch : forall style inner,
  styleName style = true -> styleOnce style = true ->
  forallb dot inner = true -> firstAt (str "</div>") inner = true ->
  FindStringSubmatch styledBlockRegex 2 (styledBlock style inner)
  = Some [styledBlock style inner; style; inner].
Proof.
  intros style inner Hname Honce Hdot Hfirst.
  assert (Hf : exists more,
             find_all styledBlockRegex (styledBlock style inner)
             = Found 0 (List.length (styledBlock style inner) + 0)
                 [(2, (List.length (styledHead ++ style ++ qstr "'>"),
                       List.length (styledHead ++ style ++ qstr "'>" ++ inner)));
                  (1, (List.length styledHead,
                       List.length (styledHead ++ style)))] :: more).
  { eexists. unfold find_all.
    rewrite <- (app_nil_r (styledBlock style inner)) at 1.
    apply find_all_hit_nonempty; [discriminate|apply Nat.le_refl|].
    apply match_here_intro. rewrite app_nil_r, Nat.add_0_r.
    apply styledBlockRegex_match; assumption. }
  destruct Hf as [more Hf]. unfold FindStringSubmatch. rewrite Hf.
  unfold match_text, group_text.
  cbn [m_start m_end m_caps seq map find fst snd Nat.eqb].
  f_equal. f_equal; [|f_equal; [|f_equal]].
  - unfold slice. rewrite Nat.add_0_r, Nat.sub_0_r. apply firstn_all.
  - rewrite styledBlock_head. apply slice_at; reflexivity.
  - rewrite styledBlock_head.
    rewrite (app_assoc style), (app_assoc styledHead).
    apply slice_at; [reflexivity|].
    rewrite <- !app_assoc. reflexivity.
Qed.

Section StyledStep.

Variable entity : gostring -> option rune.
Variable entity2 : gostring -> option (rune * rune).
Variable filepath_Join : list gostring -> gostring.
Variable filepath_Base : gostring -> gostring.
Variable unicode_ToLower : rune -> rune.
Variable fmt_d : Z -> gostring.
Variable generateUUID : nat -> gostring.
Variable Stat : nat -> gostring -> bool.
Variable UploadImage : nat -> gostring -> gostring -> gostring -> UploadResult.

(** X17.  A step whose content is text, a styled block whose content
    stands on one line, and more text, gives four blocks: the
    StepContent block, a text block for the text before, a text block
    whose style is the block's style and whose body is the content of the
    block, without its [div], and a text block for the text after; the
    three are the children of the step, in this order. *)
Theorem X17_styled_block_between_texts :
  forall siteID chapter article articleID imagesDir step blocks so r
         pre style inner post,
  SSStep.Content step = pre ++ styledBlock style inner ++ post ->
  quietBefore pre = true ->
  styleName style = true -> styleOnce style = true ->
  forallb dot inner = true -> firstAt (str "</div>") inner = true ->
  quietAfter post = true ->
  hasPlainText pre = true -> hasPlainText post = true ->
  processStep entity entity2 filepath_Join filepath_Base unicode_ToLower fmt_d
              generateUUID Stat UploadImage siteID chapter article articleID
              imagesDir (Some (mkBlocks blocks so, r)) step
  = Some
      (mkBlocks
         (blocks
          ++ [Block.StepContent (generateUUID (clock r)) (SSStep.Title step) 0
                so
                [generateUUID (S (clock r)); generateUUID (S (S (clock r)));
                 generateUUID (S (S (S (clock r))))]
                (slugify unicode_ToLower (SSStep.Title step)) false false;
              Block.TextContent (generateUUID (S (clock r))) pre 1
                (so + 1)%Z None false;
              Block.TextContent (generateUUID (S (S (clock r)))) inner 1
                (so + 1 + 1)%Z (Some style) false;
              Block.TextContent (generateUUID (S (S (S (clock r))))) post 1
                (so + 1 + 1 + 1)%Z None false])
         (so + 1 + 1 + 1 + 1)%Z,
       tick (tick (tick (tick r)))).
Proof.
  intros siteID chapter article articleID imagesDir step blocks so r
         pre style inner post Hcontent Hpre Hname Honce Hdot Hfirst Hpost
         Htpre Htpost.
  destruct (styleName_parts style Hname) as [Hne [Hq Hgt]].
  unfold processStep. rewrite Hcontent.
  rewrite blockRegex_styled_indexes by assumption.
  cbn [fold_left contentBlocks sortOrder].
  unfold processMatch. rewrite Hcontent.
  rewrite slice_prefix.
  rewrite (emitPlainText_text _ _ _ _ _ Htpre).
  rewrite slice_middle.
  replace (Strings.HasPrefix (styledBlock style inner) (str "<img"))
    with false by reflexivity.
  replace (Strings.HasPrefix (styledBlock style inner)
             (qstr "<div class='html-embed'"))
    with false by reflexivity.
  replace (Strings.HasPrefix (styledBlock style inner)
             (qstr "<div class='screensteps-styled-block'"))
    with true by reflexivity.
  rewrite styledBlockRegex_submatch by assumption.
  rewrite skipn_past.
  rewrite emit_under_step.
  cbn [clock tick sortOrder contentBlocks].
  rewrite emit_under_step.
  rewrite (emitPlainText_text _ _ _ _ _ Htpost).
  cbn [clock tick sortOrder contentBlocks].
  rewrite emit_under_step.
  reflexivity.
Qed.

End StyledStep.

(** X17, an instance: a paragraph, a block of style [tip] and a last
    paragraph. *)
Lemma X17_styled_block_between_texts_witness :
  quietBefore (str "<p>Note:</p>") = true
  /\ styleName (str "tip") = true /\ styleOnce (str "tip") = true
  /\ forallb dot (str "<p>Save often.</p>") = true
  /\ firstAt (str "</div>") (str "<p>Save often.</p>") = true
  /\ quietAfter (str "<p>Done.</p>") = true
  /\ hasPlainText (str "<p>Note:</p>") = true
  /\ hasPlainText (str "<p>Done.</p>") = true
  /\ processStep Example.entity Example.entity2 Example.join Example.base
                 Example.toLower Example.fmt_d Example.generateUUID
                 Example.StatPresent Example.UploadAccepted (str "site")
                 Example.chapter Example.article 7%Z Example.imagesDir
                 (Some (mkBlocks [] 1%Z, Example.run0))
                 (SSStep.mk (str "s1") (str "Hints") 0%Z
                    (str "<p>Note:</p>"
                     ++ styledBlock (str "tip") (str "<p>Save often.</p>")
                     ++ str "<p>Done.</p>") [])
     = Some (mkBlocks
               [Block.StepContent (str "uuid-0") (str "Hints") 0 1
                  [str "uuid-1"; str "uuid-2"; str "uuid-3"] (str "hints")
                  false false;
                Block.TextContent (str "uuid-1") (str "<p>Note:</p>") 1 2
                  None false;
                Block.TextContent (str "uuid-2") (str "<p>Save often.</p>") 1 3
                  (Some (str "tip")) false;
                Block.TextContent (str "uuid-3") (str "<p>Done.</p>") 1 4
                  None false]
               5%Z,
             tick (tick (tick (tick Example.run0)))).
Proof.
  split; [vm_compute; reflexivity|]. split; [vm_compute; reflexivity|].
  split; [vm_compute; reflexivity|]. split; [vm_compute; reflexivity|].
  split; [vm_compute; reflexivity|]. split; [vm_compute; reflexivity|].
  split; [vm_compute; reflexivity|]. split; [vm_compute; reflexivity|].
  exact (X17_styled_block_between_texts Example.entity Example.entity2
           Example.join Example.base Example.toLower Example.fmt_d
           Example.generateUUID Example.StatPresent Example.UploadAccepted
           (str "site") Example.chapter Example.article 7%Z Example.imagesDir
           (SSStep.mk (str "s1") (str "Hints") 0%Z
              (str "<p>Note:</p>"
               ++ styledBlock (str "tip") (str "<p>Save often.</p>")
               ++ str "<p>Done.</p>") [])
           [] 1%Z Example.run0 (str "<p>Note:</p>") (str "tip")
           (str "<p>Save often.</p>") (str "<p>Done.</p>") eq_refl
           ltac:(vm_compute; reflexivity) ltac:(vm_compute; reflexivity)
           ltac:(vm_compute; reflexivity) ltac:(vm_compute; reflexivity)
           ltac:(vm_compute; reflexivity) ltac:(vm_compute; reflexivity)
           ltac:(vm_compute; reflexivity) ltac:(vm_compute; reflexivity)).
Defined.

(** *** A styled block whose content holds a line feed *)

Lemma styledBlockRegex_needs_lit : forall p pv s,
  Strings.HasPrefix s (qstr "<div class='screensteps-styled-block'") = false ->
  match_here styledBlockRegex p pv s = None.
Proof.
  intros p pv s H. unfold match_here, styledBlockRegex, Seq. cbn [fold_right].
  rewrite m_Cat, m_Lit_fail by assumption. reflexivity.
Qed.

Lemma split_head : forall (c : rune) b a1 a2,
  c :: b = a1 ++ a2 ->
  (a1 = [] /\ a2 = c :: b) \/ (a1 = [c] /\ a2 = b)
  \/ (exists b1, a1 = c :: b1 /\ b1 <> [] /\ b = b1 ++ a2).
Proof.
  intros c b [|c1 [|c2 a1]] a2 E; cbn [app] in E.
  - left. split; [reflexivity|symmetry; assumption].
  - right. left. injection E as <- <-. split; reflexivity.
  - right. right. injection E as <- E. exists (c2 :: a1).
    split; [reflexivity|]. split; [discriminate|assumption].
Qed.

Lemma styledBlockRegex_two_lines : forall style x y p pv,
  styleName style = true -> styleOnce style = true ->
  forallb dot x = true -> firstAt (str "</div>") (x ++ 10%N :: y) = true ->
  match_here styledBlockRegex p pv (styledBlock style (x ++ 10%N :: y)) = None.
Proof.
  intros style x y p pv Hname Honce Hdot Hfirst.
  destruct (styleName_parts style Hname) as [Hne [Hq Hgt]].
  unfold styleOnce in Honce. apply negb_true_iff in Honce.
  assert (E : m styledBlockRegex accept
                (MState p pv (styledBlock style (x ++ 10%N :: y)) []) = None);
    [|unfold match_here; rewrite E; reflexivity].
  rewrite styledBlock_split.
  rewrite <- (app_nil_r (str "</div>")) at 1.
  unfold styledBlockRegex, Seq. cbn [fold_right].
  rewrite m_Cat, m_Lit_app.
  rewrite m_Cat. unfold notgt_star.
  rewrite <- !app_assoc.
  rewrite (app_assoc (qstr " data-style='")), (app_assoc _ [dq]).
  rewrite <- (app_assoc (qstr " data-style='") style [dq]).
  apply m_star_greedy_fail.
  - rewrite !forallb_app, Hgt. reflexivity.
  - reflexivity.
  - intros a1 a2 E. rewrite m_Cat.
    apply (split_head 32%N (qstr "data-style='" ++ style ++ [dq])) in E.
    destruct E as [[-> ->]|[[-> ->]|[b1 [-> [Hb1 E]]]]].
    + rewrite m_Lit_fail; reflexivity.
    + rewrite <- !app_assoc. rewrite m_Lit_app.
      rewrite m_Cat, m_Group. unfold notq_plus.
      apply m_plus_greedy_fail; [assumption|reflexivity|].
      intros s1 s2 -> Hs1. cbn [pos prev Regexp.rest caps].
      rewrite m_Cat. destruct s2 as [|d s2].
      * cbn [app]. rewrite m_Chr_cons, m_Cat.
        apply (m_star_greedy_fail _ _ []); [reflexivity|reflexivity|].
        intros c1 c2 Ec. destruct c1; [|discriminate]. cbn [app] in Ec.
        subst c2. cbn [app List.length last_rune Nat.add].
        rewrite m_Cat, m_Chr_cons, m_Cat, m_Group.
        apply m_star_lazy_fail; [assumption|reflexivity|].
        intros x1 x2 ->. cbn [pos prev Regexp.rest caps].
        rewrite m_Cat, m_Lit_fail; [reflexivity|].
        match goal with
        | |- Strings.HasPrefix ?s _ = _ =>
            replace s with ((x2 ++ 10%N :: y) ++ str "</div>" ++ [])
              by (rewrite <- !app_assoc; reflexivity)
        end.
        apply (firstAt_no_earlier _ x1); [|destruct x2; discriminate].
        rewrite app_assoc. exact Hfirst.
      * rewrite forallb_app in Hq. apply andb_true_iff in Hq.
        destruct Hq as [_ Hq]. cbn [forallb] in Hq.
        apply andb_true_iff in Hq. destruct Hq as [Hd _].
        rewrite m_Chr_fail; [reflexivity|].
        cbn [app]. unfold not_rune in Hd. apply negb_true_iff in Hd.
        cbn [Strings.HasPrefix]. rewrite N.eqb_sym, Hd. reflexivity.
    + rewrite m_Lit_fail; [reflexivity|].
      eapply (no_later_occurrence gt); [reflexivity|exact Honce|exact E|exact Hb1].
Qed.

Lemma styledBlockRegex_no_submatch : forall style x y,
  styleName style = true -> styleOnce style = true ->
  forallb dot x = true -> firstAt (str "</div>") (x ++ 10%N :: y) = true ->
  oneStyledBlock style (x ++ 10%N :: y) = true ->
  FindStringSubmatch styledBlockRegex 2 (styledBlock style (x ++ 10%N :: y))
  = None.
Proof.
  intros style x y Hname Honce Hdot Hfirst Hone.
  unfold oneStyledBlock in Hone. apply negb_true_iff in Hone.
  unfold FindStringSubmatch, find_all.
  rewrite find_all_none; [reflexivity|].
  intros post1 post2 E. destruct post1 as [|c post1].
  - cbn [app] in E. rewrite <- E.
    apply styledBlockRegex_two_lines; assumption.
  - apply styledBlockRegex_needs_lit.
    rewrite E in Hone. cbn [app tl] in Hone.
    eapply Contains_no_occurrence. exact Hone.
Qed.

Section StyledStepTwoLines.

Variable entity : gostring -> option rune.
Variable entity2 : gostring -> option (rune * rune).
Variable filepath_Join : list gostring -> gostring.
Variable filepath_Base : gostring -> gostring.
Variable unicode_ToLower : rune -> rune.
Variable fmt_d : Z -> gostring.
Variable generateUUID : nat -> gostring.
Variable Stat : nat -> gostring -> bool.
Variable UploadImage : nat -> gostring -> gostring -> gostring -> UploadResult.

(** X18.  A styled block whose content holds a line feed after a first
    line without closing [div] is found as a special block, but gives no
    content block: the step has the text before and the text after as
    its only children, the content of the styled block is in none of
    the blocks, and no identifier is drawn for it. *)
Theorem X18_styled_block_of_two_lines_is_dropped :
  forall siteID chapter article articleID imagesDir step blocks so r
         pre style x y post,
  SSStep.Content step = pre ++ styledBlock style (x ++ 10%N :: y) ++ post ->
  quietBefore pre = true ->
  styleName style = true -> styleOnce style = true ->
  forallb dot x = true -> firstAt (str "</div>") (x ++ 10%N :: y) = true ->
  oneStyledBlock style (x ++ 10%N :: y) = true ->
  quietAfter post = true ->
  hasPlainText pre = true -> hasPlainText post = true ->
  processStep entity entity2 filepath_Join filepath_Base unicode_ToLower fmt_d
              generateUUID Stat UploadImage siteID chapter article articleID
              imagesDir (Some (mkBlocks blocks so, r)) step
  = Some
      (mkBlocks
         (blocks
          ++ [Block.StepContent (generateUUID (clock r)) (SSStep.Title step) 0
                so
                [generateUUID (S (clock r)); generateUUID (S (S (clock r)))]
                (slugify unicode_ToLower (SSStep.Title step)) false false;
              Block.TextContent (generateUUID (S (clock r))) pre 1
                (so + 1)%Z None false;
              Block.TextContent (generateUUID (S (S (clock r)))) post 1
                (so + 1 + 1)%Z None false])
         (so + 1 + 1 + 1)%Z,
       tick (tick (tick r))).
Proof.
  intros siteID chapter article articleID imagesDir step blocks so r
         pre style x y post Hcontent Hpre Hname Honce Hdot Hfirst Hone Hpost
         Htpre Htpost.
  destruct (styleName_parts style Hname) as [Hne [Hq Hgt]].
  unfold processStep. rewrite Hcontent.
  rewrite blockRegex_styled_indexes by assumption.
  cbn [fold_left contentBlocks sortOrder].
  unfold processMatch. rewrite Hcontent.
  rewrite slice_prefix.
  rewrite (emitPlainText_text _ _ _ _ _ Htpre).
  rewrite slice_middle.
  replace (Strings.HasPrefix (styledBlock style (x ++ 10%N :: y)) (str "<img"))
    with false by reflexivity.
  replace (Strings.HasPrefix (styledBlock style (x ++ 10%N :: y))
             (qstr "<div class='html-embed'"))
    with false by reflexivity.
  replace (Strings.HasPrefix (styledBlock style (x ++ 10%N :: y))
             (qstr "<div class='screensteps-styled-block'"))
    with true by reflexivity.
  rewrite styledBlockRegex_no_submatch by assumption.
  rewrite skipn_past.
  rewrite emit_under_step.
  cbn [clock tick sortOrder contentBlocks].
  rewrite (emitPlainText_text _ _ _ _ _ Htpost).
  cbn [clock tick sortOrder contentBlocks].
  rewrite emit_under_step.
  reflexivity.
Qed.

End StyledStepTwoLines.

(** X18, an instance: the content of the block of style [tip] is two
    paragraphs on two lines. *)
Lemma X18_styled_block_of_two_lines_is_dropped_witness :
  quietBefore (str "<p>Note:</p>") = true
  /\ styleName (str "tip") = true /\ styleOnce (str "tip") = true
  /\ forallb dot (str "<p>Save often.</p>") = true
  /\ firstAt (str "</div>")
             (str "<p>Save often.</p>" ++ 10%N :: str "<p>Twice.</p>") = true
  /\ oneStyledBlock (str "tip")
       (str "<p>Save often.</p>" ++ 10%N :: str "<p>Twice.</p>") = true
  /\ quietAfter (str "<p>Done.</p>") = true
  /\ hasPlainText (str "<p>Note:</p>") = true
  /\ hasPlainText (str "<p>Done.</p>") = true
  /\ processStep Example.entity Example.entity2 Example.join Example.base
                 Example.toLower Example.fmt_d Example.generateUUID
                 Example.StatPresent Example.UploadAccepted (str "site")
                 Example.chapter Example.article 7%Z Example.imagesDir
                 (Some (mkBlocks [] 1%Z, Example.run0))
                 (SSStep.mk (str "s1") (str "Hints") 0%Z
                    (str "<p>Note:</p>"
                     ++ styledBlock (str "tip")
                          (str "<p>Save often.</p>"
                           ++ 10%N :: str "<p>Twice.</p>")
                     ++ str "<p>Done.</p>") [])
     = Some (mkBlocks
               [Block.StepContent (str "uuid-0") (str "Hints") 0 1
                  [str "uuid-1"; str "uuid-2"] (str "hints") false false;
                Block.TextContent (str "uuid-1") (str "<p>Note:</p>") 1 2
                  None false;
                Block.TextContent (str "uuid-2") (str "<p>Done.</p>") 1 3
                  None false]
               4%Z,
             tick (tick (tick Example.run0))).
Proof.
  split; [vm_compute; reflexivity|]. split; [vm_compute; reflexivity|].
  split; [vm_compute; reflexivity|]. split; [vm_compute; reflexivity|].
  split; [vm_compute; reflexivity|]. split; [vm_compute; reflexivity|].
  split; [vm_compute; reflexivity|]. split; [vm_compute; reflexivity|].
  split; [vm_compute; reflexivity|].
  exact (X18_styled_block_of_two_lines_is_dropped Example.entity
           Example.entity2 Example.join Example.base Example.toLower
           Example.fmt_d Example.generateUUID Example.StatPresent
           Example.UploadAccepted (str "site") Example.chapter Example.article
           7%Z Example.imagesDir
           (SSStep.mk (str "s1") (str "Hints") 0%Z
              (str "<p>Note:</p>"
               ++ styledBlock (str "tip")
                    (str "<p>Save often.</p>" ++ 10%N :: str "<p>Twice.</p>")
               ++ str "<p>Done.</p>") [])
           [] 1%Z Example.run0 (str "<p>Note:</p>") (str "tip")
           (str "<p>Save often.</p>") (str "<p>Twice.</p>")
           (str "<p>Done.</p>") eq_refl
           ltac:(vm_compute; reflexivity) ltac:(vm_compute; reflexivity)
           ltac:(vm_compute; reflexivity) ltac:(vm_compute; reflexivity)
           ltac:(vm_compute; reflexivity) ltac:(vm_compute; reflexivity)
           ltac:(vm_compute; reflexivity) ltac:(vm_compute; reflexivity)
           ltac:(vm_compute; reflexivity)).
Defined.

(** *** The helper functions for styled blocks *)

Lemma styledExtractPattern_match : forall style inner t p pv,
  styleName style = true -> firstAt (str "</div>") inner = true ->
  match_here styledExtractPattern p pv (styledBlock style inner ++ t)
  = Some (Found p (List.length (styledBlock style inner) + p)
            [(2, (List.length (styledHead ++ style ++ qstr "'>") + p,
                  List.length (styledHead ++ style ++ qstr "'>" ++ inner) + p));
             (1, (List.length styledHead + p,
                  List.length (styledHead ++ style) + p))]).
Proof.
  intros style inner t p pv Hname Hfirst.
  destruct (styleName_parts style Hname) as [Hne [Hq Hgt]].
  apply match_here_intro. rewrite styledBlock_head, <- !app_assoc.
  unfold styledExtractPattern, Seq. cbn [fold_right].
  rewrite m_Cat. fold styledHead. rewrite m_Lit_app.
  rewrite m_Cat, m_Group. unfold notq_plus.
  apply m_plus_greedy_all; [assumption|assumption|reflexivity|].
  cbn [pos prev Regexp.rest caps].
  rewrite m_Cat, m_Lit_app, m_Cat, m_Group.
  apply m_star_lazy_first; [apply forallb_forall; reflexivity| |].
  - intros a1 a2 -> Hne2. cbn [pos prev Regexp.rest caps].
    rewrite m_Cat, m_Lit_fail; [reflexivity|].
    eapply firstAt_no_earlier; eassumption.
  - cbn [pos prev Regexp.rest caps].
    rewrite m_Cat, m_Lit_app, m_Eps. unfold accept.
    cbn [pos prev Regexp.rest caps].
    repeat rewrite length_app. simpl List.length.
    f_equal. f_equal; [lia|].
    f_equal; [f_equal; f_equal; lia|]. f_equal. f_equal. f_equal; lia.
Qed.

Lemma styledExtractPattern_needs_lit : forall p pv s,
  Strings.HasPrefix s (qstr "<div class='screensteps-styled-block'") = false ->
  match_here styledExtractPattern p pv s = None.
Proof.
  intros p pv s H. unfold match_here, styledExtractPattern, Seq.
  cbn [fold_right]. rewrite m_Cat, m_Lit_fail; [reflexivity|].
  apply (HasPrefix_longer (qstr "<div class='screensteps-styled-block'")
                          (qstr " data-style='")).
  assumption.
Qed.

Lemma styledRemovePattern_needs_lit : forall p pv s,
  Strings.HasPrefix s (qstr "<div class='screensteps-styled-block'") = false ->
  match_here styledRemovePattern p pv s = None.
Proof.
  intros p pv s H. unfold match_here, styledRemovePattern, Seq.
  cbn [fold_right]. rewrite m_Cat, m_Lit_fail by assumption. reflexivity.
Qed.

Lemma styledRemovePattern_match : forall style inner t p pv,
  forallb (not_rune gt) style = true ->
  firstAt (str "</div>") inner = true ->
  match_here styledRemovePattern p pv (styledBlock style inner ++ t)
  = Some (Found p (List.length (styledBlock style inner) + p) []).
Proof.
  intros style inner t p pv Hgt Hfirst. apply match_here_intro.
  rewrite styledBlock_split, <- !app_assoc.
  unfold styledRemovePattern. unfold Seq at 1. cbn [fold_right].
  rewrite m_Cat, m_Lit_app.
  rewrite (app_assoc (qstr " data-style='")), (app_assoc _ [dq]).
  rewrite <- (app_assoc (qstr " data-style='")).
  apply (styled_tail_match _ style inner t); [assumption|assumption|].
  unfold accept. cbn [pos prev Regexp.rest caps].
  repeat rewrite length_app. simpl List.length.
  repeat (f_equal; try lia).
Qed.

Lemma styledBlock_begins : forall style inner,
  styledBlock style inner
  = qstr "<div class='screensteps-styled-block'"
    ++ skipn 37 (styledBlock style inner).
Proof. reflexivity. Qed.

(** X16.  In a text that holds one styled block, whose style name has no
    quote and no [>] and whose content holds no closing [div],
    [extractStyledBlocksFromHTML] returns the style and the content of
    the block, and [removeStyledBlocksFromHTML] returns the text around
    it. *)
Theorem X16_styled_block_is_found_and_removed : forall pre style inner post,
  firstAt (qstr "<div class='screensteps-styled-block'") pre = true ->
  styleName style = true ->
  firstAt (str "</div>") inner = true ->
  Strings.Contains post (qstr "<div class='screensteps-styled-block'") = false ->
  extractStyledBlocksFromHTML (pre ++ styledBlock style inner ++ post)
  = [mkStyledBlock style inner]
  /\ removeStyledBlocksFromHTML (pre ++ styledBlock style inner ++ post)
     = pre ++ post.
Proof.
  intros pre style inner post Hpre Hname Hfirst Hpost.
  destruct (styleName_parts style Hname) as [Hne [Hq Hgt]].
  assert (E1 : forall s, extractStyledBlocksFromHTML s
                         = flat_map (fun mt => match mt with
                                               | [_; st; html] =>
                                                   [mkStyledBlock st html]
                                               | _ => []
                                               end)
                             (FindAllStringSubmatch styledExtractPattern 2 s))
    by (intros [|c s]; reflexivity).
  assert (E2 : forall s, removeStyledBlocksFromHTML s
                         = ReplaceAllLiteral styledRemovePattern s [])
    by (intros [|c s]; reflexivity).
  rewrite E1, E2. split.
  - unfold FindAllStringSubmatch.
    rewrite (find_all_single styledExtractPattern pre _ post
               [(2, (List.length (styledHead ++ style ++ qstr "'>")
                     + (List.length pre + 0),
                     List.length (styledHead ++ style ++ qstr "'>" ++ inner)
                     + (List.length pre + 0)));
                (1, (List.length styledHead + (List.length pre + 0),
                     List.length (styledHead ++ style)
                     + (List.length pre + 0)))]).
    + cbn [map flat_map app]. unfold match_text, group_text.
      cbn [m_start m_end m_caps seq map find fst snd Nat.eqb].
      replace (slice (pre ++ styledBlock style inner ++ post)
                 (List.length styledHead + (List.length pre + 0))
                 (List.length (styledHead ++ style) + (List.length pre + 0)))
        with style.
      2:{ symmetry. rewrite styledBlock_head, <- !app_assoc.
          rewrite (app_assoc pre styledHead).
          apply slice_at; repeat rewrite length_app; lia. }
      replace (slice (pre ++ styledBlock style inner ++ post)
                 (List.length (styledHead ++ style ++ qstr "'>")
                  + (List.length pre + 0))
                 (List.length (styledHead ++ style ++ qstr "'>" ++ inner)
                  + (List.length pre + 0)))
        with inner.
      2:{ symmetry. rewrite styledBlock_head, <- !app_assoc.
          rewrite (app_assoc style), (app_assoc styledHead), (app_assoc pre).
          apply slice_at; repeat rewrite length_app; simpl List.length; lia. }
      reflexivity.
    + discriminate.
    + intros pre1 pre2 pv -> Hne2. apply styledExtractPattern_needs_lit.
      rewrite styledBlock_begins, <- !app_assoc.
      eapply firstAt_no_earlier; eassumption.
    + apply styledExtractPattern_match; assumption.
    + intros post1 post2 p pv ->. apply styledExtractPattern_needs_lit.
      eapply Contains_no_occurrence; eassumption.
  - unfold ReplaceAllLiteral.
    rewrite (find_all_single styledRemovePattern pre _ post []).
    + rewrite replace_single. reflexivity.
    + discriminate.
    + intros pre1 pre2 pv -> Hne2. apply styledRemovePattern_needs_lit.
      rewrite styledBlock_begins, <- !app_assoc.
      eapply firstAt_no_earlier; eassumption.
    + apply styledRemovePattern_match; assumption.
    + intros post1 post2 p pv ->. apply styledRemovePattern_needs_lit.
      eapply Contains_no_occurrence; eassumption.
Qed.

(** X16, an instance; the content of the block is on two lines. *)
Lemma X16_styled_block_is_found_and_removed_witness :
  firstAt (qstr "<div class='screensteps-styled-block'") (str "<p>Note:</p>")
  = true
  /\ styleName (str "tip") = true
  /\ firstAt (str "</div>")
             (str "<p>Save often.</p>" ++ 10%N :: str "<p>Twice.</p>") = true
  /\ Strings.Contains (str "<p>Done.</p>")
                      (qstr "<div class='screensteps-styled-block'") = false
  /\ extractStyledBlocksFromHTML
       (str "<p>Note:</p>"
        ++ styledBlock (str "tip")
             (str "<p>Save often.</p>" ++ 10%N :: str "<p>Twice.</p>")
        ++ str "<p>Done.</p>")
     = [mkStyledBlock (str "tip")
          (str "<p>Save often.</p>" ++ 10%N :: str "<p>Twice.</p>")]
  /\ removeStyledBlocksFromHTML
       (str "<p>Note:</p>"
        ++ styledBlock (str "tip")
             (str "<p>Save often.</p>" ++ 10%N :: str "<p>Twice.</p>")
        ++ str "<p>Done.</p>")
     = str "<p>Note:</p>" ++ str "<p>Done.</p>".
Proof.
  split; [vm_compute; reflexivity|]. split; [vm_compute; reflexivity|].
  split; [vm_compute; reflexivity|]. split; [vm_compute; reflexivity|].
  exact (X16_styled_block_is_found_and_removed (str "<p>Note:</p>")
           (str "tip")
           (str "<p>Save often.</p>" ++ 10%N :: str "<p>Twice.</p>")
           (str "<p>Done.</p>") ltac:(vm_compute; reflexivity)
           ltac:(vm_compute; reflexivity) ltac:(vm_compute; reflexivity)
           ltac:(vm_compute; reflexivity)).
Defined.

(** ** The uploader: images *)

Lemma imgShape_parts : forall a1 src a2,
  imgShape a1 src a2 = true ->
  a1 <> [] /\ forallb (not_rune gt) a1 = true
  /\ src <> [] /\ forallb (not_rune dq) src = true
  /\ forallb (not_rune gt) src = true /\ forallb (not_rune gt) a2 = true
  /\ Strings.Contains (tl (qstr "src='" ++ src ++ [dq] ++ a2)) (qstr "src='")
     = false.
Proof.
  intros a1 src a2 H. unfold imgShape in H.
  apply andb_true_iff in H. destruct H as [H H7]. apply negb_true_iff in H7.
  apply andb_true_iff in H. destruct H as [H H6].
  apply andb_true_iff in H. destruct H as [H H5].
  apply andb_true_iff in H. destruct H as [H H4].
  apply andb_true_iff in H. destruct H as [H H3].
  apply andb_true_iff in H. destruct H as [H1 H2].
  repeat split; try assumption.
  - intros ->. discriminate.
  - intros ->. discriminate.
Qed.

Lemma imgTag_split : forall c a1 src a2 t,
  imgTag (c :: a1) src a2 ++ t
  = str "<img" ++ [c] ++ a1 ++ (qstr "src='" ++ src ++ [dq] ++ a2)
    ++ [gt] ++ t.
Proof.
  intros c a1 src a2 t. unfold imgTag. rewrite <- !app_assoc. reflexivity.
Qed.

Lemma blockRegex_img_match : forall a1 src a2 t p pv,
  imgShape a1 src a2 = true ->
  match_here blockRegex p pv (imgTag a1 src a2 ++ t)
  = Some (Found p (List.length (imgTag a1 src a2) + p)
            [(1, (p, List.length (imgTag a1 src a2) + p))]).
Proof.
  intros a1 src a2 t p pv H.
  destruct (imgShape_parts a1 src a2 H)
    as [Ha1 [Hg1 [Hsrc [Hq [Hgs [Hg2 Hlast]]]]]].
  destruct a1 as [|c a1]; [contradiction|].
  cbn [forallb] in Hg1. apply andb_true_iff in Hg1. destruct Hg1 as [Hc Hg1].
  apply match_here_intro. unfold blockRegex. rewrite m_Group, m_Alt.
  rewrite imgTag_split.
  unfold Seq at 1. cbn [fold_right].
  rewrite m_Cat, m_Lit_fail by reflexivity.
  rewrite m_Alt.
  unfold Seq at 1. cbn [fold_right].
  rewrite m_Cat, m_Lit_fail by reflexivity.
  unfold Seq. cbn [fold_right].
  rewrite m_Cat, m_Lit_app.
  rewrite m_Cat. unfold notgt_plus, Plus. rewrite m_Cat.
  rewrite m_Cls_app by assumption.
  apply m_star_greedy_back.
  - assumption.
  - rewrite !forallb_app, Hgs, Hg2. reflexivity.
  - reflexivity.
  - rewrite <- !app_assoc. rewrite m_Cat, m_Lit_app.
    rewrite m_Cat. unfold notq_plus.
    apply m_plus_greedy_all; [assumption|assumption|reflexivity|].
    rewrite m_Cat, m_Chr_app, m_Cat. unfold notgt_star.
    apply m_star_greedy_all; [assumption|reflexivity|].
    rewrite m_Cat, m_Chr_app, m_Eps. unfold accept.
    cbn [pos prev Regexp.rest caps].
    unfold imgTag. repeat rewrite length_app. simpl List.length.
    repeat (f_equal; try lia).
  - intros b1 b2 E Hb1. rewrite m_Cat, m_Lit_fail; [reflexivity|].
    cbn [app].
    eapply (no_later_occurrence gt); [reflexivity|exact Hlast|exact E|exact Hb1].
Qed.

Lemma imgTagRegex_match : forall a1 src a2 t p pv,
  imgShape a1 src a2 = true ->
  match_here imgTagRegex p pv (imgTag a1 src a2 ++ t)
  = Some (Found p (List.length (imgTag a1 src a2) + p)
            [(1, (List.length (str "<img" ++ a1 ++ qstr "src='") + p,
                  List.length ((str "<img" ++ a1 ++ qstr "src='") ++ src)
                  + p))]).
Proof.
  intros a1 src a2 t p pv H.
  destruct (imgShape_parts a1 src a2 H)
    as [Ha1 [Hg1 [Hsrc [Hq [Hgs [Hg2 Hlast]]]]]].
  destruct a1 as [|c a1]; [contradiction|].
  cbn [forallb] in Hg1. apply andb_true_iff in Hg1. destruct Hg1 as [Hc Hg1].
  apply match_here_intro. unfold imgTagRegex.
  rewrite imgTag_split.
  unfold Seq. cbn [fold_right].
  rewrite m_Cat, m_Lit_app.
  rewrite m_Cat. unfold notgt_plus, Plus. rewrite m_Cat.
  rewrite m_Cls_app by assumption.
  apply m_star_greedy_back.
  - assumption.
  - rewrite !forallb_app, Hgs, Hg2. reflexivity.
  - reflexivity.
  - rewrite <- !app_assoc. rewrite m_Cat, m_Lit_app.
    rewrite m_Cat, m_Group. unfold notq_plus.
    apply m_plus_greedy_all; [assumption|assumption|reflexivity|].
    cbn [pos prev Regexp.rest caps].
    rewrite m_Cat, m_Chr_app, m_Cat. unfold notgt_star.
    apply m_star_greedy_all; [assumption|reflexivity|].
    rewrite m_Cat, m_Chr_app, m_Eps. unfold accept.
    cbn [pos prev Regexp.rest caps].
    unfold imgTag. repeat rewrite length_app. simpl List.length.
    f_equal. f_equal; [lia|]. f_equal. f_equal. f_equal; lia.
  - intros b1 b2 E Hb1. rewrite m_Cat, m_Lit_fail; [reflexivity|].
    cbn [app].
    eapply (no_later_occurrence gt); [reflexivity|exact Hlast|exact E|exact Hb1].
Qed.

Lemma imgTagRegex_submatch : forall a1 src a2,
  imgShape a1 src a2 = true ->
  FindStringSubmatch imgTagRegex 1 (imgTag a1 src a2)
  = Some [imgTag a1 src a2; src].
Proof.
  intros a1 src a2 H.
  assert (Hf : exists more,
             find_all imgTagRegex (imgTag a1 src a2)
             = Found 0 (List.length (imgTag a1 src a2) + 0)
                 [(1, (List.length (str "<img" ++ a1 ++ qstr "src='") + 0,
                       List.length ((str "<img" ++ a1 ++ qstr "src='")
                                    ++ src) + 0))] :: more).
  { eexists. unfold find_all.
    rewrite <- (app_nil_r (imgTag a1 src a2)) at 1.
    apply find_all_hit_nonempty; [discriminate|apply Nat.le_refl|].
    apply imgTagRegex_match. assumption. }
  destruct Hf as [more Hf]. unfold FindStringSubmatch. rewrite Hf.
  unfold match_text, group_text.
  cbn [m_start m_end m_caps seq map find fst snd Nat.eqb].
  f_equal. f_equal; [|f_equal].
  - unfold slice. rewrite Nat.add_0_r, Nat.sub_0_r. apply firstn_all.
  - replace (imgTag a1 src a2)
      with ((str "<img" ++ a1 ++ qstr "src='") ++ src ++ [dq] ++ a2 ++ [gt])
      by (unfold imgTag; rewrite <- !app_assoc; reflexivity).
    apply slice_at; lia.
Qed.

Lemma quietBeforeImg_no_match : forall pre1 pre2 tail p pv,
  quietBeforeImg (pre1 ++ pre2) = true -> pre2 <> [] ->
  match_here blockRegex p pv (pre2 ++ (str "<img" ++ tail)) = None.
Proof.
  intros pre1 pre2 tail p pv H Hne. unfold quietBeforeImg in H.
  apply andb_true_iff in H. destruct H as [Himg Hdiv].
  apply negb_true_iff in Hdiv.
  apply blockRegex_needs_lit.
  - change (str "<img" ++ tail) with (str "<im" ++ ([103%N] ++ tail)).
    rewrite app_assoc, HasPrefix_app_long.
    + rewrite <- app_assoc in Hdiv.
      eapply Contains_no_occurrence. exact Hdiv.
    + rewrite length_app. destruct pre2; [contradiction|]. simpl. lia.
  - eapply firstAt_no_earlier; eassumption.
Qed.

Lemma blockRegex_img_indexes : forall pre a1 src a2 post,
  quietBeforeImg pre = true -> imgShape a1 src a2 = true ->
  quietAfter post = true ->
  FindAllStringIndex blockRegex (pre ++ imgTag a1 src a2 ++ post)
  = [(List.length pre, List.length (imgTag a1 src a2) + List.length pre)].
Proof.
  intros pre a1 src a2 post Hpre Hshape Hpost. unfold FindAllStringIndex.
  rewrite (find_all_single blockRegex pre _ post
             [(1, (List.length pre + 0,
                   List.length (imgTag a1 src a2) + (List.length pre + 0)))]).
  - reflexivity.
  - discriminate.
  - intros pre1 pre2 pv -> Hne.
    change (imgTag a1 src a2 ++ post)
      with (str "<img" ++ skipn 4 (imgTag a1 src a2) ++ post).
    eapply quietBeforeImg_no_match; eassumption.
  - apply blockRegex_img_match; assumption.
  - intros post1 post2 p pv ->. eapply quietAfter_no_match. eassumption.
Qed.

Section ImageStep.

Variable entity : gostring -> option rune.
Variable entity2 : gostring -> option (rune * rune).
Variable filepath_Join : list gostring -> gostring.
Variable filepath_Base : gostring -> gostring.
Variable unicode_ToLower : rune -> rune.
Variable fmt_d : Z -> gostring.
Variable generateUUID : nat -> gostring.
Variable Stat : nat -> gostring -> bool.
Variable UploadImage : nat -> gostring -> gostring -> gostring -> UploadResult.

(** A step whose content is text, an image tag and more text: the text
    before gives a block, then the image branch runs on the tag, then the
    text after gives a block. *)
Lemma processStep_image :
  forall siteID chapter article articleID imagesDir step blocks so r
         pre a1 src a2 post,
  SSStep.Content step = pre ++ imgTag a1 src a2 ++ post ->
  quietBeforeImg pre = true -> imgShape a1 src a2 = true ->
  quietAfter post = true -> hasPlainText pre = true ->
  processStep entity entity2 filepath_Join filepath_Base unicode_ToLower fmt_d
              generateUUID Stat UploadImage siteID chapter article articleID
              imagesDir (Some (mkBlocks blocks so, r)) step
  = match processImage entity entity2 filepath_Join filepath_Base fmt_d
            generateUUID Stat UploadImage siteID chapter article step
            articleID imagesDir (List.length blocks) (imgTag a1 src a2)
            (mkBlocks
               (blocks
                ++ [Block.StepContent (generateUUID (clock r))
                      (SSStep.Title step) 0 so [generateUUID (S (clock r))]
                      (slugify unicode_ToLower (SSStep.Title step)) false false;
                    Block.TextContent (generateUUID (S (clock r))) pre 1
                      (so + 1)%Z None false])
               (so + 1 + 1)%Z)
            (tick (tick r)) with
    | Some (bs, r') =>
        Some (emitPlainText generateUUID (List.length blocks) post bs r')
    | None => None
    end.
Proof.
  intros siteID chapter article articleID imagesDir step blocks so r
         pre a1 src a2 post Hcontent Hpre Hshape Hpost Htpre.
  unfold processStep. rewrite Hcontent.
  rewrite blockRegex_img_indexes by assumption.
  cbn [fold_left contentBlocks sortOrder].
  unfold processMatch. rewrite Hcontent.
  rewrite slice_prefix.
  rewrite (emitPlainText_text _ _ _ _ _ Htpre).
  rewrite slice_middle.
  replace (Strings.HasPrefix (imgTag a1 src a2) (str "<img"))
    with true by reflexivity.
  rewrite emit_under_step.
  cbn [clock tick sortOrder contentBlocks Block.uuid textBlock
       Block.append_id app].
  destruct (processImage _ _ _ _ _ _ _ _ _ _ _ _ _ _ _ _ _ _)
    as [[bs2 r2]|]; [|reflexivity].
  rewrite skipn_past. reflexivity.
Qed.

(** X19.  A step whose content is text, an image tag and more text,
    where the image is on disk and its upload is answered with an
    identifier, a width, a height and an address, gives four blocks: the
    StepContent block, a text block for the text before, an image block
    and a text block for the text after.  The image block carries the
    file name taken from the [src] attribute and the four values of the
    answer; the counter of uploaded images is one more. *)
Theorem X19_image_between_texts :
  forall siteID chapter article articleID imagesDir step blocks so r
         pre a1 src a2 post assetID w h u,
  SSStep.Content step = pre ++ imgTag a1 src a2 ++ post ->
  quietBeforeImg pre = true -> imgShape a1 src a2 = true ->
  quietAfter post = true ->
  hasPlainText pre = true -> hasPlainText post = true ->
  Stat (S (S (clock r)))
       (imagePathOf entity entity2 filepath_Join filepath_Base imagesDir src)
  = true ->
  UploadImage (S (S (S (clock r)))) siteID (fmt_d articleID)
       (imagePathOf entity entity2 filepath_Join filepath_Base imagesDir src)
  = Uploaded (Some (FileData.mk (Some assetID) (Some w) (Some h) (Some u))) ->
  processStep entity entity2 filepath_Join filepath_Base unicode_ToLower fmt_d
              generateUUID Stat UploadImage siteID chapter article articleID
              imagesDir (Some (mkBlocks blocks so, r)) step
  = Some
      (mkBlocks
         (blocks
          ++ [Block.StepContent (generateUUID (clock r)) (SSStep.Title step) 0
                so
                [generateUUID (S (clock r));
                 generateUUID (S (S (S (S (clock r)))));
                 generateUUID (S (S (S (S (S (clock r))))))]
                (slugify unicode_ToLower (SSStep.Title step)) false false;
              Block.TextContent (generateUUID (S (clock r))) pre 1
                (so + 1)%Z None false;
              Block.ImageContentBlock (generateUUID (S (S (S (S (clock r))))))
                (imageNameOf entity entity2 filepath_Base src) assetID w h 1
                (so + 1 + 1)%Z [] u;
              Block.TextContent
                (generateUUID (S (S (S (S (S (clock r))))))) post 1
                (so + 1 + 1 + 1)%Z None false])
         (so + 1 + 1 + 1 + 1)%Z,
       mkRun (skippedImages r) (uploadedImagesCount r + 1)%Z (runLogger r)
             (S (S (S (S (S (S (clock r))))))) (submitted r)).
Proof.
  intros siteID chapter article articleID imagesDir step blocks so r
         pre a1 src a2 post assetID w h u Hcontent Hpre Hshape Hpost
         Htpre Htpost Hstat Hupload.
  rewrite (processStep_image siteID chapter article articleID imagesDir step
             blocks so r pre a1 src a2 post) by assumption.
  unfold processImage. rewrite imgTagRegex_submatch by assumption.
  fold (imagePathOf entity entity2 filepath_Join filepath_Base imagesDir src).
  cbn [clock tick]. rewrite Hstat, Hupload.
  cbn [FileData.id FileData.width FileData.height FileData.url clock tick].
  rewrite emit_under_step.
  rewrite (emitPlainText_text _ _ _ _ _ Htpost).
  cbn [clock tick countUpload sortOrder contentBlocks skippedImages
       uploadedImagesCount runLogger submitted].
  rewrite emit_under_step.
  reflexivity.
Qed.

(** X20.  When the answer to the upload of an image has no ["file"]
    object, or one without a numeric ["id"], the image gives no block,
    is not counted as uploaded and is not recorded as skipped either:
    the step has the two text blocks only. *)
Theorem X20_unusable_answer_drops_the_image :
  forall siteID chapter article articleID imagesDir step blocks so r
         pre a1 src a2 post answer,
  SSStep.Content step = pre ++ imgTag a1 src a2 ++ post ->
  quietBeforeImg pre = true -> imgShape a1 src a2 = true ->
  quietAfter post = true ->
  hasPlainText pre = true -> hasPlainText post = true ->
  Stat (S (S (clock r)))
       (imagePathOf entity entity2 filepath_Join filepath_Base imagesDir src)
  = true ->
  UploadImage (S (S (S (clock r)))) siteID (fmt_d articleID)
       (imagePathOf entity entity2 filepath_Join filepath_Base imagesDir src)
  = Uploaded answer ->
  match answer with
  | Some fileData => FileData.id fileData
  | None => None
  end = None ->
  processStep entity entity2 filepath_Join filepath_Base unicode_ToLower fmt_d
              generateUUID Stat UploadImage siteID chapter article articleID
              imagesDir (Some (mkBlocks blocks so, r)) step
  = Some
      (mkBlocks
         (blocks
          ++ [Block.StepContent (generateUUID (clock r)) (SSStep.Title step) 0
                so
                [generateUUID (S (clock r));
                 generateUUID (S (S (S (S (clock r)))))]
                (slugify unicode_ToLower (SSStep.Title step)) false false;
              Block.TextContent (generateUUID (S (clock r))) pre 1
                (so + 1)%Z None false;
              Block.TextContent (generateUUID (S (S (S (S (clock r)))))) post 1
                (so + 1 + 1)%Z None false])
         (so + 1 + 1 + 1)%Z,
       mkRun (skippedImages r) (uploadedImagesCount r) (runLogger r)
             (S (S (S (S (S (clock r)))))) (submitted r)).
Proof.
  intros siteID chapter article articleID imagesDir step blocks so r
         pre a1 src a2 post answer Hcontent Hpre Hshape Hpost
         Htpre Htpost Hstat Hupload Hanswer.
  rewrite (processStep_image siteID chapter article articleID imagesDir step
             blocks so r pre a1 src a2 post) by assumption.
  unfold processImage. rewrite imgTagRegex_submatch by assumption.
  fold (imagePathOf entity entity2 filepath_Join filepath_Base imagesDir src).
  cbn [clock tick]. rewrite Hstat, Hupload.
  destruct answer as [fd|]; [rewrite Hanswer|];
    rewrite (emitPlainText_text _ _ _ _ _ Htpost);
    cbn [clock tick sortOrder contentBlocks skippedImages
         uploadedImagesCount runLogger submitted];
    rewrite emit_under_step; reflexivity.
Qed.

(** X21.  When the answer to the upload of an image has a ["file"]
    object with a numeric ["id"] but without a numeric ["width"] or
    ["height"] or without a ["url"] string, the processing of the step
    stops with a run-time panic. *)
Theorem X21_incomplete_answer_panics :
  forall siteID chapter article articleID imagesDir step blocks so r
         pre a1 src a2 post fileData assetID,
  SSStep.Content step = pre ++ imgTag a1 src a2 ++ post ->
  quietBeforeImg pre = true -> imgShape a1 src a2 = true ->
  quietAfter post = true -> hasPlainText pre = true ->
  Stat (S (S (clock r)))
       (imagePathOf entity entity2 filepath_Join filepath_Base imagesDir src)
  = true ->
  UploadImage (S (S (S (clock r)))) siteID (fmt_d articleID)
       (imagePathOf entity entity2 filepath_Join filepath_Base imagesDir src)
  = Uploaded (Some fileData) ->
  FileData.id fileData = Some assetID ->
  FileData.width fileData = None \/ FileData.height fileData = None
  \/ FileData.url fileData = None ->
  processStep entity entity2 filepath_Join filepath_Base unicode_ToLower fmt_d
              generateUUID Stat UploadImage siteID chapter article articleID
              imagesDir (Some (mkBlocks blocks so, r)) step
  = None.
Proof.
  intros siteID chapter article articleID imagesDir step blocks so r
         pre a1 src a2 post fileData assetID Hcontent Hpre Hshape Hpost
         Htpre Hstat Hupload Hid Hmissing.
  rewrite (processStep_image siteID chapter article articleID imagesDir step
             blocks so r pre a1 src a2 post) by assumption.
  unfold processImage. rewrite imgTagRegex_submatch by assumption.
  fold (imagePathOf entity entity2 filepath_Join filepath_Base imagesDir src).
  cbn [clock tick]. rewrite Hstat, Hupload, Hid.
  destruct Hmissing as [E|[E|E]]; rewrite E.
  - reflexivity.
  - destruct (FileData.width fileData); reflexivity.
  - destruct (FileData.width fileData); [|reflexivity].
    destruct (FileData.height fileData); reflexivity.
Qed.

End ImageStep.

(** X19, an instance: the address of the image has a query; the server
    answers with the identifier 42, the size 640 x 480 and an address. *)
Lemma X19_image_between_texts_witness :
  quietBeforeImg (str "<p>See:</p>") = true
  /\ imgShape (str " ") (str "shot.png?v=2") [] = true
  /\ quietAfter (str "<p>Done.</p>") = true
  /\ hasPlainText (str "<p>See:</p>") = true
  /\ hasPlainText (str "<p>Done.</p>") = true
  /\ processStep Example.entity Example.entity2 Example.join Example.base
                 Example.toLower Example.fmt_d Example.generateUUID
                 Example.StatPresent Example.UploadAccepted (str "site")
                 Example.chapter Example.article 7%Z Example.imagesDir
                 (Some (mkBlocks [] 1%Z, Example.run0))
                 (SSStep.mk (str "s1") (str "Shots") 0%Z
                    (str "<p>See:</p>"
                     ++ imgTag (str " ") (str "shot.png?v=2") []
                     ++ str "<p>Done.</p>") [])
     = Some (mkBlocks
               [Block.StepContent (str "uuid-0") (str "Shots") 0 1
                  [str "uuid-1"; str "uuid-4"; str "uuid-5"] (str "shots")
                  false false;
                Block.TextContent (str "uuid-1") (str "<p>See:</p>") 1 2
                  None false;
                Block.ImageContentBlock (str "uuid-4") (str "shot.png") 42 640
                  480 1 3 [] (str "https://cdn.example/img");
                Block.TextContent (str "uuid-5") (str "<p>Done.</p>") 1 4
                  None false]
               5%Z,
             mkRun (skippedImages Example.run0)
                   (uploadedImagesCount Example.run0 + 1)%Z
                   (runLogger Example.run0) 6 (submitted Example.run0)).
Proof.
  split; [vm_compute; reflexivity|]. split; [vm_compute; reflexivity|].
  split; [vm_compute; reflexivity|]. split; [vm_compute; reflexivity|].
  split; [vm_compute; reflexivity|].
  exact (X19_image_between_texts Example.entity Example.entity2 Example.join
           Example.base Example.toLower Example.fmt_d Example.generateUUID
           Example.StatPresent Example.UploadAccepted (str "site")
           Example.chapter Example.article 7%Z Example.imagesDir
           (SSStep.mk (str "s1") (str "Shots") 0%Z
              (str "<p>See:</p>" ++ imgTag (str " ") (str "shot.png?v=2") []
               ++ str "<p>Done.</p>") [])
           [] 1%Z Example.run0 (str "<p>See:</p>") (str " ")
           (str "shot.png?v=2") [] (str "<p>Done.</p>") 42%Z 640%Z 480%Z
           (str "https://cdn.example/img") eq_refl
           ltac:(vm_compute; reflexivity) ltac:(vm_compute; reflexivity)
           ltac:(vm_compute; reflexivity) ltac:(vm_compute; reflexivity)
           ltac:(vm_compute; reflexivity) eq_refl eq_refl).
Defined.

(** X20, an instance: the answer of the server has no file object. *)
Lemma X20_unusable_answer_drops_the_image_witness :
  quietBeforeImg (str "<p>See:</p>") = true
  /\ imgShape (str " ") (str "shot.png?v=2") [] = true
  /\ quietAfter (str "<p>Done.</p>") = true
  /\ hasPlainText (str "<p>See:</p>") = true
  /\ hasPlainText (str "<p>Done.</p>") = true
  /\ processStep Example.entity Example.entity2 Example.join Example.base
                 Example.toLower Example.fmt_d Example.generateUUID
                 Example.StatPresent Example3.UploadNoFile (str "site")
                 Example.chapter Example.article 7%Z Example.imagesDir
                 (Some (mkBlocks [] 1%Z, Example.run0))
                 (SSStep.mk (str "s1") (str "Shots") 0%Z
                    (str "<p>See:</p>"
                     ++ imgTag (str " ") (str "shot.png?v=2") []
                     ++ str "<p>Done.</p>") [])
     = Some (mkBlocks
               [Block.StepContent (str "uuid-0") (str "Shots") 0 1
                  [str "uuid-1"; str "uuid-4"] (str "shots") false false;
                Block.TextContent (str "uuid-1") (str "<p>See:</p>") 1 2
                  None false;
                Block.TextContent (str "uuid-4") (str "<p>Done.</p>") 1 3
                  None false]
               4%Z,
             mkRun (skippedImages Example.run0)
                   (uploadedImagesCount Example.run0)
                   (runLogger Example.run0) 5 (submitted Example.run0)).
Proof.
  split; [vm_compute; reflexivity|]. split; [vm_compute; reflexivity|].
  split; [vm_compute; reflexivity|]. split; [vm_compute; reflexivity|].
  split; [vm_compute; reflexivity|].
  exact (X20_unusable_answer_drops_the_image Example.entity Example.entity2
           Example.join Example.base Example.toLower Example.fmt_d
           Example.generateUUID Example.StatPresent Example3.UploadNoFile
           (str "site") Example.chapter Example.article 7%Z Example.imagesDir
           (SSStep.mk (str "s1") (str "Shots") 0%Z
              (str "<p>See:</p>" ++ imgTag (str " ") (str "shot.png?v=2") []
               ++ str "<p>Done.</p>") [])
           [] 1%Z Example.run0 (str "<p>See:</p>") (str " ")
           (str "shot.png?v=2") [] (str "<p>Done.</p>") None eq_refl
           ltac:(vm_compute; reflexivity) ltac:(vm_compute; reflexivity)
           ltac:(vm_compute; reflexivity) ltac:(vm_compute; reflexivity)
           ltac:(vm_compute; reflexivity) eq_refl eq_refl eq_refl).
Defined.

(** X21, an instance: the file object of the answer has no width. *)
Lemma X21_incomplete_answer_panics_witness :
  quietBeforeImg (str "<p>See:</p>") = true
  /\ imgShape (str " ") (str "shot.png?v=2") [] = true
  /\ quietAfter (str "<p>Done.</p>") = true
  /\ hasPlainText (str "<p>See:</p>") = true
  /\ processStep Example.entity Example.entity2 Example.join Example.base
                 Example.toLower Example.fmt_d Example.generateUUID
                 Example.StatPresent Example3.UploadNoWidth (str "site")
                 Example.chapter Example.article 7%Z Example.imagesDir
                 (Some (mkBlocks [] 1%Z, Example.run0))
                 (SSStep.mk (str "s1") (str "Shots") 0%Z
                    (str "<p>See:</p>"
                     ++ imgTag (str " ") (str "shot.png?v=2") []
                     ++ str "<p>Done.</p>") [])
     = None.
Proof.
  split; [vm_compute; reflexivity|]. split; [vm_compute; reflexivity|].
  split; [vm_compute; reflexivity|]. split; [vm_compute; reflexivity|].
  exact (X21_incomplete_answer_panics Example.entity Example.entity2
           Example.join Example.base Example.toLower Example.fmt_d
           Example.generateUUID Example.StatPresent Example3.UploadNoWidth
           (str "site") Example.chapter Example.article 7%Z Example.imagesDir
           (SSStep.mk (str "s1") (str "Shots") 0%Z
              (str "<p>See:</p>" ++ imgTag (str " ") (str "shot.png?v=2") []
               ++ str "<p>Done.</p>") [])
           [] 1%Z Example.run0 (str "<p>See:</p>") (str " ")
           (str "shot.png?v=2") [] (str "<p>Done.</p>")
           (FileData.mk (Some 42%Z) None (Some 480%Z)
                        (Some (str "https://cdn.example/img")))
           42%Z eq_refl
           ltac:(vm_compute; reflexivity) ltac:(vm_compute; reflexivity)
           ltac:(vm_compute; reflexivity) ltac:(vm_compute; reflexivity)
           eq_refl eq_refl eq_refl (or_introl eq_refl)).
Defined.

(** ** The [start] attribute of ordered lists *)

Lemma olShape_parts : forall a1 v a2,
  olShape a1 v a2 = true ->
  forallb (not_rune gt) a1 = true /\ forallb (not_rune dq) v = true
  /\ forallb (not_rune gt) v = true /\ forallb (not_rune gt) a2 = true
  /\ Strings.Contains (tl (qstr " start='" ++ v ++ [dq] ++ a2))
                      (qstr " start='") = false.
Proof.
  intros a1 v a2 H. unfold olShape in H.
  apply andb_true_iff in H. destruct H as [H H5]. apply negb_true_iff in H5.
  apply andb_true_iff in H. destruct H as [H H4].
  apply andb_true_iff in H. destruct H as [H H3].
  apply andb_true_iff in H. destruct H as [H1 H2].
  repeat split; assumption.
Qed.

Lemma olStartPattern_needs_lit : forall p pv s,
  Strings.HasPrefix s (str "<ol") = false ->
  match_here olStartPattern p pv s = None.
Proof.
  intros p pv s H. unfold match_here, olStartPattern, Seq. cbn [fold_right].
  rewrite m_Cat, m_Group, m_Cat, m_Lit_fail by assumption. reflexivity.
Qed.

Lemma olStartPattern_match : forall a1 v a2 t p pv,
  olShape a1 v a2 = true ->
  match_here olStartPattern p pv
    ((str "<ol" ++ a1 ++ qstr " start='" ++ v ++ [dq]) ++ a2 ++ [gt] ++ t)
  = Some (Found p
            (List.length (str "<ol" ++ a1 ++ qstr " start='" ++ v ++ [dq]) + p)
            [(1, (p, List.length (str "<ol" ++ a1) + p))]).
Proof.
  intros a1 v a2 t p pv H.
  destruct (olShape_parts a1 v a2 H) as [Hg1 [Hq [Hgv [Hg2 Hlast]]]].
  apply match_here_intro. unfold olStartPattern, Seq. cbn [fold_right].
  rewrite <- !app_assoc.
  rewrite m_Cat, m_Group, m_Cat, m_Lit_app, m_Cat. unfold notgt_star.
  rewrite (app_assoc (qstr " start='")), (app_assoc _ [dq]), (app_assoc _ a2).
  rewrite <- (app_assoc (qstr " start='")), <- (app_assoc (qstr " start='")).
  apply m_star_greedy_back.
  - assumption.
  - rewrite !forallb_app, Hgv, Hg2. reflexivity.
  - reflexivity.
  - rewrite m_Eps. cbn [pos prev Regexp.rest caps].
    rewrite <- !app_assoc. rewrite m_Cat, m_Lit_app.
    rewrite m_Cat. unfold notq_star.
    apply m_star_greedy_all; [assumption|reflexivity|].
    rewrite m_Cat, m_Chr_app, m_Eps. unfold accept.
    cbn [pos prev Regexp.rest caps].
    repeat rewrite length_app. simpl List.length.
    f_equal. f_equal; [lia|]. f_equal. f_equal. f_equal. lia.
  - intros b1 b2 E Hb1. rewrite m_Eps. cbn [pos prev Regexp.rest caps].
    rewrite m_Cat, m_Lit_fail; [reflexivity|].
    cbn [app]. rewrite <- app_assoc in E.
    eapply (no_later_occurrence gt); [reflexivity|exact Hlast|exact E|exact Hb1].
Qed.

(** X22.  In a text without [div], [p] and [span] elements that holds
    one ordered list whose opening tag has a [start] attribute,
    [convertVLPFormatting] removes the attribute with the blank before
    it and keeps the rest of the tag and of the text: the list starts
    again at one. *)
Theorem X22_list_start_is_removed : forall order pre a1 v a2 post,
  Strings.Contains (pre ++ olTag a1 v a2 ++ post) (str "<div") = false ->
  Strings.Contains (pre ++ olTag a1 v a2 ++ post) (str "<p") = false ->
  Strings.Contains (pre ++ olTag a1 v a2 ++ post) (str "<span") = false ->
  firstAt (str "<ol") pre = true ->
  olShape a1 v a2 = true ->
  Strings.Contains (a2 ++ [gt] ++ post) (str "<ol") = false ->
  convertVLPFormatting order (pre ++ olTag a1 v a2 ++ post)
  = pre ++ str "<ol" ++ a1 ++ a2 ++ [gt] ++ post.
Proof.
  intros order pre a1 v a2 post Hdiv Hp Hspan Hpre Hshape Hpost.
  unfold convertVLPFormatting.
  destruct (pre ++ olTag a1 v a2 ++ post) as [|c s] eqn:Es.
  { destruct pre; discriminate. }
  rewrite convertYouTubeEmbeds_inert by assumption.
  rewrite convertVLPParagraphStyles_inert by assumption.
  unfold convertSpans, ReplaceAllStringFunc.
  rewrite (requires_find_all (str "<span") spanRegex _
             spanRegex_requires_span Hspan).
  rewrite replace_none.
  unfold stripEmptySpans, ReplaceAllLiteral.
  rewrite (requires_find_all (str "<span") emptySpanPattern _
             emptySpanPattern_requires_span Hspan).
  rewrite replace_none.
  rewrite <- Es. clear Es Hdiv Hp Hspan.
  replace (pre ++ olTag a1 v a2 ++ post)
    with (pre ++ (str "<ol" ++ a1 ++ qstr " start='" ++ v ++ [dq])
          ++ (a2 ++ [gt] ++ post))
    by (unfold olTag; rewrite <- !app_assoc; reflexivity).
  unfold ReplaceAllGroup1.
  rewrite (find_all_single olStartPattern pre _ (a2 ++ [gt] ++ post)
             [(1, (List.length pre + 0,
                   List.length (str "<ol" ++ a1) + (List.length pre + 0)))]).
  - rewrite replace_single. unfold group_text.
    cbn [m_caps find fst snd Nat.eqb].
    replace (slice (pre ++ (str "<ol" ++ a1 ++ qstr " start='" ++ v ++ [dq])
                    ++ a2 ++ [gt] ++ post)
               (List.length pre + 0)
               (List.length (str "<ol" ++ a1) + (List.length pre + 0)))
      with (str "<ol" ++ a1).
    + rewrite <- !app_assoc. reflexivity.
    + symmetry.
      replace (pre ++ (str "<ol" ++ a1 ++ qstr " start='" ++ v ++ [dq])
               ++ a2 ++ [gt] ++ post)
        with (pre ++ (str "<ol" ++ a1)
              ++ (qstr " start='" ++ v ++ [dq] ++ a2 ++ [gt] ++ post))
        by (rewrite <- !app_assoc; reflexivity).
      apply slice_at; [lia|rewrite !length_app; lia].
  - discriminate.
  - intros pre1 pre2 pv -> Hne. apply olStartPattern_needs_lit.
    rewrite <- !app_assoc.
    eapply firstAt_no_earlier; eassumption.
  - apply olStartPattern_match. assumption.
  - intros post1 post2 p pv E. apply olStartPattern_needs_lit.
    rewrite E in Hpost.
    eapply Contains_no_occurrence; eassumption.
Qed.

(** X22, an instance: a list of type [a] that starts at 3. *)
Lemma X22_list_start_is_removed_witness :
  olShape (qstr " type='a'") (str "3") [] = true
  /\ convertVLPFormatting Example.orderA
       (str "<h2>Steps</h2>" ++ olTag (qstr " type='a'") (str "3") []
        ++ str "<li>one</li></ol>")
     = str "<h2>Steps</h2>" ++ str "<ol" ++ qstr " type='a'" ++ [] ++ [gt]
       ++ str "<li>one</li></ol>".
Proof.
  split; [vm_compute; reflexivity|].
  exact (X22_list_start_is_removed Example.orderA (str "<h2>Steps</h2>")
           (qstr " type='a'") (str "3") [] (str "<li>one</li></ol>")
           ltac:(vm_compute; reflexivity) ltac:(vm_compute; reflexivity)
           ltac:(vm_compute; reflexivity) ltac:(vm_compute; reflexivity)
           ltac:(vm_compute; reflexivity) ltac:(vm_compute; reflexivity)).
Defined.

(** ** [extractDescription] and [center] *)

Lemma collapse_class : forall (P Q : rune -> bool) new inrun s,
  forallb Q new = true -> (forall c, P c = false -> Q c = true) ->
  forallb Q (collapse P new inrun s) = true.
Proof.
  intros P Q new inrun s Hnew HPQ. revert inrun.
  induction s as [|c s IH]; intros inrun; [reflexivity|].
  cbn [collapse]. destruct (P c) eqn:Hc.
  - rewrite forallb_app, IH. destruct inrun; [reflexivity|].
    rewrite Hnew. reflexivity.
  - cbn [forallb]. rewrite (HPQ c Hc), IH. reflexivity.
Qed.

Lemma forallb_rev : forall (Q : rune -> bool) s,
  forallb Q (rev s) = forallb Q s.
Proof.
  intros Q s. induction s as [|c s IH]; [reflexivity|].
  cbn [rev forallb]. rewrite forallb_app, IH. cbn [forallb].
  rewrite andb_true_r. apply andb_comm.
Qed.

Lemma TrimLeft_class : forall (Q : rune -> bool) s,
  forallb Q s = true -> forallb Q (Strings.TrimLeft s) = true.
Proof.
  intros Q s H. destruct (TrimLeft_suffix s) as [a E].
  rewrite E, forallb_app in H. apply andb_true_iff in H. apply H.
Qed.

Lemma TrimSpace_class : forall (Q : rune -> bool) s,
  forallb Q s = true -> forallb Q (Strings.TrimSpace s) = true.
Proof.
  intros Q s H. unfold Strings.TrimSpace.
  rewrite forallb_rev. apply TrimLeft_class.
  rewrite forallb_rev. apply TrimLeft_class. assumption.
Qed.

Lemma utf8_lineByte : forall c, lineByte c = true -> forallb lineByte (utf8 c) = true.
Proof.
  intros c H. unfold utf8.
  destruct (c <? 128)%N; [cbn [forallb]; rewrite H; reflexivity|].
  assert (Hb : forall b, (128 <= b)%N -> lineByte b = true).
  { intros b Hb. unfold lineByte.
    replace (b =? 9)%N with false by (symmetry; apply N.eqb_neq; lia).
    replace (b =? 10)%N with false by (symmetry; apply N.eqb_neq; lia).
    replace (b =? 12)%N with false by (symmetry; apply N.eqb_neq; lia).
    replace (b =? 13)%N with false by (symmetry; apply N.eqb_neq; lia).
    reflexivity. }
  assert (Hadd : forall k x, (128 <= k)%N -> (128 <= k + x)%N)
    by (intros k x Hk; lia).
  destruct (c <? 2048)%N; [|destruct (c <? 65536)%N];
    cbn [forallb]; rewrite !Hb by (apply Hadd; lia); reflexivity.
Qed.

Lemma bytes_lineByte : forall s,
  forallb lineByte s = true -> forallb lineByte (bytes s) = true.
Proof.
  intros s H. unfold bytes. induction s as [|c s IH]; [reflexivity|].
  cbn [forallb] in H. apply andb_true_iff in H. destruct H as [Hc H].
  cbn [flat_map]. rewrite forallb_app, (utf8_lineByte c Hc), (IH H).
  reflexivity.
Qed.

Lemma firstn_class : forall (Q : N -> bool) n l,
  forallb Q l = true -> forallb Q (firstn n l) = true.
Proof.
  intros Q n l H. rewrite <- (firstn_skipn n l), forallb_app in H.
  apply andb_true_iff in H. apply H.
Qed.

(** X23.  For a limit that is not negative, [extractDescription]
    returns a description of at most [maxLength + 3] bytes, the three
    being those of the ellipsis, and the description is on one line: it
    holds no tab, line feed, form feed or carriage return. *)
Theorem X23_description_is_short_and_on_one_line : forall htmlContent maxLength,
  (0 <= maxLength)%Z ->
  exists d, extractDescription htmlContent maxLength = Some d
            /\ (Z.of_nat (List.length d) <= maxLength + 3)%Z
            /\ forallb lineByte d = true.
Proof.
  intros htmlContent maxLength Hmax. unfold extractDescription.
  destruct htmlContent as [|c s].
  { exists []. split; [reflexivity|]. split; [simpl; lia|reflexivity]. }
  set (text := Strings.TrimSpace
                 (ReplaceAllLiteral wsRun
                    (ReplaceAllLiteral tagPattern (c :: s) []) (str " "))).
  assert (Hline : forallb lineByte (bytes text) = true).
  { apply bytes_lineByte. subst text. apply TrimSpace_class.
    unfold wsRun. rewrite replace_plus_class.
    apply collapse_class; [reflexivity|].
    intros x Hx. unfold perl_space in Hx. unfold lineByte.
    apply orb_false_iff in Hx. destruct Hx as [Hx _].
    apply orb_false_iff in Hx. destruct Hx as [Hx H13].
    apply orb_false_iff in Hx. destruct Hx as [Hx H12].
    apply orb_false_iff in Hx. destruct Hx as [H9 H10].
    rewrite H9, H10, H12, H13. reflexivity. }
  destruct (Z.of_nat (List.length (bytes text)) >? maxLength)%Z eqn:Hlen.
  - replace (maxLength <? 0)%Z with false by (symmetry; apply Z.ltb_ge; lia).
    eexists. split; [reflexivity|]. split.
    + rewrite length_app, length_firstn. simpl List.length. lia.
    + rewrite forallb_app, firstn_class by assumption. reflexivity.
  - exists (bytes text). split; [reflexivity|]. split; [|assumption].
    rewrite Z.gtb_ltb in Hlen. apply Z.ltb_ge in Hlen. lia.
Qed.

(** X23, an instance: a paragraph on two lines, cut after five bytes. *)
Lemma X23_description_is_short_and_on_one_line_witness :
  (0 <= 5)%Z
  /\ exists d,
       extractDescription (str "<p>Hello" ++ 10%N :: str "  world</p>") 5
       = Some d
       /\ (Z.of_nat (List.length d) <= 5 + 3)%Z
       /\ forallb lineByte d = true.
Proof.
  split; [lia|].
  apply (X23_description_is_short_and_on_one_line
           (str "<p>Hello" ++ 10%N :: str "  world</p>") 5%Z).
  lia.
Defined.

(** X24.  Before a text shorter than the width, lengths being counted in
    bytes, [center] puts as many blanks as half of the missing width,
    rounded down, and it puts nothing after the text: the margin on the
    left is the one that is left on the right, or one less. *)
Theorem X24_center_margins : forall s width,
  (len s < width)%Z ->
  exists n, center s width = repeat 32%N n ++ s
            /\ (2 * Z.of_nat n <= width - len s <= 2 * Z.of_nat n + 1)%Z.
Proof.
  intros s width H. unfold center, spaces.
  replace (len s >=? width)%Z with false
    by (symmetry; rewrite Z.geb_leb; apply Z.leb_gt; assumption).
  exists (Z.to_nat (Z.quot (width - len s) 2)). split; [reflexivity|].
  rewrite Z.quot_div_nonneg by lia.
  rewrite Z2Nat.id by (apply Z.div_pos; lia).
  assert (Hm := Z.div_mod (width - len s) 2 ltac:(lia)).
  assert (Hr := Z.mod_pos_bound (width - len s) 2 ltac:(lia)).
  lia.
Qed.

(** X24, an instance: a word of three letters and five bytes in a width
    of nine. *)
Lemma X24_center_margins_witness :
  (len [233%N; 116%N; 233%N] < 9)%Z
  /\ exists n, center [233%N; 116%N; 233%N] 9
                 = repeat 32%N n ++ [233%N; 116%N; 233%N]
               /\ (2 * Z.of_nat n <= 9 - len [233%N; 116%N; 233%N]
                   <= 2 * Z.of_nat n + 1)%Z.
Proof.
  split; [vm_compute; reflexivity|].
  apply (X24_center_margins [233%N; 116%N; 233%N] 9%Z).
  vm_compute. reflexivity.
Defined.

(** ** The helper functions for images *)

Lemma imgTagRegex_needs_lit : forall p pv s,
  Strings.HasPrefix s (str "<img") = false ->
  match_here imgTagRegex p pv s = None.
Proof.
  intros p pv s H. unfold match_here, imgTagRegex, Seq. cbn [fold_right].
  rewrite m_Cat, m_Lit_fail by assumption. reflexivity.
Qed.

Lemma imgPattern_needs_lit : forall p pv s,
  Strings.HasPrefix s (str "<img") = false ->
  match_here imgPattern p pv s = None.
Proof.
  intros p pv s H. unfold match_here, imgPattern, Seq. cbn [fold_right].
  rewrite m_Cat, m_Lit_fail by assumption. reflexivity.
Qed.

Lemma imgPattern_match : forall a1 src a2 t p pv,
  imgShape a1 src a2 = true ->
  match_here imgPattern p pv (imgTag a1 src a2 ++ t)
  = Some (Found p (List.length (imgTag a1 src a2) + p) []).
Proof.
  intros a1 src a2 t p pv H.
  destruct (imgShape_parts a1 src a2 H)
    as [Ha1 [Hg1 [Hsrc [Hq [Hgs [Hg2 Hlast]]]]]].
  apply match_here_intro. unfold imgPattern, Seq. cbn [fold_right].
  replace (imgTag a1 src a2 ++ t)
    with (str "<img" ++ (a1 ++ qstr "src='" ++ src ++ [dq] ++ a2) ++ [gt] ++ t)
    by (unfold imgTag; rewrite <- !app_assoc; reflexivity).
  rewrite m_Cat, m_Lit_app, m_Cat. unfold notgt_star.
  apply m_star_greedy_all.
  - rewrite !forallb_app, Hg1, Hgs, Hg2. reflexivity.
  - reflexivity.
  - rewrite m_Cat, m_Chr_app, m_Eps. unfold accept.
    cbn [pos prev Regexp.rest caps].
    unfold imgTag. repeat rewrite length_app. simpl List.length.
    repeat (f_equal; try lia).
Qed.

(** X25.  In a text that holds one image tag, [extractImagesFromHTML]
    returns one entry, with the address of the image, entities decoded,
    the file name taken from it, and an empty alternative text;
    [removeImagesFromHTML] returns the text around the tag. *)
Theorem X25_image_is_found_and_removed :
  forall entity entity2 filepath_Base pre a1 src a2 post,
  firstAt (str "<img") pre = true ->
  imgShape a1 src a2 = true ->
  Strings.Contains post (str "<img") = false ->
  extractImagesFromHTML entity entity2 filepath_Base
    (pre ++ imgTag a1 src a2 ++ post)
  = [mkImageRef (Html.UnescapeString entity entity2 src)
                (imageNameOf entity entity2 filepath_Base src) []]
  /\ removeImagesFromHTML (pre ++ imgTag a1 src a2 ++ post) = pre ++ post.
Proof.
  intros entity entity2 filepath_Base pre a1 src a2 post Hpre Hshape Hpost.
  split.
  - unfold extractImagesFromHTML, FindAllStringSubmatch.
    rewrite (find_all_single imgTagRegex pre _ post
               [(1, (List.length (str "<img" ++ a1 ++ qstr "src='")
                     + (List.length pre + 0),
                     List.length ((str "<img" ++ a1 ++ qstr "src='") ++ src)
                     + (List.length pre + 0)))]).
    + cbn [map flat_map app]. unfold match_text, group_text.
      cbn [m_start m_end m_caps seq map find fst snd Nat.eqb].
      replace (slice (pre ++ imgTag a1 src a2 ++ post)
                 (List.length (str "<img" ++ a1 ++ qstr "src='")
                  + (List.length pre + 0))
                 (List.length ((str "<img" ++ a1 ++ qstr "src='") ++ src)
                  + (List.length pre + 0)))
        with src; [reflexivity|].
      symmetry.
      replace (pre ++ imgTag a1 src a2 ++ post)
        with ((pre ++ str "<img" ++ a1 ++ qstr "src='") ++ src
              ++ ([dq] ++ a2 ++ [gt] ++ post))
        by (unfold imgTag; rewrite <- !app_assoc; reflexivity).
      apply slice_at; repeat rewrite length_app; simpl List.length; lia.
    + discriminate.
    + intros pre1 pre2 pv -> Hne. apply imgTagRegex_needs_lit.
      unfold imgTag. rewrite <- !app_assoc.
      eapply firstAt_no_earlier; eassumption.
    + apply imgTagRegex_match. assumption.
    + intros post1 post2 p pv ->. apply imgTagRegex_needs_lit.
      eapply Contains_no_occurrence; eassumption.
  - unfold removeImagesFromHTML, ReplaceAllLiteral.
    rewrite (find_all_single imgPattern pre _ post []).
    + rewrite replace_single. reflexivity.
    + discriminate.
    + intros pre1 pre2 pv -> Hne. apply imgPattern_needs_lit.
      unfold imgTag. rewrite <- !app_assoc.
      eapply firstAt_no_earlier; eassumption.
    + apply imgPattern_match. assumption.
    + intros post1 post2 p pv ->. apply imgPattern_needs_lit.
      eapply Contains_no_occurrence; eassumption.
Qed.

(** X25, an instance: the address of the image has a query. *)
Lemma X25_image_is_found_and_removed_witness :
  firstAt (str "<img") (str "<p>See:</p>") = true
  /\ imgShape (str " ") (str "img/shot.png?v=2") (qstr " alt='x'") = true
  /\ Strings.Contains (str "<p>Done.</p>") (str "<img") = false
  /\ extractImagesFromHTML Example.entity Example.entity2 Example.base
       (str "<p>See:</p>"
        ++ imgTag (str " ") (str "img/shot.png?v=2") (qstr " alt='x'")
        ++ str "<p>Done.</p>")
     = [mkImageRef (str "img/shot.png?v=2") (str "shot.png") []]
  /\ removeImagesFromHTML
       (str "<p>See:</p>"
        ++ imgTag (str " ") (str "img/shot.png?v=2") (qstr " alt='x'")
        ++ str "<p>Done.</p>")
     = str "<p>See:</p>" ++ str "<p>Done.</p>".
Proof.
  split; [vm_compute; reflexivity|]. split; [vm_compute; reflexivity|].
  split; [vm_compute; reflexivity|].
  exact (X25_image_is_found_and_removed Example.entity Example.entity2
           Example.base (str "<p>See:</p>") (str " ")
           (str "img/shot.png?v=2") (qstr " alt='x'") (str "<p>Done.</p>")
           ltac:(vm_compute; reflexivity) ltac:(vm_compute; reflexivity)
           ltac:(vm_compute; reflexivity)).
Defined.

(** ** The retries of [request] *)

Lemma flat_map_seq_shift : forall (A : Type) (f : nat -> list A) n a,
  flat_map f (seq (S a) n) = flat_map (fun i => f (S i)) (seq a n).
Proof.
  intros A f n. induction n as [|n IH]; intros a; [reflexivity|].
  cbn [seq flat_map]. rewrite IH. reflexivity.
Qed.

Section RequestFacts.

Variable Body : Type.
Variable json_Marshal : Body -> option gostring.
Variable http_NewRequest : gostring -> gostring -> bool.
Variable Do : nat -> gostring -> gostring -> option gostring -> Http.DoResult.
Variable decodeRetryIn : gostring -> Z.
Variable baseURL : gostring.

Lemma requestLoop_retries : forall n fuel method url jsonData w,
  http_NewRequest method url = true ->
  (forall i, i < n ->
     rateLimited (Do (Api.calls w + i) method url jsonData) = true) ->
  rateLimited (Do (Api.calls w + n) method url jsonData) = false ->
  n < fuel ->
  Api.requestLoop http_NewRequest Do decodeRetryIn fuel method url jsonData w
  = Some (outcomeOf (Do (Api.calls w + n) method url jsonData),
          Api.mkWorld
            (S (Api.calls w + n))
            (Api.sleeps w
             ++ flat_map (fun i => retryPauses decodeRetryIn
                                     (Do (Api.calls w + i) method url jsonData))
                         (seq 0 n)
             ++ lastPause (Do (Api.calls w + n) method url jsonData))).
Proof.
  induction n as [|n IH]; intros fuel method url jsonData w Hnew Hbusy Hlast Hfuel;
    (destruct fuel as [|fuel]; [lia|]); cbn [Api.requestLoop];
    rewrite Hnew; cbn [negb].
  - rewrite Nat.add_0_r in Hlast |- *. cbn [seq flat_map app].
    unfold lastPause, outcomeOf.
    destruct (Do (Api.calls w) method url jsonData) as [err|resp].
    + rewrite app_nil_r. destruct w; reflexivity.
    + cbn [rateLimited] in Hlast.
      destruct ((Http.StatusCode resp =? 200) || (Http.StatusCode resp =? 201))%Z.
      * reflexivity.
      * rewrite Hlast, app_nil_r. destruct w; reflexivity.
  - assert (H0 := Hbusy 0 ltac:(lia)). rewrite Nat.add_0_r in H0.
    destruct (Do (Api.calls w) method url jsonData) as [err|resp] eqn:E0;
      [discriminate|].
    cbn [rateLimited] in H0.
    replace ((Http.StatusCode resp =? 200) || (Http.StatusCode resp =? 201))%Z
      with false
      by (apply Z.eqb_eq in H0; rewrite H0; reflexivity).
    rewrite H0.
    rewrite IH.
    + cbn [Api.calls Api.sleeps Api.sleep Api.called].
      rewrite <- Nat.add_succ_comm. f_equal. f_equal. f_equal.
      cbn [seq flat_map]. rewrite Nat.add_0_r, E0. cbn [retryPauses].
      rewrite <- !app_assoc. cbn [app]. f_equal. f_equal. f_equal. f_equal.
      * rewrite flat_map_seq_shift.
        apply flat_map_ext. intros i. rewrite <- Nat.add_succ_comm.
        reflexivity.
    + assumption.
    + intros i Hi. cbn [Api.calls Api.sleep Api.called].
      rewrite Nat.add_succ_comm. apply Hbusy. lia.
    + cbn [Api.calls Api.sleep Api.called]. rewrite Nat.add_succ_comm.
      assumption.
    + lia.
Qed.

Lemma requestLoop_busy : forall fuel method url jsonData w,
  http_NewRequest method url = true ->
  (forall i, rateLimited (Do (Api.calls w + i) method url jsonData) = true) ->
  Api.requestLoop http_NewRequest Do decodeRetryIn fuel method url jsonData w
  = None.
Proof.
  induction fuel as [|fuel IH]; intros method url jsonData w Hnew Hbusy;
    [reflexivity|].
  cbn [Api.requestLoop]. rewrite Hnew. cbn [negb].
  assert (H0 := Hbusy 0). rewrite Nat.add_0_r in H0.
  destruct (Do (Api.calls w) method url jsonData) as [err|resp];
    [discriminate|].
  cbn [rateLimited] in H0.
  replace ((Http.StatusCode resp =? 200) || (Http.StatusCode resp =? 201))%Z
    with false
    by (apply Z.eqb_eq in H0; rewrite H0; reflexivity).
  rewrite H0. apply IH; [assumption|].
  intros i. cbn [Api.calls Api.sleep Api.called].
  rewrite Nat.add_succ_comm. apply Hbusy.
Qed.

(** X26.  When the server answers [n] calls in a row with the status
    429 and the next one otherwise, [request], given room for [n + 1]
    iterations, returns what this last answer gives: the response for
    the status 200 or 201, an error for a failure of the transport or
    for another status.  It has called the server [n + 1] times, and it
    has paused, after each 429, for the seconds the answer asked for,
    sixty when it asked for none, and for a second and a quarter more;
    and for a second and a quarter after the response that it returns,
    but not before an error. *)
Theorem X26_request_retries_until_answered :
  forall n fuel method endpoint body jsonData w,
  marshalled json_Marshal body = Some jsonData ->
  http_NewRequest method (baseURL ++ str "/" ++ endpoint) = true ->
  (forall i, i < n ->
     rateLimited (Do (Api.calls w + i) method (baseURL ++ str "/" ++ endpoint)
                     jsonData) = true) ->
  rateLimited (Do (Api.calls w + n) method (baseURL ++ str "/" ++ endpoint)
                  jsonData) = false ->
  n < fuel ->
  Api.request Body json_Marshal http_NewRequest Do decodeRetryIn baseURL fuel
              method endpoint body w
  = Some (outcomeOf (Do (Api.calls w + n) method
                        (baseURL ++ str "/" ++ endpoint) jsonData),
          Api.mkWorld
            (S (Api.calls w + n))
            (Api.sleeps w
             ++ flat_map (fun i => retryPauses decodeRetryIn
                                     (Do (Api.calls w + i) method
                                         (baseURL ++ str "/" ++ endpoint)
                                         jsonData))
                         (seq 0 n)
             ++ lastPause (Do (Api.calls w + n) method
                              (baseURL ++ str "/" ++ endpoint) jsonData))).
Proof.
  intros n fuel method endpoint body jsonData w Hm Hnew Hbusy Hlast Hfuel.
  unfold Api.request. unfold marshalled in Hm.
  destruct body as [b|].
  - destruct (json_Marshal b) as [data|]; [|discriminate].
    cbn [option_map] in Hm. injection Hm as <-.
    apply requestLoop_retries; assumption.
  - injection Hm as <-. apply requestLoop_retries; assumption.
Qed.

(** X27.  As long as the server answers with the status 429, [request]
    calls it again: when every answer is a 429 the function does not
    return, however many iterations it is given. *)
Theorem X27_request_never_gives_up :
  forall fuel method endpoint body jsonData w,
  marshalled json_Marshal body = Some jsonData ->
  http_NewRequest method (baseURL ++ str "/" ++ endpoint) = true ->
  (forall i,
     rateLimited (Do (Api.calls w + i) method (baseURL ++ str "/" ++ endpoint)
                     jsonData) = true) ->
  Api.request Body json_Marshal http_NewRequest Do decodeRetryIn baseURL fuel
              method endpoint body w
  = None.
Proof.
  intros fuel method endpoint body jsonData w Hm Hnew Hbusy.
  unfold Api.request. unfold marshalled in Hm.
  destruct body as [b|].
  - destruct (json_Marshal b) as [data|]; [|discriminate].
    cbn [option_map] in Hm. injection Hm as <-.
    apply requestLoop_busy; assumption.
  - injection Hm as <-. apply requestLoop_busy; assumption.
Qed.

End RequestFacts.

(** X26, an instance: two answers with the status 429, the first asking
    for two seconds, then the status 201. *)
Lemma X26_request_retries_until_answered_witness :
  Api.request gostring Example4.marshal Example4.newRequest Example4.Do
              Example4.retryIn (str "https://a.example/api/v2") 3
              (str "POST") (str "sites/1/articles") (Some (str "{}"))
              (Api.mkWorld 0 [])
  = Some (inl (Http.mkResponse 201 (str "{'article':{'id':7}}")),
          Api.mkWorld 3 [2000000000; 1250000000; 60000000000; 1250000000;
                         1250000000]%Z).
Proof.
  apply (X26_request_retries_until_answered gostring Example4.marshal
           Example4.newRequest Example4.Do Example4.retryIn
           (str "https://a.example/api/v2") 2 3 (str "POST")
           (str "sites/1/articles") (Some (str "{}")) (Some (str "{}"))
           (Api.mkWorld 0 [])).
  - reflexivity.
  - reflexivity.
  - intros [|[|i]] Hi; [reflexivity|reflexivity|lia].
  - reflexivity.
  - lia.
Defined.

(** X27, an instance: a server that always answers with the status 429,
    and a hundred iterations. *)
Lemma X27_request_never_gives_up_witness :
  Api.request gostring Example4.marshal Example4.newRequest Example4.Busy
              Example4.retryIn (str "https://a.example/api/v2") 100
              (str "POST") (str "sites/1/articles") (Some (str "{}"))
              (Api.mkWorld 0 [])
  = None.
Proof.
  apply (X27_request_never_gives_up gostring Example4.marshal
           Example4.newRequest Example4.Busy Example4.retryIn
           (str "https://a.example/api/v2") 100 (str "POST")
           (str "sites/1/articles") (Some (str "{}")) (Some (str "{}"))
           (Api.mkWorld 0 [])).
  - reflexivity.
  - reflexivity.
  - intros i. reflexivity.
Defined.
